(** * DAB adapter core: JSON value and codec, parameter-binding dispatcher,
    telemetry scheduler and multi-device bridge

    A shallow embedding of the three headers of the adapter library
    (Json.h with the JSON value class, dabClient.h with the dispatcher, the
    client and its telemetry scheduler, and dabBridge.h), followed by the
    properties proved about them.  Part I holds the definitions, in the order
    of the sources; Part II holds the lemmas and theorems. *)

From Stdlib Require Import ZArith NArith List String Ascii Bool Lia.
From Stdlib Require Import Decimal DecimalString DecimalPos.
From Stdlib Require Import Floats.SpecFloat.
From Stdlib Require OrderedTypeEx.
Import ListNotations.

Set Warnings "-register-all".

#[local] Open Scope string_scope.
#[local] Open Scope Z_scope.

(* ================================================================== *)
(** * Part I.  Definitions                                             *)
(* ================================================================== *)

(** ** Control flow: exceptions and undefined behaviour *)

(** The sources throw four kinds of objects: string literals (the JSON
    class), [dabException], pairs of a code and a text (caught by name in
    [dabClient::dispatch]) and the exceptions of the C++ library
    ([std::invalid_argument] and [std::out_of_range] from [std::stoll] and
    [std::stod]). *)
Inductive exn : Type :=
| CString (what : string)
| DabException (errorCode : Z) (errorText : string)
| IntStringPair (first : Z) (second : string)
| StdException (what : string).

(** The result of running a piece of the program: a value, a thrown
    exception, or an execution the language leaves undefined (an access
    past the end of a vector, the increment of an end iterator). *)
Inductive outcome (A : Type) : Type :=
| Ok (a : A)
| Throw (e : exn)
| Undefined.

Arguments Ok {A} a.
Arguments Throw {A} e.
Arguments Undefined {A}.

Definition bind {A B : Type} (c : outcome A) (k : A -> outcome B) : outcome B :=
  match c with
  | Ok a => k a
  | Throw e => Throw e
  | Undefined => Undefined
  end.

Notation "x <- c ;; k" := (bind c (fun x => k))
  (at level 61, c at next level, right associativity).

(** ** [std::map]: an ordered association list

    Iteration order is observable in these sources (serialization, the
    discovery fan-out, the head of the telemetry queue), so a map is kept as
    the list of its entries in ascending key order. *)
Module StdMap.
Section Ops.
Context {K V : Type}.
Variable cmp : K -> K -> comparison.

(** [find]: the entry whose key compares equal. *)
Fixpoint find (k : K) (m : list (K * V)) : option V :=
  match m with
  | [] => None
  | (k', v) :: m' =>
      match cmp k k' with
      | Eq => Some v
      | _ => find k m'
      end
  end.

(** [insert]: adds the entry at its place; a key already present keeps its
    entry and the new one is dropped. *)
Fixpoint insert (k : K) (v : V) (m : list (K * V)) : list (K * V) :=
  match m with
  | [] => [(k, v)]
  | (k', v') :: m' =>
      match cmp k k' with
      | Lt => (k, v) :: m
      | Eq => m
      | Gt => (k', v') :: insert k v m'
      end
  end.

(** [m[k] = v]: [operator[]] followed by an assignment through the
    reference it returns. *)
Fixpoint assign (k : K) (v : V) (m : list (K * V)) : list (K * V) :=
  match m with
  | [] => [(k, v)]
  | (k', v') :: m' =>
      match cmp k k' with
      | Lt => (k, v) :: m
      | Eq => (k', v) :: m'
      | Gt => (k', v') :: assign k v m'
      end
  end.

(** [erase] by key. *)
Fixpoint erase (k : K) (m : list (K * V)) : list (K * V) :=
  match m with
  | [] => []
  | (k', v') :: m' =>
      match cmp k k' with
      | Eq => m'
      | _ => (k', v') :: erase k m'
      end
  end.

(** Range insertion [insert(first, last)]: one [insert] per element. *)
Definition insert_range (src m : list (K * V)) : list (K * V) :=
  fold_left (fun acc kv => insert (fst kv) (snd kv) acc) src m.

Definition keys (m : list (K * V)) : list K := map fst m.

(** The class invariant: keys strictly ascending. *)
Inductive ascending : list K -> Prop :=
| asc_nil : ascending []
| asc_cons k ks :
    Forall (fun k' => cmp k k' = Lt) ks -> ascending ks -> ascending (k :: ks).

Definition wf (m : list (K * V)) : Prop := ascending (keys m).

End Ops.
End StdMap.

(** The two key orders in use: [std::less<>] on [std::string] (byte-wise
    lexicographic) and [<] on time points. *)
Definition string_cmp : string -> string -> comparison := String.compare.
Definition time_cmp : Z -> Z -> comparison := Z.compare.


(** ** The JSON value class [jsonElement] *)
Module Json.

(** *** Characters

    A [char] is kept as its byte; where the source compares or masks one, the
    byte is first promoted to [int].  [char_int] is the promotion on targets
    where plain [char] is signed, [uchar_int] the one where it is unsigned. *)
Definition char_int (c : ascii) : Z :=
  let n := Z.of_N (N_of_ascii c) in if n <? 128 then n else n - 256.

Definition uchar_int (c : ascii) : Z := Z.of_N (N_of_ascii c).

Definition NUL : ascii := "000"%char.
Definition TAB : ascii := "009"%char.
Definition LF : ascii := "010"%char.
Definition CR : ascii := "013"%char.
Definition dquote : ascii := "034"%char.
Definition backslash : ascii := "\"%char.

(** *** The variant *)

(** [double]: an IEEE-754 binary64 value.  Zeros, finite numbers and
    infinities are those of [spec_float]; of the bits of a NaN only the sign
    is kept, which printing shows: [Float S754_nan] is a NaN with the sign bit
    clear, [NegNaN] one with the sign bit set. *)
Inductive double : Type :=
| Float (f : spec_float)
| NegNaN.

Inductive jsonElement : Type :=
| JNull                                        (* std::monostate *)
| JInt (v : Z)                                 (* int64_t *)
| JDouble (v : double)
| JString (v : string)
| JObject (v : list (string * jsonElement))    (* objectType *)
| JArray (v : list jsonElement)                (* arrayType *)
| JBool (v : bool)
| JArrayTag.                                   (* decltype(array) *)

Definition objectType : Type := list (string * jsonElement).
Definition arrayType : Type := list jsonElement.

Definition isNull (v : jsonElement) : bool :=
  match v with JNull => true | _ => false end.
Definition isArray (v : jsonElement) : bool :=
  match v with JArray _ => true | _ => false end.
Definition isObject (v : jsonElement) : bool :=
  match v with JObject _ => true | _ => false end.
Definition isArrayTag (v : jsonElement) : bool :=
  match v with JArrayTag => true | _ => false end.

(** The idiom [if (!holds_alternative<objectType>(value)) value = objectType();]
    followed by [std::get<objectType>(value)], and its array twin. *)
Definition objectOf (v : jsonElement) : objectType :=
  match v with JObject obj => obj | _ => [] end.
Definition arrayOf (v : jsonElement) : arrayType :=
  match v with JArray arr => arr | _ => [] end.

(** *** Construction from a braced list

    [jsonElement(std::initializer_list<jsonElement>)]: two elements of which
    the first is a string make a one-member object; a list of objects is
    merged into one object; anything else is an array (the [array] marker is
    dropped from it). *)
Definition jsonElement_list (i : list jsonElement) : jsonElement :=
  let general :=
    if forallb isObject i
    then JObject (fold_left
                    (fun obj it => StdMap.insert_range string_cmp (objectOf it) obj)
                    i [])
    else JArray (filter (fun it => negb (isArrayTag it)) i) in
  match i with
  | [first; second] =>
      match first with
      | JString name => JObject [(name, second)]
      | _ => general
      end
  | _ => general
  end.

(** *** Readers *)

(** [has]: the member exists and is not null. *)
Definition has (v : jsonElement) (name : string) : bool :=
  match v with
  | JObject obj =>
      match StdMap.find string_cmp name obj with
      | Some x => negb (isNull x)
      | None => false
      end
  | _ => false
  end.

(** [operator[](name) const]. *)
Definition subscript_const (v : jsonElement) (name : string) : outcome jsonElement :=
  match v with
  | JObject obj =>
      match StdMap.find string_cmp name obj with
      | Some x => if isNull x then Throw (CString "element not found") else Ok x
      | None => Throw (CString "element not found")
      end
  | _ => Throw (CString "element not found")
  end.

(** [(size_t) index] for a 64-bit [size_t]. *)
Definition to_size_t (index : Z) : Z := index mod 2 ^ 64.

(** [operator[](index) const]. *)
Definition subscript_index_const (v : jsonElement) (index : Z) : outcome jsonElement :=
  match v with
  | JArray arr =>
      match nth_error arr (Z.to_nat (to_size_t index)) with
      | Some x => Ok x
      | None => Throw (CString "element not found")
      end
  | _ => Throw (CString "element not found")
  end.

(** The const conversion operators. *)
Definition to_int64 (v : jsonElement) : outcome Z :=
  match v with JInt z => Ok z | _ => Throw (CString "invalid json integer value") end.
Definition to_bool (v : jsonElement) : outcome bool :=
  match v with JBool b => Ok b | _ => Throw (CString "invalid json integer value") end.
Definition to_double (v : jsonElement) : outcome double :=
  match v with JDouble d => Ok d | _ => Throw (CString "invalid json double value") end.
Definition to_string (v : jsonElement) : outcome string :=
  match v with JString s => Ok s | _ => Throw (CString "invalid json string value") end.

(** [size]. *)
Definition size (v : jsonElement) : outcome nat :=
  match v with
  | JObject obj => Ok (List.length obj)
  | JArray arr => Ok (List.length arr)
  | JNull => Ok 0%nat
  | _ => Throw (CString "invalid usage")
  end.

(** *** Writers *)

(** [v[name] = x] through the mutable [operator[](name)]: a value that is not
    an object becomes an empty object first. *)
Definition subscript_assign (v : jsonElement) (name : string) (x : jsonElement)
  : jsonElement :=
  JObject (StdMap.assign string_cmp name x (objectOf v)).

(** [makeArray]. *)
Definition makeArray (v : jsonElement) : outcome jsonElement :=
  match v with
  | JArray _ => Ok v
  | JNull => Ok (JArray [])
  | _ => Throw (CString "cannot be made an array")
  end.

(** [push_back]. *)
Definition push_back (v : jsonElement) (elem : jsonElement) : outcome jsonElement :=
  a <- makeArray v ;; Ok (JArray (arrayOf a ++ [elem])%list).

(** [arr.resize(n)] when [n] is the length plus one: one default element is
    appended. *)
Definition resize (arr : arrayType) (n : Z) : arrayType :=
  (firstn (Z.to_nat n) arr ++ repeat JNull (Z.to_nat n - List.length arr))%list.

(** The mutable [operator[](index)]: the value is made an array if it is not
    one; the array grows by one element when [(size_t) index] equals its
    length; then [arr[index]] is returned without a range check.  The result
    is the element referred to together with the value after the call; an
    index past the end is undefined behaviour. *)
Definition subscript_index (v : jsonElement) (index : Z)
  : outcome (jsonElement * jsonElement) :=
  let arr := arrayOf v in
  let i := to_size_t index in
  let arr' := if i =? Z.of_nat (List.length arr) then resize arr (i + 1) else arr in
  match nth_error arr' (Z.to_nat i) with
  | Some x => Ok (x, JArray arr')
  | None => Undefined
  end.

(** *** The other testers *)
Definition isInteger (v : jsonElement) : bool :=
  match v with JInt _ => true | _ => false end.
Definition isDouble (v : jsonElement) : bool :=
  match v with JDouble _ => true | _ => false end.
Definition isString (v : jsonElement) : bool :=
  match v with JString _ => true | _ => false end.
Definition isBool (v : jsonElement) : bool :=
  match v with JBool _ => true | _ => false end.

(** *** The other constructors and writers *)

(** [jsonElement(std::string const &name, T v)]: an object with the one
    member. *)
Definition jsonElement_named (name : string) (v : jsonElement) : jsonElement :=
  JObject [(name, v)].

(** The mutable [operator[](name)] read for itself: the value is made an
    object if it is not one, and [std::map::operator[]] adds a null member
    under a name the object does not hold.  The result is the member referred
    to and the value after the call. *)
Definition subscript_name (v : jsonElement) (name : string) : jsonElement * jsonElement :=
  let obj := objectOf v in
  match StdMap.find string_cmp name obj with
  | Some x => (x, JObject obj)
  | None => (JNull, JObject (StdMap.insert string_cmp name JNull obj))
  end.

(** [emplace_back] with one argument: a value that is not an array is
    replaced by an empty one, whatever it held. *)
Definition emplace_back (v : jsonElement) (t : jsonElement) : jsonElement :=
  JArray (arrayOf v ++ [t])%list.

(** [clear]. *)
Definition clear (v : jsonElement) : jsonElement := JNull.

(** [makeObject]: the first test has an empty body and no [else], so the
    second test decides alone. *)
Definition makeObject (v : jsonElement) : outcome jsonElement :=
  match v with
  | JNull => Ok (JObject [])
  | _ => Throw (CString "cannot be made an array")
  end.

(** *** The reference accessors

    The non-const conversion operators change the held alternative before
    they return a reference to it.  Each is given as the result of the call
    and the value the object is left with. *)

(** [(double) z]: the nearest binary64 value, ties to even. *)
Definition double_of_int64 (z : Z) : double :=
  Float (binary_normalize 53 1024 z 0 false).





(** [operator std::string &]: an integer is turned into a double, and the
    [std::get<std::string>] that follows throws on it. *)
Definition ref_string (v : jsonElement) : outcome string * jsonElement :=
  match v with
  | JInt z => (Throw (StdException "bad_variant_access"), JDouble (double_of_int64 z))
  | JString s => (Ok s, v)
  | _ => (Ok "", JString "")
  end.


(** *** Serialization *)

(** [std::to_string(int64_t)]: the decimal digits, after a minus sign when
    the value is negative. *)
Definition to_string_int64 (v : Z) : string :=
  NilEmpty.string_of_int (Z.to_int v).

(** [std::to_string(double)], which prints as [printf] does with [%f]: the
    exact value rounded to six decimals (ties to even), the sign of a zero
    kept, [inf] and [nan] spelled out after their sign.  This is the C
    library's behaviour; the repository only calls it. *)
Definition round_half_even (num den : Z) : Z :=
  let q := num / den in
  let r := num mod den in
  if 2 * r <? den then q
  else if den <? 2 * r then q + 1
  else if Z.even q then q else q + 1.

Definition digit_char (d : Z) : ascii := ascii_of_N (Z.to_N (48 + d)).

Definition six_digits (n : Z) : string :=
  String (digit_char (n / 100000 mod 10))
 (String (digit_char (n / 10000 mod 10))
 (String (digit_char (n / 1000 mod 10))
 (String (digit_char (n / 100 mod 10))
 (String (digit_char (n / 10 mod 10))
 (String (digit_char (n mod 10)) ""))))).

Definition to_string_double (d : double) : string :=
  match d with
  | NegNaN => "-nan"
  | Float S754_nan => "nan"
  | Float (S754_zero s) => (if s then "-" else "") ++ "0.000000"
  | Float (S754_infinity s) => if s then "-inf" else "inf"
  | Float (S754_finite s m e) =>
      let micro :=
        if 0 <=? e then Z.pos m * 2 ^ e * 1000000
        else round_half_even (Z.pos m * 1000000) (2 ^ (- e)) in
      (if s then "-" else "")
        ++ to_string_int64 (micro / 1000000) ++ "." ++ six_digits (micro mod 1000000)
  end.

(** The lookup [digits[i]] in the serializer's table of hexadecimal digits. *)
Definition hexDigit (i : Z) : ascii :=
  match String.get (Z.to_nat i) "0123456789ABCDEF" with
  | Some c => c
  | None => NUL
  end.

(** One character of a string value: the [switch] of the serializer, for a
    given promotion of [char] to [int]. *)
Definition serialize_char_as (promote : ascii -> Z) (it : ascii) : string :=
  if (it =? dquote)%char then String backslash (String dquote "")
  else if (it =? backslash)%char then String backslash (String backslash "")
  else if (it =? CR)%char then String backslash "r"
  else if (it =? LF)%char then String backslash "n"
  else if (it =? TAB)%char then String backslash "t"
  else if (promote it <? 32) || (127 <? promote it)
       then String "%"
              (String (hexDigit (Z.shiftr (Z.land (promote it) 240) 4))
                 (String (hexDigit (Z.land (promote it) 15)) ""))
       else String it "".

(** Plain [char] is taken as signed from here on; [serialize_char_unsigned]
    in Part II shows that the text is the same where it is unsigned. *)
Definition serialize_char : ascii -> string := serialize_char_as char_int.

Fixpoint serialize_string (v : string) : string :=
  match v with
  | EmptyString => ""
  | String it v' => serialize_char it ++ serialize_string v'
  end.

Definition serialize_name (quoteNames : bool) (name : string) : string :=
  if quoteNames then String dquote (name ++ String dquote "") else name.

(** [serialize(buff, quoteNames)].  The source only ever appends to [buff],
    so the function is given as the text it appends.  The [array] marker
    matches no branch and appends nothing. *)
Fixpoint serialize (quoteNames : bool) (v : jsonElement) : string :=
  match v with
  | JObject obj =>
      String "{"
        ((fix members (first : bool) (l : list (string * jsonElement)) : string :=
            match l with
            | [] => "}"
            | (name, x) :: l' =>
                (if first then "" else ",")
                  ++ serialize_name quoteNames name ++ ":"
                  ++ serialize quoteNames x ++ members false l'
            end) true obj)
  | JArray arr =>
      String "["
        ((fix elements (first : bool) (l : list jsonElement) : string :=
            match l with
            | [] => "]"
            | it :: l' =>
                (if first then "" else ",")
                  ++ serialize quoteNames it ++ elements false l'
            end) true arr)
  | JInt v => to_string_int64 v
  | JDouble v => to_string_double v
  | JString v => String dquote (serialize_string v ++ String dquote "")
  | JBool v => if v then "true" else "false"
  | JNull => "null"
  | JArrayTag => ""
  end.

(** The two loops of [serialize], named for the statements about them. *)
Fixpoint serialize_members (quoteNames first : bool) (l : list (string * jsonElement))
  : string :=
  match l with
  | [] => "}"
  | (name, x) :: l' =>
      (if first then "" else ",")
        ++ serialize_name quoteNames name ++ ":"
        ++ serialize quoteNames x ++ serialize_members quoteNames false l'
  end.

Fixpoint serialize_elements (quoteNames first : bool) (l : list jsonElement) : string :=
  match l with
  | [] => "]"
  | it :: l' =>
      (if first then "" else ",")
        ++ serialize quoteNames it ++ serialize_elements quoteNames false l'
  end.


(** *** The parser *)

(** The character classes of the parser.  ([isSymbolB] is the class of the
    characters that continue an unquoted name and [isSymbol] the class that
    may start one; [isNum] continues a number and [isNumB] starts one.) *)
Definition isSpace (c : ascii) : bool :=
  (c =? " ")%char || (c =? TAB)%char || (c =? CR)%char || (c =? LF)%char.

Definition isSymbolB (c : ascii) : bool :=
  let i := char_int c in
  ((97 <=? i) && (i <=? 122)) || ((65 <=? i) && (i <=? 90)) || (c =? "_")%char.

Definition isNum (c : ascii) : bool :=
  let i := char_int c in
  ((48 <=? i) && (i <=? 57)) || (c =? "+")%char || (c =? "-")%char.

Definition isNumB (c : ascii) : bool := isNum c || (c =? "e")%char.

Definition isSymbol (c : ascii) : bool :=
  let i := char_int c in
  isSymbolB c || ((48 <=? i) && (i <=? 57)).

(** The input is a NUL-terminated [char const *]: [peek] is [**str] (the
    terminator once the text is used up), [advance] moves the pointer on by
    one character. *)
Definition peek (str : string) : ascii :=
  match str with
  | String c _ => c
  | EmptyString => NUL
  end.

Definition advance (str : string) : string :=
  match str with
  | String _ str' => str'
  | EmptyString => EmptyString
  end.

Fixpoint drop (n : nat) (str : string) : string :=
  match n with
  | O => str
  | S n' => drop n' (advance str)
  end.

(** Skipping white space: the pointer moves on while [isSpace] holds of the
    current character. *)
Fixpoint skipSpace (str : string) : string :=
  match str with
  | String c str' => if isSpace c then skipSpace str' else str
  | EmptyString => str
  end.

(** The text of the exception thrown for an unterminated string. *)
Definition missing_quote : string := "missing " ++ String dquote "".

(** A quoted member name: everything up to the next quote, taken as it is. *)
Fixpoint quotedName (str : string) : string * string :=
  match str with
  | String c str' =>
      if (c =? NUL)%char || (c =? dquote)%char then ("", str)
      else let (name, rest) := quotedName str' in (String c name, rest)
  | EmptyString => ("", str)
  end.

(** An unquoted member name: the characters taken while [isSymbolB] holds. *)
Fixpoint symbolName (str : string) : string * string :=
  match str with
  | String c str' =>
      if isSymbolB c
      then let (name, rest) := symbolName str' in (String c name, rest)
      else ("", str)
  | EmptyString => ("", str)
  end.

Definition parse_name (str : string) : outcome (string * string) :=
  if (peek str =? dquote)%char then
    let (name, rest) := quotedName (advance str) in
    if (peek rest =? NUL)%char then Throw (CString missing_quote)
    else Ok (name, advance rest)
  else if negb (isSymbol (peek str)) then Throw (CString "invalid json symbol value")
  else Ok (symbolName str).

(** The character a backslash stands before: the four named escapes, and any
    other character for itself. *)
Definition unescape (d : ascii) : ascii :=
  if (d =? dquote)%char then dquote
  else if (d =? "r")%char then CR
  else if (d =? "n")%char then LF
  else if (d =? "t")%char then TAB
  else d.

(** The body of a string value, up to the closing quote. *)
Fixpoint stringBody (str : string) : string * string :=
  match str with
  | EmptyString => ("", str)
  | String c str' =>
      if (c =? NUL)%char || (c =? dquote)%char then ("", str)
      else if (c =? backslash)%char then
        match str' with
        | String d str'' =>
            if (d =? NUL)%char then (String c "", str')
            else let (v, rest) := stringBody str'' in (String (unescape d) v, rest)
        | EmptyString => (String c "", str')
        end
      else let (v, rest) := stringBody str' in (String c v, rest)
  end.

(** The number lexer: the characters of the number, whether a point or an
    exponent letter was among them, and the rest of the input. *)
Fixpoint lexNumber (str : string) : string * bool * string :=
  match str with
  | String c str' =>
      if isNum c then
        let '(v, isFloat, rest) := lexNumber str' in
        (String c v, (c =? ".")%char || (c =? "e")%char || isFloat, rest)
      else ("", false, str)
  | EmptyString => ("", false, str)
  end.

(** [strtoll]/[strtod] on a decimal integer: white space, an optional sign,
    digits.  The result is the sign and the magnitude, or [None] when no
    digit follows. *)
Definition isdigit (c : ascii) : bool :=
  (48 <=? char_int c) && (char_int c <=? 57).

Definition isspace (c : ascii) : bool :=
  (c =? " ")%char || ((9 <=? char_int c) && (char_int c <=? 13)).

Fixpoint skip_isspace (s : string) : string :=
  match s with
  | String c s' => if isspace c then skip_isspace s' else s
  | EmptyString => s
  end.

Fixpoint digitsValue (s : string) (acc : Z) : Z :=
  match s with
  | String c s' =>
      if isdigit c then digitsValue s' (10 * acc + (char_int c - 48)) else acc
  | EmptyString => acc
  end.

Definition signed_digits (v : string) : option (bool * Z) :=
  let v := skip_isspace v in
  let (negative, v) :=
    if (peek v =? "-")%char then (true, advance v)
    else if (peek v =? "+")%char then (false, advance v)
    else (false, v) in
  if isdigit (peek v) then Some (negative, digitsValue v 0) else None.

(** [std::stoll]. *)
Definition stoll (v : string) : outcome Z :=
  match signed_digits v with
  | None => Throw (StdException "invalid_argument: stoll")
  | Some (negative, n) =>
      let z := if negative then - n else n in
      if (z <? - 2 ^ 63) || (2 ^ 63 - 1 <? z)
      then Throw (StdException "out_of_range: stoll")
      else Ok z
  end.

(** [std::stod] on the strings the number lexer can hand to it.  The lexer
    lets only signs and decimal digits through, so the text is a decimal
    integer; the conversion rounds it to the nearest binary64 value. *)
Definition stod (v : string) : outcome double :=
  match signed_digits v with
  | None => Throw (StdException "invalid_argument: stod")
  | Some (negative, n) =>
      if n =? 0 then Ok (Float (S754_zero negative))
      else
        match binary_normalize 53 1024 (if negative then - n else n) 0 false with
        | S754_infinity _ => Throw (StdException "out_of_range: stod")
        | d => Ok (Float d)
        end
  end.

(** After a member of an object: a comma must follow, and the object may end
    right after it.  The flag says whether the object ended. *)
Definition object_separator (first : bool) (str : string) : outcome (bool * string) :=
  if first then Ok (false, str)
  else if negb (peek str =? ",")%char then Throw (CString "missing comma")
  else
    let str := skipSpace (advance str) in
    if (peek str =? "}")%char then Ok (true, advance str) else Ok (false, str).

(** After an element of an array. *)
Definition array_separator (first : bool) (str : string) : outcome string :=
  if first then Ok str
  else if negb (peek str =? ",")%char then Throw (CString "missing comma")
  else Ok (skipSpace (advance str)).

(** The recursive constructor of [jsonElement] from the input pointer, with
    its two loops.  The result is the value and the input left after it.  The
    recursion of the source is bounded here by [fuel]; [None] means that the
    fuel ran out, which [jsonParser_fuel] in Part II rules out for the fuel
    [jsonParser] gives. *)
Fixpoint jsonElement_parse (fuel : nat) (str : string) {struct fuel}
  : option (outcome (jsonElement * string)) :=
  match fuel with
  | O => None
  | S fuel' =>
      let str := skipSpace str in
      if (peek str =? "{")%char then parse_object fuel' true [] (advance str)
      else if (peek str =? "[")%char then parse_array fuel' true [] (advance str)
      else if (peek str =? dquote)%char then
        let (v, rest) := stringBody (advance str) in
        if (peek rest =? NUL)%char then Some (Throw (CString missing_quote))
        else Some (Ok (JString v, advance rest))
      else if isNumB (peek str) then
        let '(v, isFloat, rest) := lexNumber str in
        if isFloat
        then Some (d <- stod v ;; Ok (JDouble d, rest))
        else Some (z <- stoll v ;; Ok (JInt z, rest))
      else if prefix "true" str then Some (Ok (JBool true, drop 4 str))
      else if prefix "false" str then Some (Ok (JBool false, drop 5 str))
      else if prefix "null" str then Some (Ok (JNull, drop 4 str))
      else Some (Throw (CString missing_quote))
  end

with parse_object (fuel : nat) (first : bool) (obj : objectType) (str : string)
  {struct fuel} : option (outcome (jsonElement * string)) :=
  match fuel with
  | O => None
  | S fuel' =>
      let str := skipSpace str in
      if (peek str =? "}")%char then Some (Ok (JObject obj, advance str))
      else
        match object_separator first str with
        | Throw e => Some (Throw e)
        | Undefined => Some Undefined
        | Ok (true, rest) => Some (Ok (JObject obj, rest))
        | Ok (false, str) =>
            match parse_name str with
            | Throw e => Some (Throw e)
            | Undefined => Some Undefined
            | Ok (name, str) =>
                let str := skipSpace str in
                if negb (peek str =? ":")%char
                then Some (Throw (CString "missing name/value separator"))
                else
                  match jsonElement_parse fuel' (skipSpace (advance str)) with
                  | Some (Ok (x, str)) =>
                      parse_object fuel' false (StdMap.assign string_cmp name x obj) str
                  | other => other
                  end
            end
        end
  end

with parse_array (fuel : nat) (first : bool) (arr : arrayType) (str : string)
  {struct fuel} : option (outcome (jsonElement * string)) :=
  match fuel with
  | O => None
  | S fuel' =>
      let str := skipSpace str in
      if (peek str =? "]")%char then Some (Ok (JArray arr, advance str))
      else
        match array_separator first str with
        | Throw e => Some (Throw e)
        | Undefined => Some Undefined
        | Ok str =>
            match jsonElement_parse fuel' str with
            | Some (Ok (x, str)) => parse_array fuel' false (arr ++ [x])%list str
            | other => other
            end
        end
  end.

(** [jsonParser]: one value, then nothing but white space.  The fuel is more
    than twice the length of the text; the last branch stands for the
    exhausted fuel and is never taken. *)
Definition jsonParser (str : string) : outcome jsonElement :=
  match jsonElement_parse (2 * String.length str + 1) str with
  | Some (Ok (result, rest)) =>
      if (peek (skipSpace rest) =? NUL)%char then Ok result
      else Throw (CString "invalid json")
  | Some (Throw e) => Throw e
  | Some Undefined => Undefined
  | None => Undefined
  end.

(** *** C strings *)

(** The string a [char const *] stands for: the characters before the first
    NUL. *)
Fixpoint c_string (s : string) : string :=
  match s with
  | EmptyString => ""
  | String c s' => if (c =? NUL)%char then "" else String c (c_string s')
  end.

End Json.


(** ** The client: parameter-binding dispatcher, registry and telemetry *)
Module DabClient.
Import Json.

(** *** [nativeDispatch] *)

(** The parameter types that occur in the handler prototypes
    ([std::string const &], [int64_t], [bool], [double],
    [jsonElement const &]) and the values passed for them. *)
Inductive ctype : Type := TString | TInt64 | TBool | TDouble | TJson.

Inductive cvalue : Type :=
| VString (s : string)
| VInt64 (z : Z)
| VBool (b : bool)
| VDouble (d : double)
| VJson (j : jsonElement).

(** [Head{}]: the value-initialized object of a parameter type.  For
    [jsonElement] this is the default constructor, which leaves the variant
    at [std::monostate]. *)
Definition default_value (t : ctype) : cvalue :=
  match t with
  | TString => VString ""
  | TInt64 => VInt64 0
  | TBool => VBool false
  | TDouble => VDouble (Float (S754_zero false))
  | TJson => VJson JNull
  end.

(** The implicit conversion of a [jsonElement const &] argument to the
    parameter type, through the const conversion operators. *)
Definition convert (t : ctype) (j : jsonElement) : outcome cvalue :=
  match t with
  | TString => s <- to_string j ;; Ok (VString s)
  | TInt64 => z <- to_int64 j ;; Ok (VInt64 z)
  | TBool => b <- to_bool j ;; Ok (VBool b)
  | TDouble => d <- to_double j ;; Ok (VDouble d)
  | TJson => Ok (VJson j)
  end.

(** One member of the pack [vs]: a reference to an element found in the
    request, or a value-initialized [Head]. *)
Inductive bound : Type :=
| Found (t : ctype) (j : jsonElement)
| Defaulted (t : ctype).

(** A member function of the adapter class, as a function of its
    arguments.  A [void] method stands as one that returns a null element,
    which is what the dispatcher returns after calling it. *)
Definition handler : Type := list cvalue -> outcome jsonElement.

(** The dispatcher of one operation.  The names come paired with the type of
    the handler parameter at the same position: the template takes the types
    from the prototype, in the order of the names. *)
Record nativeDispatch : Type := {
  funcPtr : handler;
  fixedParams : list (string * ctype);
  optionalParams : list (string * ctype)
}.

(** What came out of a dispatch, and the argument lists of the handler calls
    made on the way. *)
Definition traced (A : Type) : Type := (outcome A * list (list cvalue))%type.

(** The call [(cls->*funcPtr)(vs...)]: the arguments are converted, then the
    handler runs. *)
Fixpoint pass_arguments (vs : list bound) : outcome (list cvalue) :=
  match vs with
  | [] => Ok []
  | Found t j :: vs' =>
      a <- convert t j ;; args <- pass_arguments vs' ;; Ok (a :: args)
  | Defaulted t :: vs' =>
      args <- pass_arguments vs' ;; Ok (default_value t :: args)
  end.

Definition invoke (f : handler) (vs : list bound) : traced jsonElement :=
  match pass_arguments vs with
  | Ok args => (f args, [args])
  | Throw e => (Throw e, [])
  | Undefined => (Undefined, [])
  end.

(** The two lookups of a parameter: [elem["payload"]] first (through the
    const [operator[]], which throws when there is no payload), the
    envelope itself second. *)
Definition lookup (elem : jsonElement) (name : string) : outcome (option jsonElement) :=
  payload <- subscript_const elem "payload" ;;
  if has payload name then x <- subscript_const payload name ;; Ok (Some x)
  else if has elem name then x <- subscript_const elem name ;; Ok (Some x)
  else Ok None.

Definition missing_parameter (name : string) : string :=
  "missing parameter " ++ String dquote (name ++ String dquote "").

(** [callOptional]. *)
Fixpoint callOptional (f : handler) (elem : jsonElement)
  (optional : list (string * ctype)) (vs : list bound) : traced jsonElement :=
  match optional with
  | [] => invoke f vs
  | (name, t) :: optional' =>
      match lookup elem name with
      | Ok (Some x) => callOptional f elem optional' (vs ++ [Found t x])
      | Ok None => callOptional f elem optional' (vs ++ [Defaulted t])
      | Throw e => (Throw e, [])
      | Undefined => (Undefined, [])
      end
  end.

(** [callFixed]. *)
Fixpoint callFixed (f : handler) (elem : jsonElement)
  (fixed optional : list (string * ctype)) (vs : list bound) : traced jsonElement :=
  match fixed with
  | [] => callOptional f elem optional vs
  | (name, t) :: fixed' =>
      match lookup elem name with
      | Ok (Some x) => callFixed f elem fixed' optional (vs ++ [Found t x])
      | Ok None =>
          if (name =? "*")%string
          then callFixed f elem fixed' optional (vs ++ [Found t elem])
          else (Throw (DabException 400 (missing_parameter name)), [])
      | Throw e => (Throw e, [])
      | Undefined => (Undefined, [])
      end
  end.

(** [nativeDispatch::operator()]. *)
Definition call (d : nativeDispatch) (elem : jsonElement) : traced jsonElement :=
  callFixed (funcPtr d) elem (fixedParams d) (optionalParams d) [].

(** *** [dabClient] *)

(** One line of the [METHODS] list: the topic suffix, the method whose
    override is detected, the method called, and the parameter names with the
    types the called method declares for them. *)
Record method : Type := {
  methName : string;
  detectFunc : string;
  callFunc : string;
  fixed : list (string * ctype);
  optional : list (string * ctype)
}.

Definition def (methName detectFunc callFunc : string)
  (fixed optional : list (string * ctype)) : method :=
  Build_method methName detectFunc callFunc fixed optional.

Definition METHODS : list method := [
  def "/operations/list" "opList" "opList" [] [];
  def "/applications/list" "appList" "appList" [] [];
  def "/applications/launch" "appLaunch" "appLaunch"
      [("appId", TString)] [("parameters", TJson)];
  def "/applications/launch-with-content" "appLaunchWithContent" "appLaunchWithContent"
      [("appId", TString); ("contentId", TString)] [("parameters", TJson)];
  def "/applications/get-state" "appGetState" "appGetState" [("appId", TString)] [];
  def "/applications/exit" "appExit" "appExit" [("appId", TString)] [("background", TBool)];
  def "/device/info" "deviceInfo" "deviceInfo" [] [];
  def "/system/restart" "systemRestart" "systemRestart" [] [];
  def "/system/settings/list" "systemSettingsList" "systemSettingsList" [] [];
  def "/system/settings/get" "systemSettingsGet" "systemSettingsGet" [] [];
  def "/system/settings/set" "systemSettingsSet" "systemSettingsSet" [("*", TJson)] [];
  def "/input/key/list" "inputKeyList" "inputKeyList" [] [];
  def "/input/key-press" "inputKeyPress" "inputKeyPress" [("keyCode", TString)] [];
  def "/input/long-key-press" "inputKeyLongPress" "inputKeyLongPress"
      [("keyCode", TString); ("durationMs", TInt64)] [];
  def "/output/image" "outputImage" "outputImage" [] [];
  def "/device-telemetry/start" "deviceTelemetry" "deviceTelemetryStartInternal"
      [("duration", TInt64)] [];
  def "/device-telemetry/stop" "deviceTelemetry" "deviceTelemetryStopInternal" [] [];
  def "/app-telemetry/start" "appTelemetry" "appTelemetryStartInternal"
      [("appId", TString); ("duration", TInt64)] [];
  def "/app-telemetry/stop" "appTelemetry" "appTelemetryStopInternal"
      [("appId", TString)] [];
  def "/health-check/get" "healthCheckGet" "healthCheckGet" [] [];
  def "/voice/list" "voiceList" "voiceList" [] [];
  def "/voice/set" "voiceSet" "voiceSet" [("voiceSystem", TJson)] [];
  def "/voice/send-audio" "voiceSendAudio" "voiceSendAudio"
      [("fileLocation", TString)] [("voiceSystem", TString)];
  def "/voice/send-text" "voiceSendText" "voiceSendText"
      [("requestText", TString)] [("voiceSystem", TString)];
  def "/version" "version" "version" [] []
].

Definition dispatchMapType : Type := list (string * (nativeDispatch * bool)).

Record dabClient : Type := {
  deviceId : string;
  ipAddress : string;
  dispatchMap : dispatchMapType
}.

(** The adapter class [T]: the behaviour of each of its member functions, by
    name, and which of them it overrides. *)
Record adapter : Type := {
  member : string -> handler;
  overrides : string -> bool
}.

(** The constructor: one registry entry per line of [METHODS], keyed by
    [dab/<deviceId><methName>], and the entry of [dab/discovery]. *)
Definition register (deviceId : string) (T : adapter) (m : dispatchMapType) (d : method)
  : dispatchMapType :=
  StdMap.insert string_cmp ("dab/" ++ deviceId ++ methName d)
    ({| funcPtr := member T (callFunc d);
        fixedParams := fixed d;
        optionalParams := optional d |},
     overrides T (detectFunc d)
       || (methName d =? "/operations/list")%string
       || (methName d =? "/version")%string)
    m.

Definition new_dabClient (deviceId ipAddress : string) (T : adapter) : dabClient :=
  {| deviceId := deviceId;
     ipAddress := ipAddress;
     dispatchMap :=
       StdMap.insert string_cmp "dab/discovery"
         ({| funcPtr := member T "discovery"; fixedParams := []; optionalParams := [] |},
          false)
         (fold_left (register deviceId T) METHODS []) |}.

(** [getTopics]. *)
Definition getTopics (c : dabClient) : list string :=
  map fst (filter (fun it => snd (snd it)) (dispatchMap c)).

(** The methods [dabClient] itself defines and that touch no state of the
    object: [version], [discovery] and the place-holders that throw. *)
Definition protocolVersion : string := "2.0".

Definition version : handler :=
  fun _ => versions <- push_back JNull (JString protocolVersion) ;;
           Ok (subscript_assign JNull "versions" versions).

Definition discovery (ipAddress deviceId : string) : handler :=
  fun _ => Ok (jsonElement_list
                 [jsonElement_list [JString "ip"; JString ipAddress];
                  jsonElement_list [JString "deviceId"; JString deviceId]]).

Definition unsupported : handler :=
  fun _ => Throw (DabException 501 "unsupported").

(** [std::string::find(c, pos)]; [None] is [npos]. *)
Fixpoint string_find (c : ascii) (pos : nat) (s : string) : option nat :=
  match s with
  | EmptyString => None
  | String d s' =>
      match pos with
      | O => if (d =? c)%char then Some O else option_map S (string_find c O s')
      | S pos' => option_map S (string_find c pos' s')
      end
  end.

(** The operation name [opList] takes from a registry key: the text after
    the second slash.  The search for the second slash starts one past the
    first ([npos + 1] is 0); when there is no second slash the pointer
    [c_str() + npos] is out of range, which the language leaves undefined. *)
Definition trimTopic (key : string) : outcome string :=
  let start :=
    match string_find "/" 0 key with
    | Some first => S first
    | None => O
    end in
  match string_find "/" start key with
  | Some second => Ok (c_string (drop (S second) key))
  | None => Undefined
  end.

(** [opList]: one pass over the registry in key order; the name of every
    entry whose flag is set is pushed to the back of [elem["operations"]]. *)
Definition opList_step (elem : outcome jsonElement) (it : string * (nativeDispatch * bool))
  : outcome jsonElement :=
  elem <- elem ;;
  if snd (snd it) then
    let (operations, elem) := subscript_name elem "operations" in
    name <- trimTopic (fst it) ;;
    operations <- push_back operations (JString name) ;;
    Ok (subscript_assign elem "operations" operations)
  else Ok elem.

Definition opList (c : dabClient) : handler :=
  fun _ => fold_left opList_step (dispatchMap c) (Ok JNull).

(** The response built in the catch clauses of [dispatch]: a braced list
    holding one braced list of four elements. *)
Definition error_response (code : Z) (text : string) : jsonElement :=
  jsonElement_list
    [jsonElement_list [JString "status"; JInt code; JString "error"; JString text]].

(** [dabClient::dispatch]. *)
Definition dispatch_try (c : dabClient) (elem : jsonElement) : traced jsonElement :=
  match (t <- subscript_const elem "topic" ;; to_string t) with
  | Ok topic =>
      let (r, calls) :=
        match StdMap.find string_cmp topic (dispatchMap c) with
        | Some (d, _) => call d elem
        | None => (Ok JNull, [])
        end in
      (rsp <- r ;;
       Ok (if has rsp "status" then rsp else subscript_assign rsp "status" (JInt 200)),
       calls)
  | Throw e => (Throw e, [])
  | Undefined => (Undefined, [])
  end.

Definition dispatch (c : dabClient) (elem : jsonElement) : traced jsonElement :=
  let (r, calls) := dispatch_try c elem in
  (match r with
   | Ok rsp => Ok rsp
   | Throw (IntStringPair first second) => Ok (error_response first second)
   | Throw (DabException errorCode errorText) => Ok (error_response errorCode errorText)
   | Throw _ => Ok (error_response 400 "unable to parse request")
   | Undefined => Undefined
   end, calls).

(** *** The telemetry scheduler *)

(** A telemetry callback yields a JSON value or throws. *)
Definition producer : Type := unit -> outcome jsonElement.

(** [telemetry<F>]: the interval and the callback.  The interval is a
    [std::chrono::milliseconds], a signed 64-bit count of milliseconds; a
    time point is a reading of the steady clock, a signed 64-bit count of
    nanoseconds. *)
Record telemetry : Type := {
  interval : Z;
  callback : producer
}.

(** The value a signed 64-bit count is left with by an addition or a
    multiplication: the result taken modulo 2^64 into the range from -2^63
    to 2^63 - 1. *)
Definition wrap_int64 (z : Z) : Z := (z + 2 ^ 63) mod 2 ^ 64 - 2 ^ 63.

(** [getNextScheduledTime]: [steady_clock::now () + interval].  The interval
    is converted to the period of the clock, one million nanoseconds for a
    millisecond, and added to the reading [now], both in the 64-bit count. *)
Definition getNextScheduledTime (ex : telemetry) (now : Z) : Z :=
  wrap_int64 (now + wrap_int64 (interval ex * 1000000)).

Definition setInterval (newInterval : Z) (ex : telemetry) : telemetry :=
  {| interval := newInterval; callback := callback ex |}.

(** The mapped value of the scheduler: id, topic, executor. *)
Definition entry : Type := (string * string * telemetry)%type.
Definition entry_id (e : entry) : string := fst (fst e).
Definition entry_topic (e : entry) : string := snd (fst e).
Definition entry_executor (e : entry) : telemetry := snd e.

Definition scheduler : Type := list (Z * entry).

(** The loop of [addTelemetry]: the first entry, in key order, with the
    given id gets the new interval.  [None] when there is no such entry. *)
Fixpoint update_interval (id : string) (newInterval : Z) (s : scheduler)
  : option scheduler :=
  match s with
  | [] => None
  | (t, e) :: s' =>
      if (entry_id e =? id)%string
      then Some ((t, (entry_id e, entry_topic e, setInterval newInterval (entry_executor e))) :: s')
      else option_map (cons (t, e)) (update_interval id newInterval s')
  end.

(** [addTelemetry]; [now] is the reading of the steady clock. *)
Definition addTelemetry (now : Z) (interval : Z) (id topic : string)
  (getTelemetryCallback : producer) (s : scheduler) : scheduler :=
  match update_interval id interval s with
  | Some s' => s'
  | None =>
      StdMap.insert time_cmp now
        (id, topic, {| interval := interval; callback := getTelemetryCallback |}) s
  end.

(** [deleteTelemetry]. *)
Fixpoint deleteTelemetry (id : string) (s : scheduler) : scheduler :=
  match s with
  | [] => []
  | (t, e) :: s' =>
      if (entry_id e =? id)%string then s' else (t, e) :: deleteTelemetry id s'
  end.

(** What a pass of the worker does that can be seen from outside. *)
Inductive telemetry_event : Type :=
| Produced (id : string)
| Published (message : jsonElement).

(** One pass of the loop of [telemetryTask], after the wait: [now] is the
    clock reading of the test, [now'] the later reading taken in
    [getNextScheduledTime].  An exception of the callback leaves the loop. *)
Definition telemetryTask (now now' : Z) (s : scheduler)
  : outcome scheduler * list telemetry_event :=
  match s with
  | [] => (Ok s, [])
  | (key, e) :: _ =>
      if key <? now then
        match callback (entry_executor e) tt with
        | Ok rsp =>
            let message :=
              jsonElement_list
                [jsonElement_list [JString "topic"; JString (entry_topic e)];
                 jsonElement_list [JString "payload"; rsp]] in
            (Ok (StdMap.insert time_cmp (getNextScheduledTime (entry_executor e) now') e
                   (StdMap.erase time_cmp key s)),
             [Produced (entry_id e); Published message])
        | Throw x => (Throw x, [Produced (entry_id e)])
        | Undefined => (Undefined, [Produced (entry_id e)])
        end
      else (Ok s, [])
  end.

(** The internal start and stop methods, as functions of the scheduler. *)
Definition deviceTelemetryStartInternal (c : dabClient) (deviceTelemetry : producer)
  (now durationMs : Z) (s : scheduler) : jsonElement * scheduler :=
  (jsonElement_list [jsonElement_list [JString "duration"; JInt durationMs]],
   addTelemetry now durationMs ""
     ("dab/" ++ deviceId c ++ "/device-telemetry/metrics") deviceTelemetry s).

Definition deviceTelemetryStopInternal (s : scheduler) : jsonElement * scheduler :=
  (JNull, deleteTelemetry "" s).

Definition appTelemetryStartInternal (c : dabClient) (appTelemetry : string -> producer)
  (now : Z) (appId : string) (durationMs : Z) (s : scheduler) : jsonElement * scheduler :=
  (jsonElement_list [jsonElement_list [JString "duration"; JInt durationMs]],
   addTelemetry now durationMs appId
     ("dab/" ++ deviceId c ++ "/app-telemetry/metrics/" ++ appId) (appTelemetry appId) s).

Definition appTelemetryStopInternal (appId : string) (s : scheduler)
  : jsonElement * scheduler :=
  (JNull, deleteTelemetry appId s).

(** *** The adapter that overrides nothing *)

(** Every member is the one [dabClient] defines: [version], [discovery],
    [opList], the four internal telemetry methods, and the place-holders that
    throw.  [opList] reads the keys and the flags of the registry of the
    object it is called on; they depend on the device id and on what the
    adapter overrides, not on what the members do, so they are read here off
    the registry built for the same device with no member filled in
    ([base_adapter_opList] in Part II).  A handler is a function of the
    arguments: the telemetry methods are given by what they return, and what
    they do to the scheduler by the four functions above.  The dispatcher
    passes a handler the arguments of its prototype and no other list. *)
Definition base_adapter (ipAddress deviceId : string) : adapter :=
  let bare := {| member := fun _ => unsupported; overrides := fun _ => false |} in
  let duration (durationMs : Z) :=
    jsonElement_list [jsonElement_list [JString "duration"; JInt durationMs]] in
  {| member := fun name =>
       if (name =? "version")%string then version
       else if (name =? "discovery")%string then discovery ipAddress deviceId
       else if (name =? "opList")%string
       then opList (new_dabClient deviceId ipAddress bare)
       else if (name =? "deviceTelemetryStartInternal")%string
       then fun args => match args with
                        | [VInt64 durationMs] => Ok (duration durationMs)
                        | _ => Undefined
                        end
       else if (name =? "deviceTelemetryStopInternal")%string then fun _ => Ok JNull
       else if (name =? "appTelemetryStartInternal")%string
       then fun args => match args with
                        | [VString appId; VInt64 durationMs] => Ok (duration durationMs)
                        | _ => Undefined
                        end
       else if (name =? "appTelemetryStopInternal")%string then fun _ => Ok JNull
       else unsupported;
     overrides := fun _ => false |}.

End DabClient.


(** ** The bridge: [dabBridge] *)
Module DabBridge.
Import Json.

(** [dabInterface]: what the bridge sees of a device instance, its virtual
    [dispatch]. *)
Record dabInterface : Type := {
  dispatch : jsonElement -> outcome jsonElement
}.

(** A client as a device instance of the bridge. *)
Definition instance_of (c : DabClient.dabClient) : dabInterface :=
  {| dispatch := fun json => fst (DabClient.dispatch c json) |}.

(** The registry [instances], keyed by device id. *)
Definition instancesType : Type := list (string * dabInterface).

(** What a dispatch of the bridge does besides returning: calls of the
    [dispatch] of an instance, and calls of [publishCallback] (taken to hold a
    target, as it does once [setPublishCallback] has run). *)
Inductive bridge_event : Type :=
| Dispatched (deviceId : string) (json : jsonElement)
| Published (message : jsonElement).

(** [starts_with], on NUL-terminated strings. *)
Fixpoint starts_with (str pattern : string) {struct pattern} : bool :=
  match pattern with
  | EmptyString => true
  | String p pattern' =>
      if (p =? NUL)%char then true
      else
        match str with
        | String c str' => if (c =? p)%char then starts_with str' pattern' else false
        | EmptyString => false
        end
  end.

(** [std::string_view::find_first_of]; [None] is [npos]. *)
Fixpoint find_first_of (c : ascii) (s : string) : option nat :=
  match s with
  | EmptyString => None
  | String d s' =>
      if (d =? c)%char then Some O else option_map S (find_first_of c s')
  end.

(** The loop of the discovery branch over the instances after the first. *)
Fixpoint fan_out (json : jsonElement) (rest : instancesType)
  : outcome unit * list bridge_event :=
  match rest with
  | [] => (Ok tt, [])
  | (name, value) :: rest' =>
      match dispatch value json with
      | Ok rsp =>
          let (r, events) := fan_out json rest' in
          (r, Dispatched name json :: Published rsp :: events)
      | Throw e => (Throw e, [Dispatched name json])
      | Undefined => (Undefined, [Dispatched name json])
      end
  end.

(** [dabBridge::dispatch]. *)
Definition bridge_dispatch (instances : instancesType) (json : jsonElement)
  : outcome jsonElement * list bridge_event :=
  if has json "topic" then
    match (t <- subscript_const json "topic" ;; to_string t) with
    | Ok topic =>
        if (topic =? "dab/discovery")%string then
          match instances with
          | [] => (Undefined, [])
          | (name, value) :: rest =>
              match fan_out json rest with
              | (Ok _, events) =>
                  (dispatch value json, events ++ [Dispatched name json])%list
              | (Throw e, events) => (Throw e, events)
              | (Undefined, events) => (Undefined, events)
              end
          end
        else if starts_with topic "dab/" then
          match find_first_of "/" (drop 4 topic) with
          | None => (Throw (DabException 400 "topic is malformed"), [])
          | Some slashPos =>
              let deviceId := substring 4 slashPos topic in
              match StdMap.find string_cmp deviceId instances with
              | Some it => (dispatch it json, [Dispatched deviceId json])
              | None => (Throw (DabException 400 "deviceId does not exist"), [])
              end
          end
        else (Throw (DabException 400 "topic is malformed"), [])
    | Throw e => (Throw e, [])
    | Undefined => (Undefined, [])
    end
  else (Throw (DabException 400 "no topic found"), []).

(** [getTopics]. *)
Definition getTopics (topicsOf : dabInterface -> list string) (instances : instancesType)
  : list string :=
  (flat_map (fun instance => topicsOf (snd instance)) instances ++ ["dab/discovery"])%list.

(** [makeDeviceInstance] with parameters.  The classes of the type list are
    tried in order: the first whose [isCompatible] accepts the first
    parameter is constructed and inserted under the device id, and the
    instance found under that id afterwards is returned.  [P] is the type of
    the parameters; a constructor may throw.  (A call without parameters does
    not instantiate: the body names the first parameter.) *)
Section MakeDeviceInstance.
Variable P : Type.

Record deviceClass : Type := {
  isCompatible : P -> bool;
  construct : string -> P -> outcome dabInterface
}.

Fixpoint makeInstances (deviceId : string) (types : list deviceClass) (vs : P)
  (instances : instancesType) : outcome (dabInterface * instancesType) :=
  match types with
  | [] => Throw (DabException 400 "no compatible devices found")
  | HEAD :: Tail =>
      if isCompatible HEAD vs then
        value <- construct HEAD deviceId vs ;;
        let instances := StdMap.insert string_cmp (c_string deviceId) value instances in
        match StdMap.find string_cmp (c_string deviceId) instances with
        | Some it => Ok (it, instances)
        | None => Undefined
        end
      else makeInstances deviceId Tail vs instances
  end.

Definition makeDeviceInstance (C : list deviceClass) (deviceId : string) (vs : P)
  (instances : instancesType) : outcome (dabInterface * instancesType) :=
  makeInstances deviceId C vs instances.

End MakeDeviceInstance.

Arguments isCompatible {P} _ _.
Arguments construct {P} _ _ _.
Arguments makeInstances {P} _ _ _ _.
Arguments makeDeviceInstance {P} _ _ _ _.

End DabBridge.


(** ** Vocabulary of the statements *)
Module Spec.
Import Json DabClient DabBridge.

(** *** Serialized strings, in the words of the specification *)

(** The upper-case hexadecimal digit of a value below sixteen. *)
Definition upper_hex (n : N) : ascii :=
  if (n <? 10)%N then ascii_of_N (48 + n) else ascii_of_N (55 + n).

(** A byte is percent-encoded when it is below 0x20, the three characters
    with a named escape apart, or above 0x7F. *)
Definition percent_encoded (b : ascii) : bool :=
  ((N_of_ascii b <? 32)%N
     && negb ((b =? CR)%char || (b =? LF)%char || (b =? TAB)%char))
  || (127 <? N_of_ascii b)%N.

Definition percent_text (b : ascii) : string :=
  String "%" (String (upper_hex (N_of_ascii b / 16)) (String (upper_hex (N_of_ascii b mod 16)) "")).

(** The emitted text of one byte of a string value. *)
Definition escape_spec (b : ascii) : string :=
  if (b =? dquote)%char then String backslash (String dquote "")
  else if (b =? backslash)%char then String backslash (String backslash "")
  else if (b =? CR)%char then String backslash "r"
  else if (b =? LF)%char then String backslash "n"
  else if (b =? TAB)%char then String backslash "t"
  else if percent_encoded b then percent_text b
  else String b "".

Fixpoint escape_string_spec (v : string) : string :=
  match v with
  | EmptyString => ""
  | String b v' => escape_spec b ++ escape_string_spec v'
  end.

(** *** The round trip *)

(** What the parser gives back for a serialized string: a percent-encoded
    byte comes back as the three characters of its encoding, every other
    byte as itself. *)
Definition returned_char (b : ascii) : string :=
  if percent_encoded b then percent_text b else String b "".

Fixpoint returned_string (v : string) : string :=
  match v with
  | EmptyString => ""
  | String b v' => returned_char b ++ returned_string v'
  end.

Fixpoint returned (v : jsonElement) : jsonElement :=
  match v with
  | JString s => JString (returned_string s)
  | JArray arr => JArray (map returned arr)
  | JObject obj =>
      JObject (map (fun member => match member with (name, x) => (name, returned x) end) obj)
  | other => other
  end.

(** A member name the wire form can carry: it is written between quotes as
    it is, so it holds neither a quote nor a NUL. *)
Fixpoint name_ok (name : string) : bool :=
  match name with
  | EmptyString => true
  | String c name' => negb ((c =? NUL)%char || (c =? dquote)%char) && name_ok name'
  end.

(** Keys in strictly ascending order, as a test. *)
Fixpoint ascendingb (ks : list string) : bool :=
  match ks with
  | [] => true
  | k :: ks' =>
      forallb (fun k' => match string_cmp k k' with Lt => true | _ => false end) ks'
        && ascendingb ks'
  end.

Definition int64_range (z : Z) : bool := (- 2 ^ 63 <=? z) && (z <=? 2 ^ 63 - 1).

(** The values the round trip is stated for: built from null, booleans,
    64-bit integers, strings, arrays and objects whose member names are
    [name_ok] and stand in key order. *)
Fixpoint wire_ok (v : jsonElement) : bool :=
  match v with
  | JNull | JBool _ | JString _ => true
  | JInt z => int64_range z
  | JDouble _ | JArrayTag => false
  | JArray arr => forallb wire_ok arr
  | JObject obj =>
      forallb (fun member => match member with (name, x) => name_ok name && wire_ok x end) obj
        && ascendingb (map fst obj)
  end.

(** Printable ASCII: the bytes 0x20 to 0x7E. *)
Definition printable (b : ascii) : bool :=
  (32 <=? N_of_ascii b)%N && (N_of_ascii b <=? 126)%N.

Fixpoint printable_string (v : string) : bool :=
  match v with
  | EmptyString => true
  | String b v' => printable b && printable_string v'
  end.

(** Every string value of [v] is printable ASCII. *)
Fixpoint printable_strings (v : jsonElement) : bool :=
  match v with
  | JString s => printable_string s
  | JArray arr => forallb printable_strings arr
  | JObject obj =>
      forallb (fun member => match member with (_, x) => printable_strings x end) obj
  | _ => true
  end.

(** *** Dispatch *)

(** A parameter is absent from the request when neither the payload nor the
    envelope [has] it. *)
Definition absent (elem payload : jsonElement) (name : string) : Prop :=
  has payload name = false /\ has elem name = false.

(** A parameter the binding of the fixed names gets past: present, or the
    star. *)
Definition binds (elem payload : jsonElement) (name : string) : Prop :=
  has payload name = true \/ has elem name = true \/ name = "*".

(** *** Telemetry *)

(** The entries of a subject, with their keys. *)
Definition entries_of (id : string) (s : scheduler) : list (Z * entry) :=
  filter (fun it => (entry_id (snd it) =? id)%string) s.

(** The subject ids of the queue, in key order. *)
Definition ids (s : scheduler) : list string := map (fun it => entry_id (snd it)) s.

(** At most one entry per subject id. *)
Definition one_per_subject (s : scheduler) : Prop := NoDup (ids s).

(** The calls a client makes on its scheduler. *)
Inductive telemetry_call : Type :=
| Add (now interval : Z) (id topic : string) (getTelemetryCallback : producer)
| Delete (id : string).

Definition run_call (s : scheduler) (c : telemetry_call) : scheduler :=
  match c with
  | Add now interval id topic cb => addTelemetry now interval id topic cb s
  | Delete id => deleteTelemetry id s
  end.

(** The message a tick publishes. *)
Definition tick_message (topic : string) (payload : jsonElement) : jsonElement :=
  JObject [("payload", payload); ("topic", JString topic)].

(** *** Discovery *)

(** The events of the fan-out: for each remaining instance, in registry
    order, its dispatch and the publication of its response. *)
Definition fan_out_events (json : jsonElement) (responses : list (string * jsonElement))
  : list bridge_event :=
  flat_map (fun r => [Dispatched (fst r) json; Published (snd r)]) responses.

(** *** Braced lists *)

(** The member a list of objects has under a name: that of the first object,
    in list order, that holds the name. *)
Fixpoint first_found (name : string) (objs : list objectType) : option jsonElement :=
  match objs with
  | [] => None
  | obj :: objs' =>
      match StdMap.find string_cmp name obj with
      | Some x => Some x
      | None => first_found name objs'
      end
  end.

(** *** The parser on any text *)

(** A text of white space only. *)
Fixpoint all_space (ws : string) : bool :=
  match ws with
  | EmptyString => true
  | String c ws' => isSpace c && all_space ws'
  end.

(** What the parser can return: no double and no array marker, integers of
    the 64-bit range, objects in key order. *)
Fixpoint parsed_shape (v : jsonElement) : bool :=
  match v with
  | JNull | JBool _ | JString _ => true
  | JInt z => int64_range z
  | JDouble _ | JArrayTag => false
  | JArray arr => forallb parsed_shape arr
  | JObject obj =>
      forallb (fun member => match member with (_, x) => parsed_shape x end) obj
        && ascendingb (map fst obj)
  end.

(** A member name that can be written without quotes: letters and
    underscores, at least one. *)
Fixpoint symbol_chars (name : string) : bool :=
  match name with
  | EmptyString => true
  | String c name' => isSymbolB c && symbol_chars name'
  end.

Definition name_ok_as (quoteNames : bool) (name : string) : bool :=
  if quoteNames then name_ok name
  else symbol_chars name && negb (name =? "")%string.

(** The values either style of [serialize] writes readably; the members of
    an object may stand in any order and a name may be repeated, as in a text
    written by hand. *)
Fixpoint wire_ok_as (quoteNames : bool) (v : jsonElement) : bool :=
  match v with
  | JNull | JBool _ | JString _ => true
  | JInt z => int64_range z
  | JDouble _ | JArrayTag => false
  | JArray arr => forallb (wire_ok_as quoteNames) arr
  | JObject obj =>
      forallb (fun member =>
                 match member with
                 | (name, x) => name_ok_as quoteNames name && wire_ok_as quoteNames x
                 end) obj
  end.

(** What the parser builds from such a text: the strings as [returned_string]
    has them, and every object by assigning its members from left to right. *)
Definition assign_member (obj : objectType) (member : string * jsonElement) : objectType :=
  StdMap.assign string_cmp (fst member) (snd member) obj.

Fixpoint read_back (v : jsonElement) : jsonElement :=
  match v with
  | JString s => JString (returned_string s)
  | JArray arr => JArray (map read_back arr)
  | JObject obj =>
      JObject (fold_left assign_member
                 (map (fun member => match member with (name, x) => (name, read_back x) end) obj)
                 [])
  | other => other
  end.

(** The last member of a list with the given name. *)
Definition last_member (name : string) (members : objectType) : option jsonElement :=
  fold_left (fun found member => if (fst member =? name)%string then Some (snd member) else found)
    members None.

(** *** The registry *)

(** The registry entry of a line of the method list. *)
Definition registered (T : adapter) (m : method) : nativeDispatch * bool :=
  ({| funcPtr := member T (callFunc m);
      fixedParams := fixed m;
      optionalParams := optional m |},
   overrides T (detectFunc m)
     || (methName m =? "/operations/list")%string
     || (methName m =? "/version")%string).

(** The registry with [dab/<deviceId>] taken off its keys, and the way back. *)
Definition register0 (T : adapter) (acc : dispatchMapType) (d : method) : dispatchMapType :=
  StdMap.insert string_cmp (methName d) (registered T d) acc.

Definition prefixed (deviceId : string) (it : string * (nativeDispatch * bool))
  : string * (nativeDispatch * bool) :=
  ("dab/" ++ deviceId ++ fst it, snd it).

(** The answer of [opList] for a list of names, and the value its loop holds
    after these names (null before the first). *)
Definition operations (names : list string) : jsonElement :=
  JObject [("operations", JArray (map JString names))].

Definition operations_so_far (names : list string) : jsonElement :=
  match names with
  | [] => JNull
  | _ => operations names
  end.

(** *** The arguments of a handler *)

(** The member a request gives for a parameter name: that of the payload,
    else that of the envelope. *)
Definition member_for (elem payload : jsonElement) (name : string) : option jsonElement :=
  if has payload name then StdMap.find string_cmp name (objectOf payload)
  else if has elem name then StdMap.find string_cmp name (objectOf elem)
  else None.

(** The argument bound for a fixed name (the envelope itself where the
    request gives none, which is the case of the star) and for an optional
    one. *)
Definition bind_fixed (elem payload : jsonElement) (p : string * ctype) : bound :=
  match member_for elem payload (fst p) with
  | Some x => Found (snd p) x
  | None => Found (snd p) elem
  end.

Definition bind_optional (elem payload : jsonElement) (p : string * ctype) : bound :=
  match member_for elem payload (fst p) with
  | Some x => Found (snd p) x
  | None => Defaulted (snd p)
  end.

Definition bindings (d : nativeDispatch) (elem payload : jsonElement) : list bound :=
  (map (bind_fixed elem payload) (fixedParams d)
     ++ map (bind_optional elem payload) (optionalParams d))%list.

(** *** The queue *)

(** The two invariants of the queue: keys strictly ascending, one entry for
    a subject at most. *)
Definition scheduler_ok (s : scheduler) : Prop :=
  StdMap.wf time_cmp s /\ one_per_subject s.

(** *** The bytes of the wire form *)

(** A byte from 0x20 to 0x7F, a text of such bytes, and a value all of whose
    member names are such texts. *)
Definition seven_bit (b : ascii) : bool :=
  (32 <=? N_of_ascii b)%N && (N_of_ascii b <=? 127)%N.

Fixpoint seven_bit_string (s : string) : bool :=
  match s with
  | EmptyString => true
  | String b s' => seven_bit b && seven_bit_string s'
  end.

Fixpoint seven_bit_names (v : jsonElement) : bool :=
  match v with
  | JArray arr => forallb seven_bit_names arr
  | JObject obj =>
      forallb (fun member =>
                 match member with
                 | (name, x) => seven_bit_string name && seven_bit_names x
                 end) obj
  | _ => true
  end.

(** The values a signed 64-bit count can hold. *)
Definition in_int64 (z : Z) : Prop := - 2 ^ 63 <= z < 2 ^ 63.

(** *** Fixtures for the worked examples *)

Definition D1 : dabClient := new_dabClient "D1" "10.0.0.1" (base_adapter "10.0.0.1" "D1").
Definition D2 : dabClient := new_dabClient "D2" "10.0.0.2" (base_adapter "10.0.0.2" "D2").

Definition discovery_request : jsonElement := JObject [("topic", JString "dab/discovery")].

Definition discovery_response (ipAddress deviceId : string) : jsonElement :=
  JObject [("deviceId", JString deviceId); ("ip", JString ipAddress); ("status", JInt 200)].

Definition envelope (topic : string) (payload : jsonElement) : jsonElement :=
  JObject [("payload", payload); ("topic", JString topic)].

Definition quiet : producer := fun _ => Ok JNull.

End Spec.

(** ** Tactics *)

(** Case analysis on the eight bits of a character. *)
Ltac each_char c :=
  let b0 := fresh "b" in let b1 := fresh "b" in let b2 := fresh "b" in
  let b3 := fresh "b" in let b4 := fresh "b" in let b5 := fresh "b" in
  let b6 := fresh "b" in let b7 := fresh "b" in
  destruct c as [b0 b1 b2 b3 b4 b5 b6 b7];
  destruct b0, b1, b2, b3, b4, b5, b6, b7.

(** A parse that ends in an exception: there is a result, and it is no
    value. *)
Ltac no_value :=
  eexists; split; [reflexivity|];
  let E := fresh "E" in intros ? ? E; discriminate E.

(** A test on known characters, replaced by its value. *)
Ltac known test value := change test with value; cbv iota.


(* ================================================================== *)
(** * Part II.  Properties                                             *)
(* ================================================================== *)

(** ** Strings *)
Section StringFacts.

Lemma append_nil_r (s : string) : s ++ "" = s.
Proof. induction s as [|c s IH]; simpl; [reflexivity | now rewrite IH]. Qed.

Lemma append_assoc (s1 s2 s3 : string) : (s1 ++ s2) ++ s3 = s1 ++ (s2 ++ s3).
Proof. induction s1 as [|c s1 IH]; simpl; [reflexivity | now rewrite IH]. Qed.

Lemma length_append (s1 s2 : string) :
  String.length (s1 ++ s2) = (String.length s1 + String.length s2)%nat.
Proof. induction s1 as [|c s1 IH]; simpl; [reflexivity | now rewrite IH]. Qed.

End StringFacts.

(** ** The serializer of string values *)
Section SerializeStrings.
Import Json Spec.

(** The switch of the serializer is the escaping the specification words. *)
Lemma serialize_char_spec (b : ascii) : serialize_char b = escape_spec b.
Proof. each_char b; vm_compute; reflexivity. Qed.

(** The text does not depend on the signedness of plain [char]: where it is
    unsigned the test [it > 127] does what [it < 32] does where it is signed. *)
Lemma serialize_char_unsigned (b : ascii) :
  serialize_char_as uchar_int b = serialize_char_as char_int b.
Proof. each_char b; vm_compute; reflexivity. Qed.

Lemma serialize_string_spec (v : string) : serialize_string v = escape_string_spec v.
Proof.
  induction v as [|b v IH]; simpl; [reflexivity|].
  now rewrite serialize_char_spec, IH.
Qed.

(** C6.  For every string value the serializer emits, between two quotes, each
    byte below 0x20 (other than CR, LF and TAB) or above 0x7F as a percent
    sign and the two upper-case hexadecimal digits of the byte, the quote, the
    backslash, CR, LF and TAB as their backslash escapes, and every other byte
    as it is; this holds whether plain [char] is signed or unsigned. *)
Theorem serialize_string_escapes :
  forall (quoteNames : bool) (v : string),
    serialize quoteNames (JString v)
      = String dquote (escape_string_spec v ++ String dquote "")
    /\ (forall b : ascii, serialize_char_as uchar_int b = escape_spec b).
Proof.
  intros quoteNames v; split.
  - simpl. now rewrite serialize_string_spec.
  - intros b. rewrite serialize_char_unsigned. apply serialize_char_spec.
Qed.

End SerializeStrings.

(** ** The mutable index operator *)
Section SubscriptIndex.
Import Json.

Lemma to_size_t_range (index : Z) : 0 <= to_size_t index < 2 ^ 64.
Proof. unfold to_size_t. apply Z.mod_pos_bound. reflexivity. Qed.

Lemma resize_grow (arr : arrayType) :
  resize arr (Z.of_nat (List.length arr) + 1) = (arr ++ [JNull])%list.
Proof.
  unfold resize.
  replace (Z.to_nat (Z.of_nat (List.length arr) + 1)) with (S (List.length arr)) by lia.
  rewrite firstn_all2 by lia.
  replace (S (List.length arr) - List.length arr)%nat with 1%nat by lia.
  reflexivity.
Qed.

(** The cast to [size_t] leaves an index that is not negative as it is and
    takes a negative one beyond every length a vector can have. *)
Lemma to_size_t_id (index : Z) : 0 <= index < 2 ^ 64 -> to_size_t index = index.
Proof. intros H. unfold to_size_t. now apply Z.mod_small. Qed.

Lemma to_size_t_negative (index : Z) :
  - 2 ^ 63 <= index < 0 -> 2 ^ 63 <= to_size_t index.
Proof.
  intros H. unfold to_size_t.
  replace index with (index + 2 ^ 64 + (-1) * 2 ^ 64) by ring.
  rewrite Z.mod_add by lia. rewrite Z.mod_small; lia.
Qed.

Lemma subscript_index_cases (v : jsonElement) (index : Z) :
  let arr := arrayOf v in
  let i := to_size_t index in
  let n := Z.of_nat (List.length arr) in
  (i < n ->
     exists x, nth_error arr (Z.to_nat i) = Some x
               /\ subscript_index v index = Ok (x, JArray arr))
  /\ (i = n -> subscript_index v index = Ok (JNull, JArray (arr ++ [JNull])%list))
  /\ (n < i -> subscript_index v index = Undefined).
Proof.
  intros arr i n.
  pose proof (to_size_t_range index) as Hi. fold i in Hi.
  unfold subscript_index. fold arr. fold i.
  repeat split.
  - intros Hlt.
    destruct (Z.eqb_spec i (Z.of_nat (List.length arr))) as [E|_]; [unfold n in Hlt; lia|].
    destruct (nth_error arr (Z.to_nat i)) as [x|] eqn:Hx.
    + exists x. split; reflexivity.
    + apply nth_error_None in Hx. unfold n in Hlt. lia.
  - intros Heq. unfold n in Heq.
    rewrite Heq, Z.eqb_refl, resize_grow.
    rewrite Nat2Z.id, nth_error_app2 by lia.
    now rewrite Nat.sub_diag.
  - intros Hgt. unfold n in Hgt.
    destruct (Z.eqb_spec i (Z.of_nat (List.length arr))) as [E|_]; [lia|].
    destruct (nth_error arr (Z.to_nat i)) as [x|] eqn:Hx; [|reflexivity].
    assert (Z.to_nat i < List.length arr)%nat by (apply nth_error_Some; congruence).
    lia.
Qed.

(** C10, as the specification states it, fails.  The operator takes any
    integral type, signed ones too, and the index -1 is at most the length of
    every array; the cast to [size_t] makes it the largest index there is,
    and the access is out of bounds. *)
Lemma negative_index_out_of_bounds :
  -1 <= Z.of_nat (List.length [JInt 10; JInt 20])
  /\ subscript_index (JArray [JInt 10; JInt 20]) (-1) = Undefined.
Proof. split; [simpl; lia | reflexivity]. Qed.

(** C10 (amended).  The mutable index operator works on the array of the
    value (an empty one when the value is not an array).  For an index of an
    integral type of at most 64 bits and an array of fewer than 2^63
    elements: an index from 0 up to the length is in bounds; below the length
    it refers to the stored element and leaves the array as it is, equal to
    the length it appends one default (null) element and refers to it.  A
    negative index and an index above the length reach the unchecked vector
    access out of bounds. *)
Theorem subscript_index_bounds :
  forall (v : jsonElement) (index : Z),
    let arr := arrayOf v in
    let n := Z.of_nat (List.length arr) in
    n < 2 ^ 63 ->
    - 2 ^ 63 <= index < 2 ^ 64 ->
    (0 <= index < n ->
       exists x, nth_error arr (Z.to_nat index) = Some x
                 /\ subscript_index v index = Ok (x, JArray arr))
    /\ (index = n -> subscript_index v index = Ok (JNull, JArray (arr ++ [JNull])%list))
    /\ (index < 0 \/ n < index -> subscript_index v index = Undefined).
Proof.
  intros v index arr n Hn Hindex.
  destruct (subscript_index_cases v index) as [Hbelow [Hat Habove]].
  fold arr in Hbelow, Hat, Habove. fold n in Hbelow, Hat, Habove.
  split; [|split].
  - intros H.
    destruct Hbelow as [x [Hx Hs]]; [rewrite to_size_t_id; lia|].
    rewrite to_size_t_id in Hx by lia. exists x. split; [exact Hx | exact Hs].
  - intros H. apply Hat. rewrite to_size_t_id; lia.
  - intros [H|H]; apply Habove.
    + pose proof (to_size_t_negative index). lia.
    + rewrite to_size_t_id; lia.
Qed.

Lemma subscript_index_bounds_witness :
  (exists x, nth_error [JInt 10; JInt 20] (Z.to_nat 1) = Some x
             /\ subscript_index (JArray [JInt 10; JInt 20]) 1
                = Ok (x, JArray [JInt 10; JInt 20]))
  /\ subscript_index (JArray [JInt 10; JInt 20]) 2
     = Ok (JNull, JArray [JInt 10; JInt 20; JNull])
  /\ subscript_index (JArray [JInt 10; JInt 20]) 3 = Undefined
  /\ subscript_index (JArray [JInt 10; JInt 20]) (-1) = Undefined.
Proof.
  split; [|split; [|split]].
  - apply (subscript_index_bounds (JArray [JInt 10; JInt 20]) 1); simpl; lia.
  - apply (subscript_index_bounds (JArray [JInt 10; JInt 20]) 2); simpl; lia.
  - apply (subscript_index_bounds (JArray [JInt 10; JInt 20]) 3); simpl; lia.
  - apply (subscript_index_bounds (JArray [JInt 10; JInt 20]) (-1)); simpl; lia.
Defined.

End SubscriptIndex.


(** ** The dispatcher *)
Section Dispatcher.
Import Json DabClient Spec.

Lemma lookup_absent (elem payload : jsonElement) (name : string) :
  subscript_const elem "payload" = Ok payload ->
  absent elem payload name ->
  lookup elem name = Ok None.
Proof.
  intros Hp [H1 H2]. unfold lookup. rewrite Hp. simpl. now rewrite H1, H2.
Qed.

Lemma has_subscript_const (v : jsonElement) (name : string) :
  has v name = true -> exists x, subscript_const v name = Ok x.
Proof.
  unfold has, subscript_const. destruct v; try discriminate.
  destruct (StdMap.find string_cmp name v) as [x|]; [|discriminate].
  destruct (isNull x); [discriminate|]. intros _. now exists x.
Qed.

Lemma lookup_binds (elem payload : jsonElement) (name : string) :
  subscript_const elem "payload" = Ok payload ->
  has payload name = true \/ has elem name = true ->
  exists x, lookup elem name = Ok (Some x).
Proof.
  intros Hp H. unfold lookup. rewrite Hp. simpl.
  destruct (has payload name) eqn:H1.
  - destruct (has_subscript_const _ _ H1) as [x ->]. now exists x.
  - destruct H as [H|H]; [discriminate|]. rewrite H.
    destruct (has_subscript_const _ _ H) as [x ->]. now exists x.
Qed.

(** *** The argument pack *)

Lemma pass_arguments_length (ws : list bound) (args : list cvalue) :
  pass_arguments ws = Ok args -> List.length args = List.length ws.
Proof.
  revert args. induction ws as [|[t j|t] ws IH]; simpl; intros args H.
  - now inversion H.
  - destruct (convert t j) as [a| |]; simpl in H; try discriminate.
    destruct (pass_arguments ws) as [args'| |]; simpl in H; try discriminate.
    inversion H; subst. simpl. now rewrite (IH args').
  - destruct (pass_arguments ws) as [args'| |]; simpl in H; try discriminate.
    inversion H; subst. simpl. now rewrite (IH args').
Qed.

Lemma pass_arguments_defaulted (ws : list bound) (args : list cvalue) (k : nat) (t : ctype) :
  pass_arguments ws = Ok args ->
  nth_error ws k = Some (Defaulted t) ->
  nth_error args k = Some (default_value t).
Proof.
  revert args k. induction ws as [|[t' j|t'] ws IH]; simpl; intros args k H Hk.
  - destruct k; discriminate.
  - destruct (convert t' j) as [a| |]; simpl in H; try discriminate.
    destruct (pass_arguments ws) as [args'| |]; simpl in H; try discriminate.
    inversion H; subst. destruct k as [|k]; simpl in *; [discriminate|].
    now apply IH.
  - destruct (pass_arguments ws) as [args'| |]; simpl in H; try discriminate.
    inversion H; subst. destruct k as [|k]; simpl in *.
    + now inversion Hk.
    + now apply IH.
Qed.

Lemma invoke_called (f : handler) (vs : list bound) (args : list cvalue) :
  snd (invoke f vs) = [args] -> pass_arguments vs = Ok args.
Proof.
  unfold invoke. destruct (pass_arguments vs) as [a| |]; simpl; intros H;
    now inversion H.
Qed.

(** A call made by [callOptional] passes the pack it was given, extended. *)
Lemma callOptional_called (f : handler) (elem : jsonElement)
  (optional : list (string * ctype)) :
  forall (vs : list bound) (args : list cvalue),
    snd (callOptional f elem optional vs) = [args] ->
    exists tail, pass_arguments (vs ++ tail) = Ok args
                 /\ List.length tail = List.length optional.
Proof.
  induction optional as [|[name t] optional IH]; simpl; intros vs args H.
  - exists []. rewrite app_nil_r. split; [now apply (invoke_called f) | reflexivity].
  - destruct (lookup elem name) as [[x|]| |]; simpl in H; try discriminate.
    + destruct (IH _ _ H) as [tail [Ht Hl]]. rewrite <- app_assoc in Ht.
      exists (Found t x :: tail). split; [exact Ht | simpl; now rewrite Hl].
    + destruct (IH _ _ H) as [tail [Ht Hl]]. rewrite <- app_assoc in Ht.
      exists (Defaulted t :: tail). split; [exact Ht | simpl; now rewrite Hl].
Qed.

Lemma callOptional_default (f : handler) (elem : jsonElement)
  (optional : list (string * ctype)) :
  forall (vs : list bound) (args : list cvalue) (i : nat) (name : string) (t : ctype),
    snd (callOptional f elem optional vs) = [args] ->
    nth_error optional i = Some (name, t) ->
    lookup elem name = Ok None ->
    nth_error args (List.length vs + i) = Some (default_value t).
Proof.
  induction optional as [|[name0 t0] optional IH]; simpl; intros vs args i name t H Hi Hl.
  - destruct i; discriminate.
  - destruct i as [|i]; simpl in Hi.
    + inversion Hi; subst. rewrite Hl in H.
      destruct (callOptional_called _ _ _ _ _ H) as [tail [Ht _]].
      apply (pass_arguments_defaulted _ _ _ _ Ht).
      rewrite Nat.add_0_r, <- app_assoc. simpl.
      rewrite nth_error_app2 by lia. now rewrite Nat.sub_diag.
    + destruct (lookup elem name0) as [[x|]| |]; simpl in H; try discriminate.
      * specialize (IH _ _ _ _ _ H Hi Hl). rewrite length_app in IH. simpl in IH.
        now replace (List.length vs + S i)%nat with (List.length vs + 1 + i)%nat by lia.
      * specialize (IH _ _ _ _ _ H Hi Hl). rewrite length_app in IH. simpl in IH.
        now replace (List.length vs + S i)%nat with (List.length vs + 1 + i)%nat by lia.
Qed.

(** A call made by [callFixed] was made by [callOptional], on a pack with one
    more member for each fixed name. *)
Lemma callFixed_called (f : handler) (elem : jsonElement)
  (fixed optional : list (string * ctype)) :
  forall (vs : list bound) (args : list cvalue),
    snd (callFixed f elem fixed optional vs) = [args] ->
    exists vs', snd (callOptional f elem optional vs') = [args]
                /\ List.length vs' = (List.length vs + List.length fixed)%nat.
Proof.
  induction fixed as [|[name t] fixed IH]; simpl; intros vs args H.
  - exists vs. split; [exact H | lia].
  - destruct (lookup elem name) as [[x|]| |]; simpl in H; try discriminate.
    + destruct (IH _ _ H) as [vs' [H1 H2]]. exists vs'. split; [exact H1|].
      rewrite H2, length_app. simpl. lia.
    + destruct (name =? "*")%string; simpl in H; [|discriminate].
      destruct (IH _ _ H) as [vs' [H1 H2]]. exists vs'. split; [exact H1|].
      rewrite H2, length_app. simpl. lia.
Qed.

(** The first fixed name that is absent stops the binding: the exception
    names it and no call is made. *)
Lemma callFixed_missing (f : handler) (elem payload : jsonElement)
  (pre post optional : list (string * ctype)) (name : string) (t : ctype) :
  subscript_const elem "payload" = Ok payload ->
  Forall (fun p => binds elem payload (fst p)) pre ->
  absent elem payload name ->
  name <> "*" ->
  forall vs,
    callFixed f elem (pre ++ (name, t) :: post) optional vs
      = (Throw (DabException 400 (missing_parameter name)), []).
Proof.
  intros Hp Hpre Habs Hstar.
  induction Hpre as [|[n0 t0] pre Hb _ IH]; simpl; intros vs.
  - rewrite (lookup_absent _ _ _ Hp Habs).
    destruct (String.eqb_spec name "*") as [E|_]; [contradiction | reflexivity].
  - simpl in Hb. destruct (has payload n0) eqn:H1; [| destruct (has elem n0) eqn:H2].
    + destruct (lookup_binds elem payload n0 Hp (or_introl H1)) as [x ->]. apply IH.
    + destruct (lookup_binds elem payload n0 Hp (or_intror H2)) as [x ->]. apply IH.
    + assert (Hn : n0 = "*") by (destruct Hb as [Hb|[Hb|Hb]]; congruence).
      rewrite (lookup_absent elem payload n0 Hp (conj H1 H2)).
      subst n0. simpl. apply IH.
Qed.

(** *** [dabClient::dispatch] *)

Lemma dispatch_registered (c : dabClient) (elem : jsonElement) (topic : string)
  (d : nativeDispatch) (flag : bool) :
  subscript_const elem "topic" = Ok (JString topic) ->
  StdMap.find string_cmp topic (dispatchMap c) = Some (d, flag) ->
  snd (dispatch c elem) = snd (call d elem).
Proof.
  intros Ht Hf. unfold dispatch, dispatch_try. rewrite Ht. simpl. rewrite Hf.
  now destruct (call d elem) as [r calls].
Qed.

(** The general form of what the code does for a missing fixed parameter,
    when the envelope has a payload: the binding stops at the first missing
    name and no handler runs, and the catch clause of [dispatch] builds
    [error_response] from the code and the text. *)
Lemma dispatch_missing_fixed (c : dabClient) (elem payload : jsonElement) (topic : string)
  (d : nativeDispatch) (flag : bool)
  (pre post : list (string * ctype)) (name : string) (t : ctype) :
  subscript_const elem "topic" = Ok (JString topic) ->
  StdMap.find string_cmp topic (dispatchMap c) = Some (d, flag) ->
  subscript_const elem "payload" = Ok payload ->
  fixedParams d = (pre ++ (name, t) :: post)%list ->
  Forall (fun p => binds elem payload (fst p)) pre ->
  absent elem payload name ->
  name <> "*" ->
  dispatch c elem = (Ok (error_response 400 (missing_parameter name)), []).
Proof.
  intros Ht Hf Hp Hfix Hpre Habs Hstar.
  unfold dispatch, dispatch_try. rewrite Ht. simpl. rewrite Hf.
  unfold call. rewrite Hfix.
  now rewrite (callFixed_missing _ _ _ _ _ _ _ _ Hp Hpre Habs Hstar).
Qed.

(** The response of the catch clauses is an array holding one array, not an
    object. *)
Lemma error_response_shape (code : Z) (text : string) :
  error_response code text
    = JArray [JArray [JString "status"; JInt code; JString "error"; JString text]].
Proof. reflexivity. Qed.

(** C1 (the code at the failing input).  A launch request with an empty
    payload: the binding stops at the missing [appId] and no handler runs,
    but the catch clause builds its response from one braced list of four
    elements, which the list constructor of [jsonElement] makes an array
    inside an array, where the specification has the object with the members
    [status] and [error]. *)
Theorem launch_without_appId :
  dispatch D1 (envelope "dab/D1/applications/launch" (JObject []))
    = (Ok (JArray [JArray [JString "status"; JInt 400; JString "error";
                           JString (missing_parameter "appId")]]),
       [])
  /\ dispatch D1 (JObject [("topic", JString "dab/D1/applications/launch")])
    = (Ok (JArray [JArray [JString "status"; JInt 400; JString "error";
                           JString "unable to parse request"]]),
       []).
Proof. split; vm_compute; reflexivity. Qed.

(** C8.  An envelope whose topic string is not a key of the registry reaches
    no handler and is answered with the object whose only member is
    [status] 200. *)
Theorem dispatch_unknown_topic :
  forall (c : dabClient) (elem : jsonElement) (topic : string),
    subscript_const elem "topic" = Ok (JString topic) ->
    StdMap.find string_cmp topic (dispatchMap c) = None ->
    dispatch c elem = (Ok (JObject [("status", JInt 200)]), []).
Proof.
  intros c elem topic Ht Hf.
  unfold dispatch, dispatch_try. rewrite Ht. simpl. now rewrite Hf.
Qed.

Lemma dispatch_unknown_topic_witness :
  dispatch D1 (envelope "dab/D1/nope" JNull) = (Ok (JObject [("status", JInt 200)]), []).
Proof.
  apply (dispatch_unknown_topic D1 (envelope "dab/D1/nope" JNull) "dab/D1/nope");
    reflexivity.
Defined.

(** C3, as the specification states it, fails.  A launch request without
    [parameters]:
    the handler is called, and its second argument is the default-constructed
    (null) element, not an empty object. *)
Lemma launch_default_parameters_is_null :
  snd (dispatch D1 (envelope "dab/D1/applications/launch" (JObject [("appId", JString "x")])))
    = [[VString "x"; VJson JNull]]
  /\ VJson JNull <> VJson (JObject []).
Proof. split; [vm_compute; reflexivity | discriminate]. Qed.

(** C3 (amended).  Whenever a dispatch calls the handler of an operation, an
    optional parameter that is absent from the payload and from the envelope
    is passed, at its position after the fixed parameters, as the
    value-initialized object of its declared type: the empty string, 0,
    false, and for a JSON-valued parameter the null element. *)
Theorem optional_parameter_default :
  forall (c : dabClient) (elem payload : jsonElement) (topic : string)
         (d : nativeDispatch) (flag : bool)
         (args : list cvalue) (i : nat) (name : string) (t : ctype),
    subscript_const elem "topic" = Ok (JString topic) ->
    StdMap.find string_cmp topic (dispatchMap c) = Some (d, flag) ->
    subscript_const elem "payload" = Ok payload ->
    snd (dispatch c elem) = [args] ->
    nth_error (optionalParams d) i = Some (name, t) ->
    absent elem payload name ->
    nth_error args (List.length (fixedParams d) + i) = Some (default_value t)
    /\ default_value TString = VString ""
    /\ default_value TInt64 = VInt64 0
    /\ default_value TBool = VBool false
    /\ default_value TJson = VJson JNull.
Proof.
  intros c elem payload topic d flag args i name t Ht Hf Hp Hcall Hi Habs.
  split; [|repeat split].
  rewrite (dispatch_registered _ _ _ _ _ Ht Hf) in Hcall. unfold call in Hcall.
  destruct (callFixed_called _ _ _ _ _ _ Hcall) as [vs' [H1 H2]].
  simpl in H2. rewrite <- H2.
  apply (callOptional_default _ _ _ _ _ _ _ _ H1 Hi).
  now apply (lookup_absent _ payload).
Qed.

Lemma optional_parameter_default_witness :
  nth_error [VString "x"; VJson JNull] (1 + 0) = Some (default_value TJson)
  /\ default_value TString = VString ""
  /\ default_value TInt64 = VInt64 0
  /\ default_value TBool = VBool false
  /\ default_value TJson = VJson JNull.
Proof.
  apply (optional_parameter_default D1
           (envelope "dab/D1/applications/launch" (JObject [("appId", JString "x")]))
           (JObject [("appId", JString "x")])
           "dab/D1/applications/launch"
           {| funcPtr := unsupported;
              fixedParams := [("appId", TString)];
              optionalParams := [("parameters", TJson)] |}
           false [VString "x"; VJson JNull] 0%nat "parameters" TJson);
    try reflexivity.
  split; reflexivity.
Defined.

End Dispatcher.


(** ** The bridge *)
Section Bridge.
Import Json DabBridge Spec.

Lemma subscript_const_has (v x : jsonElement) (name : string) :
  subscript_const v name = Ok x -> has v name = true.
Proof.
  unfold has, subscript_const. destruct v; try discriminate.
  destruct (StdMap.find string_cmp name v) as [y|]; [|discriminate].
  now destruct (isNull y).
Qed.

Lemma find_first_of_app (c : ascii) (s rest : string) :
  find_first_of c s = None ->
  find_first_of c (s ++ String c rest) = Some (String.length s).
Proof.
  induction s as [|d s IH]; simpl; intros H.
  - now rewrite Ascii.eqb_refl.
  - destruct (d =? c)%char; [discriminate|].
    destruct (find_first_of c s); [discriminate|]. now rewrite IH.
Qed.

Lemma substring_prefix (s rest : string) :
  substring 0 (String.length s) (s ++ rest) = s.
Proof.
  induction s as [|c s IH]; simpl.
  - now destruct rest.
  - now rewrite IH.
Qed.

(** A topic [dab/<deviceId>/<rest>] is not the discovery topic. *)
Lemma device_topic_not_discovery (deviceId rest : string) :
  find_first_of "/" deviceId = None ->
  (("dab/" ++ deviceId ++ "/" ++ rest) =? "dab/discovery")%string = false.
Proof.
  intros H. apply String.eqb_neq. intros E. simpl in E.
  assert (E' : deviceId ++ String "/" rest = "discovery") by congruence.
  apply (f_equal (find_first_of "/")) in E'.
  rewrite (find_first_of_app _ _ _ H) in E'. discriminate.
Qed.

(** C7, as the specification states it, fails.  For the topic
    [dab/XYZ/version] on a bridge without a device [XYZ] the dispatch of the
    bridge returns no response, neither the object with the status and the
    error text nor any other: it throws, and the bridge has no handler that
    would turn what is thrown into a response. *)
Lemma unknown_device_no_response :
  fst (bridge_dispatch [("D1", instance_of D1)]
         (JObject [("topic", JString "dab/XYZ/version")]))
    <> Ok (JObject [("error", JString "deviceId does not exist"); ("status", JInt 400)])
  /\ (forall rsp : jsonElement,
        fst (bridge_dispatch [("D1", instance_of D1)]
               (JObject [("topic", JString "dab/XYZ/version")]))
          <> Ok rsp)
  /\ fst (bridge_dispatch [("D1", instance_of D1)]
          (JObject [("topic", JString "dab/XYZ/version")]))
       = Throw (DabException 400 "deviceId does not exist").
Proof.
  split; [|split]; [discriminate | intros rsp; discriminate | reflexivity].
Qed.

(** C7 (amended).  An envelope whose topic is [dab/<deviceId>/<rest>], for a
    device id (a text without a slash) that is not a key of the registry,
    makes the bridge throw the [dabException] with code 400 and text
    [deviceId does not exist]; no response is returned, the [dispatch] of no
    instance is called and nothing is published. *)
Theorem bridge_unknown_device :
  forall (instances : instancesType) (json : jsonElement) (deviceId rest : string),
    subscript_const json "topic" = Ok (JString ("dab/" ++ deviceId ++ "/" ++ rest)) ->
    find_first_of "/" deviceId = None ->
    StdMap.find string_cmp deviceId instances = None ->
    bridge_dispatch instances json
      = (Throw (DabException 400 "deviceId does not exist"), []).
Proof.
  intros instances json deviceId rest Ht Hslash Hfind.
  pose proof (device_topic_not_discovery _ rest Hslash) as E1.
  assert (E2 : starts_with ("dab/" ++ deviceId ++ "/" ++ rest) "dab/" = true)
    by reflexivity.
  assert (E3 : find_first_of "/" (drop 4 ("dab/" ++ deviceId ++ "/" ++ rest))
               = Some (String.length deviceId))
    by (apply (find_first_of_app "/" deviceId rest Hslash)).
  assert (E4 : substring 4 (String.length deviceId) ("dab/" ++ deviceId ++ "/" ++ rest)
               = deviceId)
    by (apply (substring_prefix deviceId (String "/" rest))).
  revert Ht E1 E2 E3 E4. generalize ("dab/" ++ deviceId ++ "/" ++ rest) as topic.
  intros topic Ht E1 E2 E3 E4.
  unfold bridge_dispatch.
  rewrite (subscript_const_has _ _ _ Ht), Ht.
  cbv beta iota delta [bind to_string].
  now rewrite E1, E2, E3, E4, Hfind.
Qed.

Lemma bridge_unknown_device_witness :
  bridge_dispatch [("D1", instance_of D1)] (JObject [("topic", JString "dab/XYZ/version")])
    = (Throw (DabException 400 "deviceId does not exist"), []).
Proof.
  apply (bridge_unknown_device [("D1", instance_of D1)]
           (JObject [("topic", JString "dab/XYZ/version")]) "XYZ" "version");
    reflexivity.
Defined.

Lemma fan_out_all (json : jsonElement) (rest : instancesType) (responses : list jsonElement) :
  Forall2 (fun it r => dispatch (snd it) json = Ok r) rest responses ->
  fan_out json rest
    = (Ok tt, fan_out_events json (combine (StdMap.keys rest) responses)).
Proof.
  induction 1 as [|[name value] r rest responses Hr _ IH]; simpl; [reflexivity|].
  simpl in Hr. now rewrite Hr, IH.
Qed.

(** C9.  Dispatch of the discovery topic.  On an empty registry the bridge
    increments the end iterator: undefined behaviour.  On a registry with a
    first instance and further ones, all of which answer, the bridge calls the
    [dispatch] of each further instance in registry order and publishes its
    response, then returns the response of the first instance; in a
    well-formed registry that order is ascending by device id, above the
    first. *)
Theorem bridge_discovery :
  forall (json : jsonElement),
    subscript_const json "topic" = Ok (JString "dab/discovery") ->
    bridge_dispatch [] json = (Undefined, [])
    /\ forall (name : string) (value : dabInterface) (rest : instancesType)
              (rsp : jsonElement) (responses : list jsonElement),
        dispatch value json = Ok rsp ->
        Forall2 (fun it r => dispatch (snd it) json = Ok r) rest responses ->
        bridge_dispatch ((name, value) :: rest) json
          = (Ok rsp,
             (fan_out_events json (combine (StdMap.keys rest) responses)
                ++ [Dispatched name json])%list)
        /\ (StdMap.wf string_cmp ((name, value) :: rest) ->
            Forall (fun id => string_cmp name id = Lt) (StdMap.keys rest)
            /\ StdMap.ascending string_cmp (StdMap.keys rest)).
Proof.
  intros json Ht.
  assert (Hhead : forall instances,
             bridge_dispatch instances json
             = match instances with
               | [] => (Undefined, [])
               | (name, value) :: rest =>
                   match fan_out json rest with
                   | (Ok _, events) =>
                       (dispatch value json, (events ++ [Dispatched name json])%list)
                   | (Throw e, events) => (Throw e, events)
                   | (Undefined, events) => (Undefined, events)
                   end
               end).
  { intros instances. unfold bridge_dispatch.
    now rewrite (subscript_const_has _ _ _ Ht), Ht. }
  split; [apply Hhead|].
  intros name value rest rsp responses Hfirst Hrest. split.
  - rewrite Hhead, (fan_out_all _ _ _ Hrest). now rewrite Hfirst.
  - unfold StdMap.wf. simpl. intros Hwf. inversion Hwf; subst. now split.
Qed.

Lemma bridge_discovery_witness :
  bridge_dispatch [("D1", instance_of D1); ("D2", instance_of D2)] discovery_request
    = (Ok (discovery_response "10.0.0.1" "D1"),
       [Dispatched "D2" discovery_request;
        Published (discovery_response "10.0.0.2" "D2");
        Dispatched "D1" discovery_request]).
Proof.
  apply (proj2 (bridge_discovery discovery_request eq_refl)
           "D1" (instance_of D1) [("D2", instance_of D2)]
           (discovery_response "10.0.0.1" "D1") [discovery_response "10.0.0.2" "D2"]).
  - reflexivity.
  - constructor; [reflexivity | constructor].
Defined.

End Bridge.


(** ** The telemetry scheduler *)
Section Telemetry.
Import Json DabClient Spec.

(** *** Ids under the three operations *)

Lemma update_interval_none (id : string) (newInterval : Z) (s : scheduler) :
  update_interval id newInterval s = None <-> ~ In id (ids s).
Proof.
  induction s as [|[t e] s IH]; simpl.
  - split; [intros _ [] | reflexivity].
  - destruct (String.eqb_spec (entry_id e) id) as [E|N].
    + split; [discriminate | intros H; exfalso; apply H; now left].
    + destruct (update_interval id newInterval s); simpl.
      * split; [discriminate|]. intros H. exfalso.
        destruct IH as [_ IH]. assert (Some s0 = None); [|discriminate].
        apply IH. intros Hin. apply H. now right.
      * split; [|reflexivity]. intros _ [H|H]; [contradiction|].
        now apply (proj1 IH).
Qed.

Lemma update_interval_ids (id : string) (newInterval : Z) (s s' : scheduler) :
  update_interval id newInterval s = Some s' -> ids s' = ids s.
Proof.
  revert s'. induction s as [|[t e] s IH]; simpl; intros s' H; [discriminate|].
  destruct (entry_id e =? id)%string.
  - inversion H; subst. reflexivity.
  - destruct (update_interval id newInterval s) as [s0|]; simpl in H; [|discriminate].
    inversion H; subst. simpl. now rewrite (IH s0).
Qed.

Lemma insert_ids_in (now : Z) (e : entry) (s : scheduler) (x : string) :
  In x (ids (StdMap.insert time_cmp now e s)) -> x = entry_id e \/ In x (ids s).
Proof.
  induction s as [|[t e'] s IH]; simpl.
  - intros [H|[]]. now left.
  - destruct (time_cmp now t); simpl.
    + tauto.
    + intros [H|H]; [now left | tauto].
    + intros [H|H]; [tauto|]. destruct (IH H); tauto.
Qed.

Lemma insert_one_per_subject (now : Z) (e : entry) (s : scheduler) :
  one_per_subject s -> ~ In (entry_id e) (ids s) ->
  one_per_subject (StdMap.insert time_cmp now e s).
Proof.
  unfold one_per_subject.
  induction s as [|[t e'] s IH]; simpl; intros Hnd Hnot.
  - constructor; [intros [] | constructor].
  - inversion Hnd as [|? ? Hhead Htail]; subst.
    destruct (time_cmp now t); simpl.
    + exact Hnd.
    + constructor; [exact Hnot | exact Hnd].
    + constructor.
      * intros Hin. destruct (insert_ids_in _ _ _ _ Hin) as [E|Hin'].
        -- apply Hnot. now left.
        -- contradiction.
      * apply IH; [exact Htail|]. intros Hin. apply Hnot. now right.
Qed.

Lemma deleteTelemetry_ids_in (id : string) (s : scheduler) (x : string) :
  In x (ids (deleteTelemetry id s)) -> In x (ids s).
Proof.
  induction s as [|[t e] s IH]; simpl; [tauto|].
  destruct (entry_id e =? id)%string; simpl; tauto.
Qed.

(** I2 is kept by [addTelemetry]. *)
Lemma addTelemetry_one_per_subject (now interval : Z) (id topic : string)
  (cb : producer) (s : scheduler) :
  one_per_subject s -> one_per_subject (addTelemetry now interval id topic cb s).
Proof.
  intros H. unfold addTelemetry.
  destruct (update_interval id interval s) as [s'|] eqn:E.
  - unfold one_per_subject in *. now rewrite (update_interval_ids _ _ _ _ E).
  - apply insert_one_per_subject; [exact H|]. now apply (update_interval_none id interval).
Qed.

(** I2 is kept by [deleteTelemetry]. *)
Lemma deleteTelemetry_one_per_subject (id : string) (s : scheduler) :
  one_per_subject s -> one_per_subject (deleteTelemetry id s).
Proof.
  unfold one_per_subject.
  induction s as [|[t e] s IH]; simpl; intros H; [constructor|].
  inversion H as [|? ? Hhead Htail]; subst.
  destruct (entry_id e =? id)%string; [exact Htail|].
  simpl. constructor; [|now apply IH].
  intros Hin. apply Hhead. now apply (deleteTelemetry_ids_in id).
Qed.

(** Every sequence of [addTelemetry] and [deleteTelemetry] calls keeps at
    most one entry per subject id. *)
Lemma calls_one_per_subject (calls : list telemetry_call) (s : scheduler) :
  one_per_subject s -> one_per_subject (fold_left run_call calls s).
Proof.
  revert s. induction calls as [|c calls IH]; simpl; intros s H; [exact H|].
  apply IH. destruct c; simpl.
  - now apply addTelemetry_one_per_subject.
  - now apply deleteTelemetry_one_per_subject.
Qed.

(** *** The second [addTelemetry] for a subject *)

Lemma update_interval_entries (id : string) (newInterval : Z) (s : scheduler)
  (t : Z) (e : entry) :
  one_per_subject s ->
  entries_of id s = [(t, e)] ->
  exists s',
    update_interval id newInterval s = Some s'
    /\ entries_of id s' = [(t, (entry_id e, entry_topic e, setInterval newInterval (entry_executor e)))].
Proof.
  unfold one_per_subject, entries_of.
  induction s as [|[t0 e0] s IH]; simpl; intros Hnd H; [discriminate|].
  inversion Hnd as [|? ? Hhead Htail]; subst.
  destruct (String.eqb_spec (entry_id e0) id) as [E|N].
  - inversion H as [[H1 H2 H3]]. subst t0 e0. eexists. split; [reflexivity|].
    simpl. rewrite E, String.eqb_refl. f_equal.
    rewrite H3. symmetry. rewrite <- H3.
    assert (Hno : ~ In id (ids s)) by (rewrite <- E; exact Hhead).
    clear - Hno. induction s as [|[t1 e1] s IH]; simpl; [reflexivity|].
    destruct (String.eqb_spec (entry_id e1) id) as [E1|N1].
    + exfalso. apply Hno. now left.
    + apply IH. intros Hin. apply Hno. now right.
  - destruct (IH Htail H) as [s' [Hs' He']]. rewrite Hs'. simpl.
    eexists. split; [reflexivity|]. simpl.
    destruct (String.eqb_spec (entry_id e0) id) as [E|_]; [contradiction | exact He'].
Qed.

Lemma insert_entries (now : Z) (e : entry) (s : scheduler) :
  StdMap.find time_cmp now s = None ->
  ~ In (entry_id e) (ids s) ->
  entries_of (entry_id e) (StdMap.insert time_cmp now e s) = [(now, e)].
Proof.
  unfold entries_of.
  assert (Hnone : forall s0, ~ In (entry_id e) (ids s0) ->
            filter (fun it => (entry_id (snd it) =? entry_id e)%string) s0 = []).
  { induction s0 as [|[t1 e1] s0 IH]; simpl; intros Hno; [reflexivity|].
    destruct (String.eqb_spec (entry_id e1) (entry_id e)) as [E1|N1].
    - exfalso. apply Hno. now left.
    - apply IH. intros Hin. apply Hno. now right. }
  induction s as [|[t0 e0] s IH]; simpl; intros Hfind Hno.
  - now rewrite String.eqb_refl.
  - destruct (time_cmp now t0) eqn:C; [discriminate| |].
    + simpl. rewrite String.eqb_refl. f_equal.
      apply (Hnone ((t0, e0) :: s)). exact Hno.
    + simpl. destruct (String.eqb_spec (entry_id e0) (entry_id e)) as [E|_].
      * exfalso. apply Hno. now left.
      * apply IH; [exact Hfind|]. intros Hin. apply Hno. now right.
Qed.

(** When the first call schedules the subject (no entry of the queue is
    keyed at the clock reading of the call) a second call leaves exactly one
    entry for the subject, scheduled at the time of the first call and with
    the interval of the second. *)
Lemma addTelemetry_twice_fresh (now1 now2 A B : Z) (X topic1 topic2 : string)
  (cb1 cb2 : producer) (s : scheduler) :
  one_per_subject s ->
  ~ In X (ids s) ->
  StdMap.find time_cmp now1 s = None ->
  entries_of X (addTelemetry now2 B X topic2 cb2 (addTelemetry now1 A X topic1 cb1 s))
    = [(now1, (X, topic1, {| interval := B; callback := cb1 |}))].
Proof.
  intros Hone Hno Hfind.
  assert (H1 : addTelemetry now1 A X topic1 cb1 s
               = StdMap.insert time_cmp now1 (X, topic1, {| interval := A; callback := cb1 |}) s).
  { unfold addTelemetry. now rewrite (proj2 (update_interval_none X A s) Hno). }
  assert (He : entries_of X (addTelemetry now1 A X topic1 cb1 s)
               = [(now1, (X, topic1, {| interval := A; callback := cb1 |}))]).
  { rewrite H1.
    apply (insert_entries now1 (X, topic1, {| interval := A; callback := cb1 |}) s Hfind Hno). }
  destruct (update_interval_entries X B _ _ _
              (addTelemetry_one_per_subject now1 A X topic1 cb1 s Hone) He)
    as [s' [Hs' He']].
  unfold addTelemetry at 1. rewrite Hs'. exact He'.
Qed.

(** When the subject already has its entry, two calls leave that one entry
    at its key, with the interval of the second call. *)
Lemma addTelemetry_twice_present (now1 now2 A B : Z) (X topic1 topic2 : string)
  (cb1 cb2 : producer) (s : scheduler) (t : Z) (e : entry) :
  one_per_subject s ->
  entries_of X s = [(t, e)] ->
  entries_of X (addTelemetry now2 B X topic2 cb2 (addTelemetry now1 A X topic1 cb1 s))
    = [(t, (entry_id e, entry_topic e, setInterval B (entry_executor e)))].
Proof.
  intros Hone He.
  destruct (update_interval_entries X A s t e Hone He) as [s1 [Hs1 He1]].
  assert (H1 : addTelemetry now1 A X topic1 cb1 s = s1)
    by (unfold addTelemetry; now rewrite Hs1).
  assert (Hone1 : one_per_subject s1)
    by (rewrite <- H1; now apply addTelemetry_one_per_subject).
  destruct (update_interval_entries X B s1 _ _ Hone1 He1) as [s2 [Hs2 He2]].
  rewrite H1. unfold addTelemetry. rewrite Hs2. exact He2.
Qed.

(** C4 (the code at the failing input).  The queue holds the device entry at
    time 100 and the clock still reads 100 at both calls for subject [X]:
    [std::map::insert] finds the key taken and drops the new entry, twice,
    so the queue is left without an entry for [X], where the specification
    has exactly one. *)
Theorem addTelemetry_same_instant :
  let s := [(100, ("", "dab/D1/device-telemetry/metrics",
                   {| interval := 50; callback := quiet |}))] in
  let s1 := addTelemetry 100 10 "X" "dab/D1/app-telemetry/metrics/X" quiet s in
  let s2 := addTelemetry 100 20 "X" "dab/D1/app-telemetry/metrics/X" quiet s1 in
  one_per_subject s /\ s1 = s /\ s2 = s /\ entries_of "X" s2 = [].
Proof.
  repeat split. unfold one_per_subject. simpl.
  constructor; [intros [] | constructor].
Qed.

(** *** The worker *)

Lemma tick_message_built (topic : string) (rsp : jsonElement) :
  jsonElement_list
    [jsonElement_list [JString "topic"; JString topic];
     jsonElement_list [JString "payload"; rsp]]
  = tick_message topic rsp.
Proof. reflexivity. Qed.

Lemma insert_find_new {V : Type} (k : Z) (v : V) (m : list (Z * V)) :
  StdMap.find time_cmp k m = None ->
  StdMap.find time_cmp k (StdMap.insert time_cmp k v m) = Some v.
Proof.
  unfold time_cmp.
  induction m as [|[k' v'] m IH]; simpl; intros H.
  - now rewrite Z.compare_refl.
  - destruct (k ?= k') eqn:C; [discriminate| |]; simpl.
    + now rewrite Z.compare_refl.
    + rewrite C. now apply IH.
Qed.

(** C5, as the specification states it, fails.  A head entry whose time
    equals the clock reading is not fired: the test of the worker is a strict
    comparison. *)
Lemma tick_not_fired_at_its_instant :
  let s := [(100, ("", "dab/D1/device-telemetry/metrics",
                   {| interval := 50; callback := quiet |}))] in
  100 <= 100 /\ telemetryTask 100 100 s = (Ok s, []).
Proof. split; [lia | reflexivity]. Qed.

(** A count that is in range is left as it is. *)
Lemma wrap_int64_id (z : Z) : in_int64 z -> wrap_int64 z = z.
Proof.
  unfold in_int64, wrap_int64. intros H.
  rewrite Z.mod_small; lia.
Qed.

Lemma wrap_int64_range (z : Z) : in_int64 (wrap_int64 z).
Proof.
  unfold in_int64, wrap_int64.
  pose proof (Z.mod_pos_bound (z + 2 ^ 63) (2 ^ 64) ltac:(lia)). lia.
Qed.

(** Where the interval, counted in nanoseconds, and its sum with the clock
    reading are in range, the next scheduled time is that sum. *)
Lemma getNextScheduledTime_exact (ex : telemetry) (now : Z) :
  in_int64 (interval ex * 1000000) ->
  in_int64 (now + interval ex * 1000000) ->
  getNextScheduledTime ex now = now + interval ex * 1000000.
Proof.
  intros Hi Hs. unfold getNextScheduledTime.
  rewrite (wrap_int64_id _ Hi). exact (wrap_int64_id _ Hs).
Qed.

Lemma telemetryTask_fires (now now' key : Z) (e : entry) (rest : scheduler)
  (rsp : jsonElement) :
  key < now ->
  callback (entry_executor e) tt = Ok rsp ->
  telemetryTask now now' ((key, e) :: rest)
    = (Ok (StdMap.insert time_cmp (getNextScheduledTime (entry_executor e) now') e rest),
       [Produced (entry_id e); Published (tick_message (entry_topic e) rsp)]).
Proof.
  intros Hlt Hrsp. unfold telemetryTask.
  destruct (Z.ltb_spec key now) as [_|Hge]; [|lia].
  rewrite Hrsp, tick_message_built. cbn [StdMap.erase].
  unfold time_cmp at 2. now rewrite Z.compare_refl.
Qed.

(** C5 (amended).  On a pass over a queue whose head has a time strictly
    before the clock reading, the worker calls the producer of the head and,
    when it returns, publishes the object with the topic of the entry and the
    result as payload, takes the entry out and inserts it under the later
    clock reading plus its interval (the milliseconds of the interval counted
    in the nanoseconds of the clock, where this and the sum are in the range
    of the 64-bit count), where it is found unless another entry is already
    keyed there; on a pass whose head is due at the clock reading or later,
    and on an empty queue, nothing is called or published and the queue stays
    as it is. *)
Theorem telemetryTask_pass :
  forall (now now' key : Z) (e : entry) (rest : scheduler),
    (key < now ->
       forall rsp : jsonElement,
         callback (entry_executor e) tt = Ok rsp ->
         let key' := now' + interval (entry_executor e) * 1000000 in
         in_int64 (interval (entry_executor e) * 1000000) ->
         in_int64 key' ->
         telemetryTask now now' ((key, e) :: rest)
           = (Ok (StdMap.insert time_cmp key' e rest),
              [Produced (entry_id e); Published (tick_message (entry_topic e) rsp)])
         /\ (StdMap.find time_cmp key' rest = None ->
             StdMap.find time_cmp key' (StdMap.insert time_cmp key' e rest) = Some e))
    /\ (now <= key ->
        telemetryTask now now' ((key, e) :: rest) = (Ok ((key, e) :: rest), []))
    /\ telemetryTask now now' [] = (Ok [], []).
Proof.
  intros now now' key e rest. split; [|split].
  - intros Hlt rsp Hrsp key' Hi Hs. split.
    + rewrite (telemetryTask_fires now now' key e rest rsp Hlt Hrsp).
      now rewrite (getNextScheduledTime_exact _ _ Hi Hs).
    + now apply insert_find_new.
  - intros Hle. unfold telemetryTask.
    destruct (Z.ltb_spec key now) as [Hlt|_]; [lia | reflexivity].
  - reflexivity.
Qed.

Lemma telemetryTask_pass_witness :
  telemetryTask 101 102 [(100, ("", "dab/D1/device-telemetry/metrics",
                                {| interval := 50; callback := quiet |}))]
    = (Ok [(50000102, ("", "dab/D1/device-telemetry/metrics",
                       {| interval := 50; callback := quiet |}))],
       [Produced ""; Published (tick_message "dab/D1/device-telemetry/metrics" JNull)]).
Proof.
  apply (proj1 (telemetryTask_pass 101 102 100
                  ("", "dab/D1/device-telemetry/metrics",
                   {| interval := 50; callback := quiet |}) [])).
  - lia.
  - reflexivity.
  - unfold in_int64. simpl. lia.
  - unfold in_int64. simpl. lia.
Defined.

End Telemetry.


(** ** The round trip through the serializer and the parser *)
Section RoundTripParts.
Import Json Spec.

(** Induction over a value and the values inside it. *)
Lemma jsonElement_induction (P : jsonElement -> Prop) :
  P JNull ->
  (forall z, P (JInt z)) ->
  (forall d, P (JDouble d)) ->
  (forall s, P (JString s)) ->
  (forall obj, Forall (fun member => P (snd member)) obj -> P (JObject obj)) ->
  (forall arr, Forall P arr -> P (JArray arr)) ->
  (forall b, P (JBool b)) ->
  P JArrayTag ->
  forall v, P v.
Proof.
  intros HN HI HD HS HO HA HB HT.
  fix IH 1. intros [ | z | d | s | obj | arr | b | ].
  - exact HN.
  - apply HI.
  - apply HD.
  - apply HS.
  - apply HO. revert obj. fix IHobj 1. intros [|[name x] obj].
    + constructor.
    + constructor; [apply IH | apply IHobj].
  - apply HA. revert arr. fix IHarr 1. intros [|x arr].
    + constructor.
    + constructor; [apply IH | apply IHarr].
  - apply HB.
  - exact HT.
Qed.

(** *** The loops of the serializer *)

Lemma serialize_object (q : bool) (obj : objectType) :
  serialize q (JObject obj) = String "{" (serialize_members q true obj).
Proof.
  simpl. f_equal.
  match goal with
  | |- ?members true obj = _ =>
      assert (H : forall first l, members first l = serialize_members q first l)
  end.
  { intros first l. revert first.
    induction l as [|[name x] l IH]; intros first; simpl; [reflexivity | now rewrite IH]. }
  apply H.
Qed.

Lemma serialize_array (q : bool) (arr : arrayType) :
  serialize q (JArray arr) = String "[" (serialize_elements q true arr).
Proof.
  simpl. f_equal.
  match goal with
  | |- ?elements true arr = _ =>
      assert (H : forall first l, elements first l = serialize_elements q first l)
  end.
  { intros first l. revert first.
    induction l as [|x l IH]; intros first; simpl; [reflexivity | now rewrite IH]. }
  apply H.
Qed.

(** *** Decimal digits *)

(** What follows from a character being a decimal digit. *)
Lemma isdigit_facts (c : ascii) :
  isdigit c = true ->
  isNum c = true /\ isNumB c = true /\ isSpace c = false /\ isspace c = false
  /\ (c =? "-")%char = false /\ (c =? "+")%char = false
  /\ (c =? ".")%char = false /\ (c =? "e")%char = false
  /\ (c =? "{")%char = false /\ (c =? "[")%char = false /\ (c =? dquote)%char = false
  /\ (c =? "]")%char = false /\ (c =? "}")%char = false /\ (c =? ",")%char = false.
Proof.
  each_char c; vm_compute; intros H; try discriminate H; repeat split.
Qed.

Lemma string_of_uint_head (d : uint) :
  d <> Nil ->
  exists c s, NilEmpty.string_of_uint d = String c s /\ isdigit c = true.
Proof.
  destruct d; intros H; try contradiction; simpl; eexists; eexists; split;
    reflexivity.
Qed.

Lemma lexNumber_stop (rest : string) :
  isNum (peek rest) = false -> lexNumber rest = ("", false, rest).
Proof. destruct rest as [|c rest]; simpl; [reflexivity | now intros ->]. Qed.

Lemma lexNumber_uint (d : uint) (rest : string) :
  isNum (peek rest) = false ->
  lexNumber (NilEmpty.string_of_uint d ++ rest) = (NilEmpty.string_of_uint d, false, rest).
Proof.
  intros H. induction d; simpl; try (rewrite IHd; reflexivity).
  now apply lexNumber_stop.
Qed.

Lemma digitsValue_acc (d : uint) (acc : positive) :
  digitsValue (NilEmpty.string_of_uint d) (Z.pos acc) = Z.pos (Pos.of_uint_acc d acc).
Proof.
  revert acc.
  induction d; intros acc; cbn [NilEmpty.string_of_uint Pos.of_uint_acc];
    try reflexivity;
    rewrite <- IHd;
    match goal with
    | |- digitsValue (String ?c ?s) ?a = _ =>
        change (digitsValue (String c s) a) with (digitsValue s (10 * a + (char_int c - 48)));
        let k := eval vm_compute in (char_int c - 48) in
        change (char_int c - 48) with k
    end;
    f_equal; lia.
Qed.

Lemma digitsValue_uint (d : uint) :
  digitsValue (NilEmpty.string_of_uint d) 0 = Z.of_N (Pos.of_uint d).
Proof.
  induction d; cbn [NilEmpty.string_of_uint Pos.of_uint]; try reflexivity;
    try exact IHd;
    match goal with
    | |- digitsValue (String ?c ?s) 0 = Z.of_N (N.pos (Pos.of_uint_acc _ ?p)) =>
        change (digitsValue (String c s) 0) with (digitsValue s (Z.pos p));
        apply digitsValue_acc
    end.
Qed.

Lemma signed_digits_pos (p : positive) :
  signed_digits (NilEmpty.string_of_uint (Pos.to_uint p)) = Some (false, Z.pos p).
Proof.
  destruct (string_of_uint_head _ (DecimalPos.Unsigned.to_uint_nonnil p)) as [c [s [E Hc]]].
  destruct (isdigit_facts c Hc) as (_ & _ & _ & Hsp & Hminus & Hplus & _).
  unfold signed_digits. rewrite E. cbn [skip_isspace]. rewrite Hsp.
  cbn [peek]. rewrite Hminus, Hplus. cbn [peek]. rewrite Hc. rewrite <- E.
  now rewrite digitsValue_uint, DecimalPos.Unsigned.of_to.
Qed.

Lemma signed_digits_neg (p : positive) :
  signed_digits (String "-" (NilEmpty.string_of_uint (Pos.to_uint p))) = Some (true, Z.pos p).
Proof.
  destruct (string_of_uint_head _ (DecimalPos.Unsigned.to_uint_nonnil p)) as [c [s [E Hc]]].
  unfold signed_digits.
  change (skip_isspace (String "-" (NilEmpty.string_of_uint (Pos.to_uint p))))
    with (String "-" (NilEmpty.string_of_uint (Pos.to_uint p))).
  cbn [peek advance]. change ("-" =? "-")%char with true. cbv iota.
  rewrite E. cbn [peek]. rewrite Hc. rewrite <- E.
  now rewrite digitsValue_uint, DecimalPos.Unsigned.of_to.
Qed.

(** [std::stoll] reads back what [std::to_string] wrote. *)
Lemma stoll_to_string (z : Z) :
  int64_range z = true -> stoll (to_string_int64 z) = Ok z.
Proof.
  unfold int64_range, to_string_int64, stoll. intros H.
  apply andb_prop in H. destruct H as [H1 H2].
  apply Z.leb_le in H1. apply Z.leb_le in H2.
  destruct z as [|p|p]; cbn [Z.to_int NilEmpty.string_of_int].
  - reflexivity.
  - rewrite signed_digits_pos.
    destruct (Z.ltb_spec (Z.pos p) (- 2 ^ 63)); [lia|].
    destruct (Z.ltb_spec (2 ^ 63 - 1) (Z.pos p)); [lia | reflexivity].
  - rewrite signed_digits_neg.
    destruct (Z.ltb_spec (- Z.pos p) (- 2 ^ 63)); [lia|].
    destruct (Z.ltb_spec (2 ^ 63 - 1) (- Z.pos p)); [lia | reflexivity].
Qed.

(** The number lexer takes the digits [std::to_string] wrote, sets no float
    flag, and stops where they end. *)
Lemma lexNumber_to_string (z : Z) (rest : string) :
  isNum (peek rest) = false ->
  lexNumber (to_string_int64 z ++ rest) = (to_string_int64 z, false, rest).
Proof.
  intros H. unfold to_string_int64.
  destruct z as [|p|p]; cbn [Z.to_int NilEmpty.string_of_int].
  - simpl. now rewrite (lexNumber_stop _ H).
  - now apply lexNumber_uint.
  - cbn [append lexNumber]. change (isNum "-") with true. cbv iota.
    now rewrite (lexNumber_uint _ _ H).
Qed.

(** The first character of a written integer: a digit or the minus sign. *)
Lemma to_string_int64_head (z : Z) :
  exists c s, to_string_int64 z = String c s
              /\ (isdigit c = true \/ c = "-"%char).
Proof.
  unfold to_string_int64. destruct z as [|p|p]; cbn [Z.to_int NilEmpty.string_of_int].
  - exists "0"%char, "". split; [reflexivity | now left].
  - destruct (string_of_uint_head _ (DecimalPos.Unsigned.to_uint_nonnil p)) as [c [s [E Hc]]].
    exists c, s. split; [exact E | now left].
  - eexists; eexists; split; [reflexivity | now right].
Qed.

(** *** String values and member names *)

(** One character through the serializer and back through the parser. *)
Lemma stringBody_char (c : ascii) (tail : string) :
  stringBody (serialize_char c ++ tail)
    = (returned_char c ++ fst (stringBody tail), snd (stringBody tail)).
Proof.
  destruct (stringBody tail) as [v r] eqn:E.
  each_char c; cbn; rewrite E; reflexivity.
Qed.

Lemma stringBody_serialized (v rest : string) :
  stringBody (serialize_string v ++ String dquote rest)
    = (returned_string v, String dquote rest).
Proof.
  induction v as [|c v IH]; simpl serialize_string.
  - reflexivity.
  - rewrite append_assoc, stringBody_char, IH. reflexivity.
Qed.

Lemma quotedName_name (name rest : string) :
  name_ok name = true ->
  quotedName (name ++ String dquote rest) = (name, String dquote rest).
Proof.
  induction name as [|c name IH]; simpl; intros H.
  - reflexivity.
  - apply andb_prop in H. destruct H as [Hc Hn].
    apply negb_true_iff in Hc. rewrite Hc. now rewrite (IH Hn).
Qed.

(** A printable string comes back as it is. *)
Lemma returned_char_printable (b : ascii) :
  printable b = true -> returned_char b = String b "".
Proof. each_char b; vm_compute; intros H; try discriminate H; reflexivity. Qed.

Lemma returned_string_printable (v : string) :
  printable_string v = true -> returned_string v = v.
Proof.
  induction v as [|b v IH]; simpl; intros H; [reflexivity|].
  apply andb_prop in H. destruct H as [Hb Hv].
  now rewrite (returned_char_printable b Hb), (IH Hv).
Qed.

(** *** Members arriving in key order *)

Lemma assign_last (name : string) (x : jsonElement) (obj : objectType) :
  Forall (fun member => string_cmp (fst member) name = Lt) obj ->
  StdMap.assign string_cmp name x obj = (obj ++ [(name, x)])%list.
Proof.
  induction 1 as [|[k y] obj Hk _ IH]; simpl; [reflexivity|].
  simpl in Hk. unfold string_cmp in *.
  rewrite String.compare_antisym, Hk. simpl. now rewrite IH.
Qed.

End RoundTripParts.


Section RoundTrip.
Import Json Spec.

(** *** The first character of a serialized value *)

Lemma serialize_head (v : jsonElement) :
  wire_ok v = true ->
  exists c s, serialize true v = String c s
              /\ isSpace c = false /\ (c =? "]")%char = false
              /\ (c =? "}")%char = false /\ (c =? ",")%char = false.
Proof.
  destruct v as [ | z | d | s | obj | arr | b | ]; intros H; try discriminate H.
  - exists "n"%char, "ull". repeat split.
  - destruct (to_string_int64_head z) as [c [s [E [Hc|Hc]]]]; exists c, s.
    + destruct (isdigit_facts c Hc) as (_ & _ & H1 & _ & _ & _ & _ & _ & _ & _ & _ & H2 & H3 & H4).
      repeat split; assumption.
    + subst c. repeat split. exact E.
  - eexists; eexists. simpl. repeat split.
  - rewrite serialize_object. eexists; eexists. repeat split.
  - rewrite serialize_array. eexists; eexists. repeat split.
  - destruct b; eexists; eexists; simpl; repeat split.
Qed.

Lemma serialize_elements_head (l : arrayType) (rest : string) :
  isNum (peek (serialize_elements true false l ++ rest)) = false.
Proof. destruct l; reflexivity. Qed.

Lemma serialize_members_head (l : objectType) (rest : string) :
  isNum (peek (serialize_members true false l ++ rest)) = false.
Proof. destruct l as [|[name x] l]; reflexivity. Qed.

Lemma serialize_elements_length (first : bool) (x : jsonElement) (l : arrayType) :
  String.length (serialize_elements true first (x :: l))
    = ((if first then 0 else 1) + String.length (serialize true x)
       + String.length (serialize_elements true false l))%nat.
Proof.
  cbn [serialize_elements]. rewrite !length_append.
  destruct first; cbn [String.length]; lia.
Qed.

Lemma serialize_members_length (first : bool) (name : string) (x : jsonElement)
  (l : objectType) :
  String.length (serialize_members true first ((name, x) :: l))
    = ((if first then 0 else 1) + (String.length name + 3)
       + String.length (serialize true x)
       + String.length (serialize_members true false l))%nat.
Proof.
  cbn [serialize_members serialize_name]. rewrite !length_append.
  cbn [String.length]. rewrite !length_append.
  destruct first; cbn [String.length]; lia.
Qed.

(** *** The array loop *)

Lemma parse_array_serialized (l : arrayType) :
  Forall (fun x =>
            wire_ok x = true ->
            forall fuel rest,
              (2 * String.length (serialize true x) + 1 <= fuel)%nat ->
              isNum (peek rest) = false ->
              jsonElement_parse fuel (serialize true x ++ rest)
                = Some (Ok (returned x, rest))) l ->
  forallb wire_ok l = true ->
  forall fuel first acc rest,
    (2 * String.length (serialize_elements true first l) + 2 <= fuel)%nat ->
    parse_array fuel first acc (serialize_elements true first l ++ rest)
      = Some (Ok (JArray (acc ++ map returned l), rest)).
Proof.
  induction 1 as [|x l Hx _ IH]; intros Hok fuel first acc rest Hfuel.
  - destruct fuel as [|f]; [simpl in Hfuel; lia|].
    simpl. now rewrite app_nil_r.
  - simpl in Hok. apply andb_prop in Hok. destruct Hok as [Hokx Hokl].
    rewrite serialize_elements_length in Hfuel.
    destruct (serialize_head x Hokx) as [c [s [E (Hsp & Hket & _ & _)]]].
    assert (Hlen : (1 <= String.length (serialize true x))%nat)
      by (rewrite E; simpl; lia).
    destruct fuel as [|f]; [lia|].
    assert (Hstep :
              parse_array (S f) first acc (serialize_elements true first (x :: l) ++ rest)
              = match jsonElement_parse f
                        (serialize true x ++ serialize_elements true false l ++ rest) with
                | Some (Ok (y, str)) => parse_array f false (acc ++ [y])%list str
                | other => other
                end).
    { cbn [serialize_elements]. rewrite !append_assoc.
      destruct first.
      - cbn [append]. rewrite E. cbn [append parse_array skipSpace]. rewrite Hsp.
        cbn [peek]. rewrite Hket. reflexivity.
      - cbn [append parse_array skipSpace].
        known (isSpace ",") false. cbn [peek].
        change ("," =? "]")%char with false. cbv iota.
        unfold array_separator. cbn [peek advance].
        known (negb ("," =? ",")%char) false.
        rewrite E. cbn [append skipSpace]. rewrite Hsp. reflexivity. }
    rewrite Hstep.
    rewrite (Hx Hokx f _); [| lia | apply serialize_elements_head].
    rewrite (IH Hokl f false (acc ++ [returned x])%list rest); [| lia].
    simpl. now rewrite <- app_assoc.
Qed.


(** *** The object loop *)

Lemma parse_object_serialized (l : objectType) :
  Forall (fun member =>
            wire_ok (snd member) = true ->
            forall fuel rest,
              (2 * String.length (serialize true (snd member)) + 1 <= fuel)%nat ->
              isNum (peek rest) = false ->
              jsonElement_parse fuel (serialize true (snd member) ++ rest)
                = Some (Ok (returned (snd member), rest))) l ->
  forallb (fun member => match member with (name, x) => name_ok name && wire_ok x end) l
    = true ->
  ascendingb (map fst l) = true ->
  forall fuel first acc rest,
    (2 * String.length (serialize_members true first l) + 2 <= fuel)%nat ->
    Forall (fun member => Forall (fun k => string_cmp (fst member) k = Lt) (map fst l)) acc ->
    parse_object fuel first acc (serialize_members true first l ++ rest)
      = Some (Ok (JObject
                    (acc ++ map (fun member =>
                                   match member with (name, x) => (name, returned x) end) l),
                  rest)).
Proof.
  induction 1 as [|[name x] l Hx _ IH]; intros Hok Hasc fuel first acc rest Hfuel Hacc.
  - destruct fuel as [|f]; [simpl in Hfuel; lia|].
    simpl. now rewrite app_nil_r.
  - simpl in Hx.
    cbn [forallb] in Hok. apply andb_prop in Hok. destruct Hok as [Hokx Hokl].
    apply andb_prop in Hokx. destruct Hokx as [Hname Hokx].
    cbn [map fst ascendingb] in Hasc. apply andb_prop in Hasc. destruct Hasc as [Hlt Hasc].
    rewrite serialize_members_length in Hfuel.
    destruct (serialize_head x Hokx) as [c [s [E (Hsp & _ & _ & _)]]].
    assert (Hlen : (1 <= String.length (serialize true x))%nat)
      by (rewrite E; simpl; lia).
    destruct fuel as [|f]; [lia|].
    assert (Hstep :
              parse_object (S f) first acc (serialize_members true first ((name, x) :: l) ++ rest)
              = match jsonElement_parse f
                        (serialize true x ++ serialize_members true false l ++ rest) with
                | Some (Ok (y, str)) =>
                    parse_object f false (StdMap.assign string_cmp name y acc) str
                | other => other
                end).
    { cbn [serialize_members serialize_name]. rewrite !append_assoc.
      cbn [append]. rewrite !append_assoc. cbn [append].
      assert (Hname' :
                parse_name (String dquote
                              (name ++ String dquote
                                 (String ":" (serialize true x
                                                ++ serialize_members true false l ++ rest))))
                = Ok (name, String ":" (serialize true x
                                           ++ serialize_members true false l ++ rest))).
      { unfold parse_name. cbn [peek advance].
        change (dquote =? dquote)%char with true. cbv iota.
        rewrite (quotedName_name _ _ Hname). reflexivity. }
      destruct first.
      - cbn [append parse_object skipSpace].
        known (isSpace dquote) false. cbn [peek].
        change (dquote =? "}")%char with false. cbv iota.
        unfold object_separator. rewrite Hname'.
        cbn [skipSpace]. known (isSpace ":") false.
        cbn [peek advance]. known (negb (":" =? ":")%char) false.
        rewrite E. cbn [append skipSpace]. rewrite Hsp. reflexivity.
      - cbn [append parse_object skipSpace].
        known (isSpace ",") false. cbn [peek].
        change ("," =? "}")%char with false. cbv iota.
        unfold object_separator. cbn [peek advance].
        known (negb ("," =? ",")%char) false.
        cbn [skipSpace]. known (isSpace dquote) false.
        cbn [peek]. change (dquote =? "}")%char with false. cbv iota.
        rewrite Hname'.
        cbn [skipSpace]. known (isSpace ":") false.
        cbn [peek advance]. known (negb (":" =? ":")%char) false.
        rewrite E. cbn [append skipSpace]. rewrite Hsp. reflexivity. }
    rewrite Hstep.
    rewrite (Hx Hokx f _); [| lia | apply serialize_members_head].
    rewrite assign_last.
    + rewrite (IH Hokl Hasc f false (acc ++ [(name, returned x)])%list rest); [| lia |].
      * simpl. now rewrite <- app_assoc.
      * apply Forall_app. split.
        -- eapply Forall_impl; [|exact Hacc]. intros member Hm. cbn [map fst] in Hm.
           now inversion Hm.
        -- constructor; [|constructor]. cbn [fst].
           apply Forall_forall. intros k Hk.
           rewrite forallb_forall in Hlt. specialize (Hlt k Hk).
           now destruct (string_cmp name k).
    + eapply Forall_impl; [|exact Hacc]. intros member Hm. cbn [map fst] in Hm.
      now inversion Hm.
Qed.

(** *** One value *)

Lemma prefix_nil (s : string) : prefix "" s = true.
Proof. now destruct s. Qed.

Lemma parse_serialized (v : jsonElement) :
  wire_ok v = true ->
  forall fuel rest,
    (2 * String.length (serialize true v) + 1 <= fuel)%nat ->
    isNum (peek rest) = false ->
    jsonElement_parse fuel (serialize true v ++ rest) = Some (Ok (returned v, rest)).
Proof.
  induction v as [ | z | d | s | obj IH | arr IH | b | ] using jsonElement_induction;
    intros Hok fuel rest Hfuel Hrest; try discriminate Hok.
  - destruct fuel as [|f]; [lia|]. cbn. now rewrite prefix_nil.
  - destruct fuel as [|f]; [lia|].
    cbn [serialize returned wire_ok] in *.
    assert (Hstep : jsonElement_parse (S f) (to_string_int64 z ++ rest)
                    = match lexNumber (to_string_int64 z ++ rest) with
                      | (v, true, rest) => Some (d <- stod v ;; Ok (JDouble d, rest))
                      | (v, false, rest) => Some (z <- stoll v ;; Ok (JInt z, rest))
                      end).
    { destruct (to_string_int64_head z) as [c [s [E [Hc|Hc]]]]; rewrite E.
      - destruct (isdigit_facts c Hc)
          as (_ & HnumB & Hsp & _ & _ & _ & _ & _ & Hbrace & Hbracket & Hquote & _).
        cbn [append jsonElement_parse skipSpace]. rewrite Hsp. cbn [peek].
        now rewrite Hbrace, Hbracket, Hquote, HnumB.
      - subst c. reflexivity. }
    rewrite Hstep, (lexNumber_to_string z rest Hrest), (stoll_to_string z Hok).
    reflexivity.
  - destruct fuel as [|f]; [lia|].
    cbn [serialize returned append]. rewrite append_assoc. cbn [append].
    cbn [jsonElement_parse skipSpace].
    known (isSpace dquote) false. cbn [peek advance].
    change (dquote =? "{")%char with false.
    change (dquote =? "[")%char with false.
    change (dquote =? dquote)%char with true. cbv iota.
    rewrite stringBody_serialized. reflexivity.
  - rewrite serialize_object in *. cbn [String.length] in Hfuel.
    destruct fuel as [|f]; [lia|].
    cbn [wire_ok] in Hok. apply andb_prop in Hok. destruct Hok as [Hmembers Hasc].
    cbn [append jsonElement_parse skipSpace].
    known (isSpace "{") false. cbn [peek advance].
    change ("{" =? "{")%char with true. cbv iota.
    rewrite (parse_object_serialized obj IH Hmembers Hasc f true [] rest);
      [reflexivity | lia | constructor].
  - rewrite serialize_array in *. cbn [String.length] in Hfuel.
    destruct fuel as [|f]; [lia|].
    cbn [wire_ok] in Hok.
    cbn [append jsonElement_parse skipSpace].
    known (isSpace "[") false. cbn [peek advance].
    change ("[" =? "{")%char with false.
    change ("[" =? "[")%char with true. cbv iota.
    rewrite (parse_array_serialized arr IH Hok f true [] rest); [reflexivity | lia].
  - destruct fuel as [|f]; [lia|]. destruct b; cbn; now rewrite prefix_nil.
Qed.


(** *** The values that come back as they went *)

Lemma returned_printable (v : jsonElement) :
  printable_strings v = true -> returned v = v.
Proof.
  induction v as [ | z | d | s | obj IH | arr IH | b | ] using jsonElement_induction;
    intros H; try reflexivity.
  - simpl in *. now rewrite (returned_string_printable s H).
  - simpl in *. f_equal.
    induction IH as [|[name x] obj Hx _ IHobj]; simpl in *; [reflexivity|].
    apply andb_prop in H. destruct H as [H1 H2].
    now rewrite (Hx H1), (IHobj H2).
  - simpl in *. f_equal.
    induction IH as [|x arr Hx _ IHarr]; simpl in *; [reflexivity|].
    apply andb_prop in H. destruct H as [H1 H2].
    now rewrite (Hx H1), (IHarr H2).
Qed.

(** The number lexer never raises the float flag: the loop runs only while
    [isNum] holds, and neither the point nor the exponent letter is in that
    class.  So the parser never builds a double. *)
Lemma lexNumber_never_float (str : string) : snd (fst (lexNumber str)) = false.
Proof.
  induction str as [|c str IH]; simpl; [reflexivity|].
  destruct (isNum c) eqn:Hc; [|reflexivity].
  destruct (lexNumber str) as [[v isFloat] rest]. simpl in *. subst isFloat.
  revert Hc. each_char c; vm_compute; intros Hc; try discriminate Hc; reflexivity.
Qed.

(** What the missing point costs: the text written for the double 1.5 does
    not parse. *)
Lemma double_is_not_read_back :
  serialize true (JDouble (Float (S754_finite false 3 (-1)))) = "1.500000"
  /\ jsonParser "1.500000" = Throw (CString "invalid json").
Proof. split; vm_compute; reflexivity. Qed.

(** C2, as the specification states it, fails.  An object whose member name
    is the printable text a, quote, b: the name is written between quotes as
    it is, and the parser stops the name at the quote inside it. *)
Lemma quote_in_member_name :
  let name := String "a" (String dquote "b") in
  let v := JObject [(name, JInt 1)] in
  printable_string name = true
  /\ printable_strings v = true
  /\ jsonParser (serialize true v) = Throw (CString "missing name/value separator").
Proof. repeat split. Qed.

(** C2 (amended).  For every value built from null, booleans, 64-bit
    integers, strings, arrays and objects (no double, and member names in key
    order that hold neither a quote nor a NUL), parsing the serialized value
    gives the value back with each percent-encoded byte of its strings
    replaced by the three characters of its encoding; so a value all of whose
    strings are printable ASCII comes back exactly. *)
Theorem jsonParser_serialize :
  forall v : jsonElement,
    wire_ok v = true ->
    jsonParser (serialize true v) = Ok (returned v)
    /\ (printable_strings v = true -> jsonParser (serialize true v) = Ok v).
Proof.
  intros v Hok.
  assert (H : jsonParser (serialize true v) = Ok (returned v)).
  { unfold jsonParser.
    rewrite <- (append_nil_r (serialize true v)) at 2.
    rewrite (parse_serialized v Hok _ "" (Nat.le_refl _) eq_refl).
    reflexivity. }
  split; [exact H|].
  intros Hp. now rewrite H, (returned_printable v Hp).
Qed.

Lemma jsonParser_serialize_witness :
  let v := JObject [("a", JInt (-5)); ("b", JArray [JString "x\y"; JBool true; JNull])] in
  jsonParser (serialize true v) = Ok (returned v)
  /\ (printable_strings v = true -> jsonParser (serialize true v) = Ok v).
Proof.
  apply (jsonParser_serialize
           (JObject [("a", JInt (-5)); ("b", JArray [JString "x\y"; JBool true; JNull])])).
  reflexivity.
Defined.

End RoundTrip.


(** ** The fuel of [jsonParser] *)
Section ParserFuel.
Import Json Spec.

Lemma length_skipSpace (s : string) : (String.length (skipSpace s) <= String.length s)%nat.
Proof.
  induction s as [|c s IH]; simpl; [lia|].
  destruct (isSpace c); simpl; lia.
Qed.

Lemma length_advance (s : string) : (String.length (advance s) <= String.length s)%nat.
Proof. destruct s; simpl; lia. Qed.

Lemma length_advance_peek (s : string) (c : ascii) :
  (peek s =? c)%char = true -> c <> NUL ->
  S (String.length (advance s)) = String.length s.
Proof.
  destruct s as [|d s]; cbn [peek advance String.length]; intros H N; [|reflexivity].
  apply Ascii.eqb_eq in H. congruence.
Qed.

Lemma length_drop (n : nat) (s : string) : (String.length (drop n s) <= String.length s)%nat.
Proof.
  revert s. induction n as [|n IH]; intros s; simpl; [lia|].
  specialize (IH (advance s)). pose proof (length_advance s). lia.
Qed.

Lemma length_quotedName (s : string) :
  (String.length (snd (quotedName s)) <= String.length s)%nat.
Proof.
  induction s as [|c s IH]; simpl; [lia|].
  destruct ((c =? NUL)%char || (c =? dquote)%char); simpl; [lia|].
  destruct (quotedName s); simpl in *; lia.
Qed.

Lemma length_symbolName (s : string) :
  (String.length (snd (symbolName s)) <= String.length s)%nat.
Proof.
  induction s as [|c s IH]; simpl; [lia|].
  destruct (isSymbolB c); simpl; [|lia].
  destruct (symbolName s); simpl in *; lia.
Qed.

Lemma length_parse_name (s name rest : string) :
  parse_name s = Ok (name, rest) -> (String.length rest <= String.length s)%nat.
Proof.
  unfold parse_name. destruct (peek s =? dquote)%char.
  - pose proof (length_quotedName (advance s)) as H.
    destruct (quotedName (advance s)) as [n r]. simpl in H.
    destruct (peek r =? NUL)%char; [discriminate|].
    intros E. inversion E; subst.
    pose proof (length_advance r). pose proof (length_advance s). lia.
  - destruct (negb (isSymbol (peek s))); [discriminate|].
    pose proof (length_symbolName s) as H. intros E. inversion E as [E'].
    rewrite E' in H. exact H.
Qed.

Lemma length_stringBody (s : string) :
  (String.length (snd (stringBody s)) <= String.length s)%nat.
Proof.
  assert (H : forall n s, (String.length s <= n)%nat ->
                          (String.length (snd (stringBody s)) <= String.length s)%nat).
  { induction n as [|n IH]; intros [|c t] Hn; simpl in *; try lia.
    destruct ((c =? NUL)%char || (c =? dquote)%char); simpl; [lia|].
    destruct (c =? backslash)%char.
    - destruct t as [|d u]; simpl; [lia|].
      destruct (d =? NUL)%char; simpl; [lia|].
      assert (Hu : (String.length u <= n)%nat) by (simpl in Hn; lia).
      specialize (IH u Hu). destruct (stringBody u); simpl in *; lia.
    - assert (Ht : (String.length t <= n)%nat) by lia.
      specialize (IH t Ht). destruct (stringBody t); simpl in *; lia. }
  apply (H (String.length s)). lia.
Qed.

Lemma length_lexNumber (s : string) :
  (String.length (snd (lexNumber s)) <= String.length s)%nat.
Proof.
  induction s as [|c s IH]; simpl; [lia|].
  destruct (isNum c); simpl; [|lia].
  destruct (lexNumber s) as [[v f] r]; simpl in *; lia.
Qed.

Lemma lexNumber_progress (s : string) :
  isNum (peek s) = true ->
  (String.length (snd (lexNumber s)) < String.length s)%nat.
Proof.
  destruct s as [|c s]; simpl; [discriminate|]. intros ->.
  pose proof (length_lexNumber s).
  destruct (lexNumber s) as [[v f] r]; simpl in *; lia.
Qed.

Lemma prefix_drop (p s : string) :
  prefix p s = true ->
  (String.length (drop (String.length p) s) + String.length p = String.length s)%nat.
Proof.
  revert s. induction p as [|c p IH]; intros s H; simpl.
  - lia.
  - destruct s as [|d s]; simpl in H; [discriminate|].
    destruct (ascii_dec c d); [|discriminate].
    simpl. specialize (IH s H). lia.
Qed.

(** With fuel above twice the length of the input the recursion never runs
    out, and a value that is parsed takes at least one character. *)
Lemma parse_fuel (fuel : nat) :
  (forall str,
      (2 * String.length str + 1 <= fuel)%nat ->
      exists r, jsonElement_parse fuel str = Some r
                /\ forall x rest, r = Ok (x, rest) ->
                                  (String.length rest < String.length str)%nat)
  /\ (forall first obj str,
         (2 * String.length str + 2 <= fuel)%nat ->
         exists r, parse_object fuel first obj str = Some r
                   /\ forall x rest, r = Ok (x, rest) ->
                                     (String.length rest <= String.length str)%nat)
  /\ (forall first arr str,
         (2 * String.length str + 2 <= fuel)%nat ->
         exists r, parse_array fuel first arr str = Some r
                   /\ forall x rest, r = Ok (x, rest) ->
                                     (String.length rest <= String.length str)%nat).
Proof.
  induction fuel as [|f [IHv [IHo IHa]]].
  - repeat split; intros; lia.
  - repeat split.
    + (* a value *)
      intros str Hfuel. cbn [jsonElement_parse].
      pose proof (length_skipSpace str) as Hs.
      set (s := skipSpace str) in *.
      destruct (peek s =? "{")%char eqn:Hbrace.
      { pose proof (length_advance_peek s "{" Hbrace ltac:(discriminate)) as Ha.
        destruct (IHo true [] (advance s) ltac:(lia)) as [r [Hr Hb]].
        exists r. split; [exact Hr|]. intros x rest E. specialize (Hb x rest E). lia. }
      destruct (peek s =? "[")%char eqn:Hbracket.
      { pose proof (length_advance_peek s "[" Hbracket ltac:(discriminate)) as Ha.
        destruct (IHa true [] (advance s) ltac:(lia)) as [r [Hr Hb]].
        exists r. split; [exact Hr|]. intros x rest E. specialize (Hb x rest E). lia. }
      destruct (peek s =? dquote)%char eqn:Hquote.
      { pose proof (length_advance_peek s dquote Hquote ltac:(discriminate)) as Ha.
        pose proof (length_stringBody (advance s)) as Hb.
        destruct (stringBody (advance s)) as [v rest]. simpl in Hb.
        destruct (peek rest =? NUL)%char.
        - no_value.
        - eexists. split; [reflexivity|]. intros x r E. inversion E; subst.
          pose proof (length_advance rest). lia. }
      destruct (isNumB (peek s)) eqn:HnumB.
      { destruct (isNum (peek s)) eqn:Hnum.
        - pose proof (lexNumber_progress s Hnum) as Hp.
          destruct (lexNumber s) as [[v isFloat] rest]. simpl in Hp.
          destruct isFloat.
          + destruct (stod v) as [d| |]; simpl; eexists; (split; [reflexivity|]);
              intros x r E; inversion E; subst; lia.
          + destruct (stoll v) as [z| |]; simpl; eexists; (split; [reflexivity|]);
              intros x r E; inversion E; subst; lia.
        - rewrite (lexNumber_stop s Hnum). simpl.
          no_value. }
      destruct (prefix "true" s) eqn:Ht.
      { eexists. split; [reflexivity|]. intros x r E. inversion E; subst.
        pose proof (prefix_drop "true" s Ht). simpl in *. lia. }
      destruct (prefix "false" s) eqn:Hf.
      { eexists. split; [reflexivity|]. intros x r E. inversion E; subst.
        pose proof (prefix_drop "false" s Hf). simpl in *. lia. }
      destruct (prefix "null" s) eqn:Hn.
      { eexists. split; [reflexivity|]. intros x r E. inversion E; subst.
        pose proof (prefix_drop "null" s Hn). simpl in *. lia. }
      no_value.
    + (* the members of an object *)
      intros first obj str Hfuel. cbn [parse_object].
      pose proof (length_skipSpace str) as Hs.
      set (s := skipSpace str) in *.
      destruct (peek s =? "}")%char.
      { eexists. split; [reflexivity|]. intros x r E. inversion E; subst.
        pose proof (length_advance s). lia. }
      assert (Hsep : match object_separator first s with
                     | Ok (_, s') => (String.length s' <= String.length s)%nat
                     | _ => True
                     end).
      { unfold object_separator. destruct first; [lia|].
        destruct (negb (peek s =? ",")%char); [exact I|].
        pose proof (length_advance s). pose proof (length_skipSpace (advance s)).
        destruct (peek (skipSpace (advance s)) =? "}")%char.
        - pose proof (length_advance (skipSpace (advance s))). lia.
        - lia. }
      destruct (object_separator first s) as [[ended s1]| |].
      2: { no_value. }
      2: { no_value. }
      destruct ended.
      { eexists. split; [reflexivity|]. intros x r E. inversion E; subst. lia. }
      destruct (parse_name s1) as [[name s2]| |] eqn:Hname.
      2: { no_value. }
      2: { no_value. }
      pose proof (length_parse_name _ _ _ Hname) as Hn.
      pose proof (length_skipSpace s2) as Hs2.
      destruct (peek (skipSpace s2) =? ":")%char eqn:Hcolon; simpl negb; cbv iota.
      2: { no_value. }
      pose proof (length_advance_peek _ ":" Hcolon ltac:(discriminate)) as Ha.
      pose proof (length_skipSpace (advance (skipSpace s2))) as Hs3.
      destruct (IHv (skipSpace (advance (skipSpace s2))) ltac:(lia)) as [r [Hr Hb]].
      rewrite Hr. destruct r as [[x s4]| |].
      * specialize (Hb x s4 eq_refl).
        destruct (IHo false (StdMap.assign string_cmp name x obj) s4 ltac:(lia))
          as [r' [Hr' Hb']].
        exists r'. split; [exact Hr'|]. intros y rest E. specialize (Hb' y rest E). lia.
      * no_value.
      * no_value.
    + (* the elements of an array *)
      intros first arr str Hfuel. cbn [parse_array].
      pose proof (length_skipSpace str) as Hs.
      set (s := skipSpace str) in *.
      destruct (peek s =? "]")%char.
      { eexists. split; [reflexivity|]. intros x r E. inversion E; subst.
        pose proof (length_advance s). lia. }
      assert (Hsep : match array_separator first s with
                     | Ok s' => (String.length s' <= String.length s)%nat
                     | _ => True
                     end).
      { unfold array_separator. destruct first; [lia|].
        destruct (negb (peek s =? ",")%char); [exact I|].
        pose proof (length_advance s). pose proof (length_skipSpace (advance s)). lia. }
      destruct (array_separator first s) as [s1| |].
      2: { no_value. }
      2: { no_value. }
      destruct (IHv s1 ltac:(lia)) as [r [Hr Hb]].
      rewrite Hr. destruct r as [[x s2]| |].
      * specialize (Hb x s2 eq_refl).
        destruct (IHa false (arr ++ [x])%list s2 ltac:(lia)) as [r' [Hr' Hb']].
        exists r'. split; [exact Hr'|]. intros y rest E. specialize (Hb' y rest E). lia.
      * no_value.
      * no_value.
Qed.

(** The fuel [jsonParser] gives is enough: its last branch is never taken. *)
Lemma jsonParser_fuel (str : string) :
  jsonElement_parse (2 * String.length str + 1) str <> None.
Proof.
  destruct (proj1 (parse_fuel (2 * String.length str + 1)) str (Nat.le_refl _))
    as [r [Hr _]].
  rewrite Hr. discriminate.
Qed.

End ParserFuel.

(** ** Ordered maps *)

(** What [std::map] relies on: the comparison is a strict total order. *)
Section MapFacts.
Context {K V : Type}.
Variable cmp : K -> K -> comparison.
Hypothesis cmp_eq : forall a b, cmp a b = Eq <-> a = b.
Hypothesis cmp_antisym : forall a b, cmp a b = CompOpp (cmp b a).
Hypothesis cmp_trans : forall a b c, cmp a b = Lt -> cmp b c = Lt -> cmp a c = Lt.

Lemma cmp_refl (a : K) : cmp a a = Eq.
Proof. now apply cmp_eq. Qed.

Lemma cmp_gt_lt (a b : K) : cmp a b = Gt -> cmp b a = Lt.
Proof. intros H. rewrite cmp_antisym, H. reflexivity. Qed.

Lemma cmp_lt_gt (a b : K) : cmp a b = Lt -> cmp b a = Gt.
Proof. intros H. rewrite cmp_antisym, H. reflexivity. Qed.

(** A key below every key of a map is not in it. *)
Lemma find_below (k : K) (m : list (K * V)) :
  Forall (fun k' => cmp k k' = Lt) (StdMap.keys m) -> StdMap.find cmp k m = None.
Proof.
  induction m as [|[k' v'] m IH]; intros H; [reflexivity|].
  inversion H as [|? ? Hk Hm]; subst. simpl in *. rewrite Hk. now apply IH.
Qed.

Lemma ascending_tail (k : K) (ks : list K) :
  StdMap.ascending cmp (k :: ks) ->
  Forall (fun k' => cmp k k' = Lt) ks /\ StdMap.ascending cmp ks.
Proof. intros H. inversion H; subst. now split. Qed.

Lemma below_trans (a b : K) (ks : list K) :
  cmp a b = Lt -> Forall (fun k' => cmp b k' = Lt) ks -> Forall (fun k' => cmp a k' = Lt) ks.
Proof.
  intros Hab H. induction H as [|k ks Hk _ IH]; constructor; [|exact IH].
  now apply cmp_trans with b.
Qed.

(** The keys after an insertion: the new key, if it was not there, and the
    old ones. *)
Lemma insert_keys_in (k : K) (v : V) (m : list (K * V)) (x : K) :
  In x (StdMap.keys (StdMap.insert cmp k v m)) <-> x = k \/ In x (StdMap.keys m).
Proof.
  induction m as [|[k' v'] m IH]; simpl.
  - intuition.
  - destruct (cmp k k') eqn:E; simpl.
    + apply cmp_eq in E. subst k'. intuition.
    + intuition.
    + unfold StdMap.keys in IH. rewrite IH. intuition.
Qed.

Lemma assign_keys_in (k : K) (v : V) (m : list (K * V)) (x : K) :
  In x (StdMap.keys (StdMap.assign cmp k v m)) <-> x = k \/ In x (StdMap.keys m).
Proof.
  induction m as [|[k' v'] m IH]; simpl.
  - intuition.
  - destruct (cmp k k') eqn:E; simpl.
    + apply cmp_eq in E. subst k'. intuition.
    + intuition.
    + unfold StdMap.keys in IH. rewrite IH. intuition.
Qed.

Lemma insert_below (a k : K) (v : V) (m : list (K * V)) :
  cmp a k = Lt ->
  Forall (fun k' => cmp a k' = Lt) (StdMap.keys m) ->
  Forall (fun k' => cmp a k' = Lt) (StdMap.keys (StdMap.insert cmp k v m)).
Proof.
  intros Hak H. apply Forall_forall. intros x Hx.
  apply insert_keys_in in Hx. destruct Hx as [-> | Hx]; [exact Hak|].
  now apply (proj1 (Forall_forall _ _) H).
Qed.

Lemma assign_below (a k : K) (v : V) (m : list (K * V)) :
  cmp a k = Lt ->
  Forall (fun k' => cmp a k' = Lt) (StdMap.keys m) ->
  Forall (fun k' => cmp a k' = Lt) (StdMap.keys (StdMap.assign cmp k v m)).
Proof.
  intros Hak H. apply Forall_forall. intros x Hx.
  apply assign_keys_in in Hx. destruct Hx as [-> | Hx]; [exact Hak|].
  now apply (proj1 (Forall_forall _ _) H).
Qed.

(** The class invariant is kept by every writer. *)
Lemma insert_wf (k : K) (v : V) (m : list (K * V)) :
  StdMap.wf cmp m -> StdMap.wf cmp (StdMap.insert cmp k v m).
Proof.
  unfold StdMap.wf. induction m as [|[k' v'] m IH]; intros H; simpl.
  - constructor; constructor.
  - destruct (ascending_tail _ _ H) as [Hk' Hm].
    destruct (cmp k k') eqn:E; simpl.
    + exact H.
    + constructor; [|exact H]. constructor; [exact E|].
      now apply below_trans with k'.
    + constructor; [|now apply IH].
      apply insert_below; [now apply cmp_gt_lt | exact Hk'].
Qed.

Lemma assign_wf (k : K) (v : V) (m : list (K * V)) :
  StdMap.wf cmp m -> StdMap.wf cmp (StdMap.assign cmp k v m).
Proof.
  unfold StdMap.wf. induction m as [|[k' v'] m IH]; intros H; simpl.
  - constructor; constructor.
  - destruct (ascending_tail _ _ H) as [Hk' Hm].
    destruct (cmp k k') eqn:E; simpl.
    + exact H.
    + constructor; [|exact H]. constructor; [exact E|].
      now apply below_trans with k'.
    + constructor; [|now apply IH].
      apply assign_below; [now apply cmp_gt_lt | exact Hk'].
Qed.

Lemma erase_keys_in (k : K) (m : list (K * V)) (x : K) :
  In x (StdMap.keys (StdMap.erase cmp k m)) -> In x (StdMap.keys m).
Proof.
  induction m as [|[k' v'] m IH]; simpl; [tauto|].
  destruct (cmp k k'); simpl; intuition.
Qed.

Lemma erase_wf (k : K) (m : list (K * V)) :
  StdMap.wf cmp m -> StdMap.wf cmp (StdMap.erase cmp k m).
Proof.
  unfold StdMap.wf. induction m as [|[k' v'] m IH]; intros H; simpl; [exact H|].
  destruct (ascending_tail _ _ H) as [Hk' Hm].
  assert (Hrest : StdMap.ascending cmp (StdMap.keys ((k', v') :: StdMap.erase cmp k m))).
  { constructor; [|now apply IH]. apply Forall_forall. intros x Hx.
    apply erase_keys_in in Hx. now apply (proj1 (Forall_forall _ _) Hk'). }
  destruct (cmp k k'); [exact Hm | exact Hrest | exact Hrest].
Qed.

(** Lookup after a writer. *)
Lemma find_insert (k k' : K) (v : V) (m : list (K * V)) :
  StdMap.wf cmp m ->
  StdMap.find cmp k (StdMap.insert cmp k' v m)
    = match cmp k k' with
      | Eq => match StdMap.find cmp k m with Some x => Some x | None => Some v end
      | _ => StdMap.find cmp k m
      end.
Proof.
  unfold StdMap.wf. induction m as [|[k0 v0] m IH]; intros H; simpl.
  - destruct (cmp k k'); reflexivity.
  - destruct (ascending_tail _ _ H) as [Hk0 Hm].
    destruct (cmp k' k0) eqn:E; simpl.
    + apply cmp_eq in E. subst k0.
      destruct (cmp k k') eqn:E'; try reflexivity.
    + destruct (cmp k k') eqn:E'; try reflexivity.
      apply cmp_eq in E'. subst k'. rewrite E.
      rewrite find_below; [reflexivity|]. now apply below_trans with k0.
    + rewrite (IH Hm).
      destruct (cmp k k0) eqn:E0; [destruct (cmp k k'); reflexivity | reflexivity | reflexivity].
Qed.

Lemma find_assign (k k' : K) (v : V) (m : list (K * V)) :
  StdMap.wf cmp m ->
  StdMap.find cmp k (StdMap.assign cmp k' v m)
    = match cmp k k' with
      | Eq => Some v
      | _ => StdMap.find cmp k m
      end.
Proof.
  unfold StdMap.wf. induction m as [|[k0 v0] m IH]; intros H; simpl.
  - destruct (cmp k k'); reflexivity.
  - destruct (ascending_tail _ _ H) as [Hk0 Hm].
    destruct (cmp k' k0) eqn:E; simpl.
    + apply cmp_eq in E. subst k0.
      destruct (cmp k k') eqn:E'; reflexivity.
    + destruct (cmp k k'); reflexivity.
    + rewrite (IH Hm).
      destruct (cmp k k0) eqn:E0; [|reflexivity|reflexivity].
      apply cmp_eq in E0. subst k0. rewrite (cmp_gt_lt _ _ E). reflexivity.
Qed.

Lemma find_erase (k k' : K) (m : list (K * V)) :
  StdMap.wf cmp m ->
  StdMap.find cmp k (StdMap.erase cmp k' m)
    = match cmp k k' with
      | Eq => None
      | _ => StdMap.find cmp k m
      end.
Proof.
  unfold StdMap.wf. induction m as [|[k0 v0] m IH]; intros H; simpl.
  - destruct (cmp k k'); reflexivity.
  - destruct (ascending_tail _ _ H) as [Hk0 Hm].
    destruct (cmp k' k0) eqn:E; simpl.
    + apply cmp_eq in E. subst k0.
      destruct (cmp k k') eqn:E'; try reflexivity.
      apply cmp_eq in E'. subst k'. now apply find_below.
    + rewrite (IH Hm).
      destruct (cmp k k0) eqn:E0; [|reflexivity|reflexivity].
      apply cmp_eq in E0. subst k0. rewrite (cmp_lt_gt _ _ E). reflexivity.
    + rewrite (IH Hm).
      destruct (cmp k k0) eqn:E0; [|reflexivity|reflexivity].
      apply cmp_eq in E0. subst k0. rewrite (cmp_gt_lt _ _ E). reflexivity.
Qed.

(** A found entry is an entry; in a map that keeps the invariant an entry is
    found. *)
Lemma find_in (k : K) (v : V) (m : list (K * V)) :
  StdMap.find cmp k m = Some v -> In (k, v) m.
Proof.
  induction m as [|[k0 v0] m IH]; simpl; [discriminate|].
  destruct (cmp k k0) eqn:E; intros H.
  - apply cmp_eq in E. subst k0. left. congruence.
  - right. now apply IH.
  - right. now apply IH.
Qed.

Lemma in_find (k : K) (v : V) (m : list (K * V)) :
  StdMap.wf cmp m -> In (k, v) m -> StdMap.find cmp k m = Some v.
Proof.
  unfold StdMap.wf. induction m as [|[k0 v0] m IH]; intros H Hin; [destruct Hin|].
  destruct (ascending_tail _ _ H) as [Hk0 Hm]. simpl.
  destruct Hin as [Hin | Hin].
  - inversion Hin; subst. now rewrite cmp_refl.
  - assert (E : cmp k0 k = Lt).
    { apply (proj1 (Forall_forall _ _) Hk0). now apply (in_map fst _ (k, v)). }
    rewrite (cmp_lt_gt _ _ E). now apply IH.
Qed.

Lemma find_none_keys (k : K) (m : list (K * V)) :
  StdMap.find cmp k m = None <-> ~ In k (StdMap.keys m).
Proof.
  induction m as [|[k0 v0] m IH]; simpl; [tauto|].
  destruct (cmp k k0) eqn:E.
  - apply cmp_eq in E. subst k0. split; [discriminate | tauto].
  - rewrite IH. split; [|tauto]. intros H [H' | H']; [|tauto].
    subst k0. rewrite cmp_refl in E. discriminate.
  - rewrite IH. split; [|tauto]. intros H [H' | H']; [|tauto].
    subst k0. rewrite cmp_refl in E. discriminate.
Qed.

End MapFacts.

(** The two orders in use are strict total orders. *)
Lemma string_cmp_eq (a b : string) : string_cmp a b = Eq <-> a = b.
Proof. apply OrderedTypeEx.String_as_OT.cmp_eq. Qed.

Lemma string_cmp_antisym (a b : string) : string_cmp a b = CompOpp (string_cmp b a).
Proof. apply OrderedTypeEx.String_as_OT.cmp_antisym. Qed.

Lemma string_cmp_trans (a b c : string) :
  string_cmp a b = Lt -> string_cmp b c = Lt -> string_cmp a c = Lt.
Proof.
  unfold string_cmp. intros H1 H2.
  apply OrderedTypeEx.String_as_OT.cmp_lt in H1. apply OrderedTypeEx.String_as_OT.cmp_lt in H2.
  apply OrderedTypeEx.String_as_OT.cmp_lt. now apply OrderedTypeEx.String_as_OT.lt_trans with b.
Qed.

Lemma time_cmp_eq (a b : Z) : time_cmp a b = Eq <-> a = b.
Proof. apply Z.compare_eq_iff. Qed.

Lemma time_cmp_antisym (a b : Z) : time_cmp a b = CompOpp (time_cmp b a).
Proof. apply Z.compare_antisym. Qed.

Lemma time_cmp_trans (a b c : Z) :
  time_cmp a b = Lt -> time_cmp b c = Lt -> time_cmp a c = Lt.
Proof. unfold time_cmp. rewrite !Z.compare_lt_iff. lia. Qed.

(** A common prefix does not change the order of two strings. *)
Lemma string_cmp_prefix (p a b : string) : string_cmp (p ++ a) (p ++ b) = string_cmp a b.
Proof.
  unfold string_cmp. induction p as [|c p IH]; [reflexivity|].
  assert (E : Ascii.compare c c = Eq) by now apply OrderedTypeEx.Ascii_as_OT.cmp_eq.
  cbn [append String.compare]. now rewrite E.
Qed.

(** Discharges the order hypotheses of the lemmas on maps. *)
Ltac strict_order :=
  first [ exact string_cmp_eq | exact string_cmp_antisym | exact string_cmp_trans
        | exact time_cmp_eq | exact time_cmp_antisym | exact time_cmp_trans ].

(** The lemmas above for maps keyed by strings, with the comparison of two
    keys decided by [String.eqb]. *)
Section StringMaps.
Context {V : Type}.

Lemma string_cmp_refl (k : string) : string_cmp k k = Eq.
Proof. now apply string_cmp_eq. Qed.

Lemma string_cmp_neq (k k' : string) : k <> k' -> string_cmp k k' <> Eq.
Proof. intros Hne E. apply string_cmp_eq in E. contradiction. Qed.

Lemma string_map_nil_wf : StdMap.wf string_cmp (@nil (string * V)).
Proof. constructor. Qed.

Lemma string_insert_wf (k : string) (v : V) (m : list (string * V)) :
  StdMap.wf string_cmp m -> StdMap.wf string_cmp (StdMap.insert string_cmp k v m).
Proof. apply insert_wf; strict_order. Qed.

Lemma string_assign_wf (k : string) (v : V) (m : list (string * V)) :
  StdMap.wf string_cmp m -> StdMap.wf string_cmp (StdMap.assign string_cmp k v m).
Proof. apply assign_wf; strict_order. Qed.

Lemma string_find_assign (k k' : string) (v : V) (m : list (string * V)) :
  StdMap.wf string_cmp m ->
  StdMap.find string_cmp k (StdMap.assign string_cmp k' v m)
    = if (k =? k')%string then Some v else StdMap.find string_cmp k m.
Proof.
  intros H. rewrite (find_assign string_cmp); try strict_order; [|exact H].
  destruct (String.eqb_spec k k') as [->|Hne].
  - now rewrite string_cmp_refl.
  - destruct (string_cmp k k') eqn:E; try reflexivity.
    now elim (string_cmp_neq _ _ Hne).
Qed.

Lemma string_find_insert (k k' : string) (v : V) (m : list (string * V)) :
  StdMap.wf string_cmp m ->
  StdMap.find string_cmp k (StdMap.insert string_cmp k' v m)
    = match StdMap.find string_cmp k m with
      | Some x => Some x
      | None => if (k =? k')%string then Some v else None
      end.
Proof.
  intros H. rewrite (find_insert string_cmp); try strict_order; [|exact H].
  destruct (String.eqb_spec k k') as [->|Hne].
  - rewrite string_cmp_refl. reflexivity.
  - destruct (string_cmp k k') eqn:E.
    + now elim (string_cmp_neq _ _ Hne).
    + now destruct (StdMap.find string_cmp k m).
    + now destruct (StdMap.find string_cmp k m).
Qed.

(** Range insertion keeps what the target holds and adds the rest. *)
Lemma string_insert_range_find (src m : list (string * V)) :
  StdMap.wf string_cmp m ->
  StdMap.wf string_cmp (StdMap.insert_range string_cmp src m)
  /\ forall name,
      StdMap.find string_cmp name (StdMap.insert_range string_cmp src m)
        = match StdMap.find string_cmp name m with
          | Some x => Some x
          | None => StdMap.find string_cmp name src
          end.
Proof.
  unfold StdMap.insert_range. revert m.
  induction src as [|[k v] src IH]; intros m Hm; simpl.
  - split; [exact Hm|]. intros name. now destruct (StdMap.find string_cmp name m).
  - destruct (IH _ (string_insert_wf k v m Hm)) as [Hwf Hfind].
    split; [exact Hwf|]. intros name. rewrite Hfind.
    rewrite (string_find_insert name k v m Hm).
    destruct (StdMap.find string_cmp name m) as [x|]; [reflexivity|].
    destruct (String.eqb_spec name k) as [->|Hne].
    + now rewrite string_cmp_refl.
    + destruct (string_cmp name k) eqn:E; try reflexivity.
      now elim (string_cmp_neq _ _ Hne).
Qed.

Lemma string_find_none_keys (k : string) (m : list (string * V)) :
  StdMap.find string_cmp k m = None <-> ~ In k (StdMap.keys m).
Proof. apply find_none_keys. strict_order. Qed.

Lemma string_insert_keys_in (k : string) (v : V) (m : list (string * V)) (x : string) :
  In x (StdMap.keys (StdMap.insert string_cmp k v m)) <-> x = k \/ In x (StdMap.keys m).
Proof. apply insert_keys_in. strict_order. Qed.

Lemma string_in_find (k : string) (v : V) (m : list (string * V)) :
  StdMap.wf string_cmp m -> In (k, v) m -> StdMap.find string_cmp k m = Some v.
Proof. apply in_find; strict_order. Qed.

Lemma string_find_in (k : string) (v : V) (m : list (string * V)) :
  StdMap.find string_cmp k m = Some v -> In (k, v) m.
Proof. apply find_in. strict_order. Qed.

End StringMaps.



(** ** The value class: construction, writers and readers *)
Section ValueFacts.
Import Json Spec.

Lemma merge_objects_find (objs : list objectType) (acc : objectType) :
  StdMap.wf string_cmp acc ->
  let merged :=
    fold_left (fun obj it => StdMap.insert_range string_cmp (objectOf it) obj)
      (map JObject objs) acc in
  StdMap.wf string_cmp merged
  /\ forall name,
      StdMap.find string_cmp name merged
        = match StdMap.find string_cmp name acc with
          | Some x => Some x
          | None => first_found name objs
          end.
Proof.
  revert acc. induction objs as [|obj objs IH]; intros acc Hacc; simpl.
  - split; [exact Hacc|]. intros name. now destruct (StdMap.find string_cmp name acc).
  - destruct (string_insert_range_find obj acc Hacc) as [Hwf Hfind].
    destruct (IH _ Hwf) as [Hwf' Hfind'].
    split; [exact Hwf'|]. intros name. rewrite Hfind', Hfind.
    now destruct (StdMap.find string_cmp name acc).
Qed.

(** X1.  A braced list of objects is their union, and of two members with
    one name the one of the earlier object is kept. *)
Theorem braced_list_of_objects :
  forall objs : list objectType,
    exists obj,
      jsonElement_list (map JObject objs) = JObject obj
      /\ StdMap.wf string_cmp obj
      /\ forall name, StdMap.find string_cmp name obj = first_found name objs.
Proof.
  intros objs.
  destruct (merge_objects_find objs [] string_map_nil_wf) as [Hwf Hfind].
  eexists. split; [|split; [exact Hwf | exact Hfind]].
  assert (Hall : forallb isObject (map JObject objs) = true).
  { clear. induction objs; simpl; [reflexivity | assumption]. }
  unfold jsonElement_list. rewrite Hall.
  destruct objs as [|a [|b [|c objs]]]; reflexivity.
Qed.

(** X2.  A braced list that starts with the array marker is an array of its
    other elements, whatever they are.  Without the marker, two elements of
    which the first is a string are one member of an object, the same object
    the constructor from a name and a value builds; any other list that is not
    made of objects only is an array. *)
Theorem braced_list_array_marker :
  forall l : list jsonElement,
    jsonElement_list (JArrayTag :: l) = JArray (filter (fun it => negb (isArrayTag it)) l)
    /\ (forall name x, jsonElement_list [JString name; x] = jsonElement_named name x)
    /\ (forallb isObject l = false ->
        (forall name x, l <> [JString name; x]) ->
        jsonElement_list l = JArray (filter (fun it => negb (isArrayTag it)) l)).
Proof.
  intros l. split; [|split].
  - destruct l as [|a [|b l]]; reflexivity.
  - reflexivity.
  - intros Hobj Hpair. unfold jsonElement_list. rewrite Hobj.
    destruct l as [|a [|b [|c l]]]; try reflexivity.
    destruct a; try reflexivity. now elim (Hpair v b).
Qed.

(** *** Members by name *)

Lemma has_find (obj : objectType) (name : string) :
  has (JObject obj) name
    = match StdMap.find string_cmp name obj with
      | Some x => negb (isNull x)
      | None => false
      end.
Proof. reflexivity. Qed.

(** X3.  Writing a member and reading it: [v[name] = x] followed by the const
    [operator[]] gives [x] back (a null [x] reads as a missing member), the
    other members read as before, and the object keeps its key order. *)
Theorem subscript_assign_then_read :
  forall (v : jsonElement) (name : string) (x : jsonElement),
    StdMap.wf string_cmp (objectOf v) ->
    let v' := subscript_assign v name x in
    subscript_const v' name
      = (if isNull x then Throw (CString "element not found") else Ok x)
    /\ has v' name = negb (isNull x)
    /\ (forall other, other <> name ->
          subscript_const v' other = subscript_const v other
          /\ has v' other = has v other)
    /\ StdMap.wf string_cmp (objectOf v').
Proof.
  intros v name x Hwf v'. subst v'. unfold subscript_assign.
  assert (Hself : StdMap.find string_cmp name
                    (StdMap.assign string_cmp name x (objectOf v)) = Some x).
  { rewrite (string_find_assign _ _ _ _ Hwf). now rewrite String.eqb_refl. }
  assert (Hother : forall other, other <> name ->
            StdMap.find string_cmp other (StdMap.assign string_cmp name x (objectOf v))
            = StdMap.find string_cmp other (objectOf v)).
  { intros other Hne. rewrite (string_find_assign _ _ _ _ Hwf).
    now rewrite (proj2 (String.eqb_neq other name) Hne). }
  repeat split.
  - cbn [subscript_const]. rewrite Hself. reflexivity.
  - rewrite has_find, Hself. reflexivity.
  - cbn [subscript_const]. rewrite (Hother other H). now destruct v.
  - rewrite has_find, (Hother other H). now destruct v.
  - cbn [objectOf]. now apply string_assign_wf.
Qed.

Lemma subscript_assign_then_read_witness :
  let v := JObject [("a", JInt 1); ("c", JBool true)] in
  let v' := subscript_assign v "b" (JString "x") in
  subscript_const v' "b"
    = (if isNull (JString "x") then Throw (CString "element not found") else Ok (JString "x"))
  /\ has v' "b" = negb (isNull (JString "x"))
  /\ (forall other, other <> "b" ->
        subscript_const v' other = subscript_const v other
        /\ has v' other = has v other)
  /\ StdMap.wf string_cmp (objectOf v').
Proof.
  apply (subscript_assign_then_read
           (JObject [("a", JInt 1); ("c", JBool true)]) "b" (JString "x")).
  repeat constructor.
Defined.

Lemma insert_length_absent {V : Type} (k : string) (v : V) (m : list (string * V)) :
  StdMap.find string_cmp k m = None ->
  List.length (StdMap.insert string_cmp k v m) = S (List.length m).
Proof.
  induction m as [|[k0 v0] m IH]; simpl; [reflexivity|].
  destruct (string_cmp k k0); intros H; simpl; [discriminate | reflexivity | now rewrite IH].
Qed.

(** X4.  Looking a member up through the mutable [operator[]] stores a null
    member under a name the object does not hold: [has] answers for every
    name as it did before, but [size] counts one member more. *)
Theorem subscript_name_stores_null :
  forall (v : jsonElement) (name : string),
    StdMap.wf string_cmp (objectOf v) ->
    let x := fst (subscript_name v name) in
    let v' := snd (subscript_name v name) in
    (forall other, has v' other = has v other)
    /\ subscript_const v' name = subscript_const v name
    /\ (StdMap.find string_cmp name (objectOf v) = None ->
        x = JNull
        /\ size v' = Ok (S (List.length (objectOf v)))
        /\ StdMap.find string_cmp name (objectOf v') = Some JNull)
    /\ (forall y, StdMap.find string_cmp name (objectOf v) = Some y ->
        x = y /\ v' = JObject (objectOf v)).
Proof.
  intros v name Hwf x v'. subst x v'. unfold subscript_name.
  destruct (StdMap.find string_cmp name (objectOf v)) as [y|] eqn:E; cbn [fst snd].
  - repeat split; try discriminate.
    + intros other. now destruct v.
    + now destruct v.
    + congruence.
  - assert (Hfind : forall other,
              StdMap.find string_cmp other (StdMap.insert string_cmp name JNull (objectOf v))
              = match StdMap.find string_cmp other (objectOf v) with
                | Some z => Some z
                | None => if (other =? name)%string then Some JNull else None
                end).
    { intros other. now apply string_find_insert. }
    repeat split; try discriminate.
    + intros other. rewrite has_find, Hfind.
      assert (Hv : has v other = match StdMap.find string_cmp other (objectOf v) with
                                 | Some z => negb (isNull z)
                                 | None => false
                                 end) by now destruct v.
      rewrite Hv. destruct (StdMap.find string_cmp other (objectOf v)); [reflexivity|].
      now destruct (other =? name)%string.
    + cbn [subscript_const]. rewrite Hfind, E, String.eqb_refl. cbn [isNull].
      assert (Hv : subscript_const v name = Throw (CString "element not found")).
      { destruct v; try reflexivity. cbn [objectOf] in E. cbn [subscript_const]. now rewrite E. }
      now rewrite Hv.
    + cbn [size]. now rewrite (insert_length_absent _ _ _ E).
    + cbn [objectOf]. now rewrite Hfind, E, String.eqb_refl.
Qed.

Lemma subscript_name_stores_null_witness :
  let v := JObject [("a", JInt 1)] in
  let x := fst (subscript_name v "b") in
  let v' := snd (subscript_name v "b") in
  (forall other, has v' other = has v other)
  /\ subscript_const v' "b" = subscript_const v "b"
  /\ (StdMap.find string_cmp "b" (objectOf v) = None ->
      x = JNull
      /\ size v' = Ok (S (List.length (objectOf v)))
      /\ StdMap.find string_cmp "b" (objectOf v') = Some JNull)
  /\ (forall y, StdMap.find string_cmp "b" (objectOf v) = Some y ->
      x = y /\ v' = JObject (objectOf v)).
Proof.
  apply (subscript_name_stores_null (JObject [("a", JInt 1)]) "b").
  repeat constructor.
Defined.

(** *** Arrays *)

(** X5.  [makeArray] may be applied again to its result; [makeObject] may
    not: it accepts the null value only (as a value is after [clear]), and
    throws on an object, its own result included. *)
Theorem makeObject_accepts_only_null :
  forall v : jsonElement,
    (forall r, makeObject v = Ok r <-> v = JNull /\ r = JObject [])
    /\ (r <- makeObject v ;; makeObject r) = Throw (CString "cannot be made an array")
    /\ makeObject (clear v) = Ok (JObject [])
    /\ (r <- makeArray v ;; makeArray r) = makeArray v
    /\ (forall r, makeArray v = Ok r <-> (isNull v || isArray v = true) /\ r = JArray (arrayOf v)).
Proof.
  intros v. split; [|split; [|split; [|split]]].
  - intros r. split.
    + destruct v; simpl; intros H; try discriminate H. inversion H. now split.
    + intros [-> ->]. reflexivity.
  - destruct v; reflexivity.
  - reflexivity.
  - destruct v; reflexivity.
  - intros r. split.
    + destruct v; simpl; intros H; try discriminate H; inversion H; now split.
    + intros [Hv ->]. destruct v; simpl in *; try discriminate Hv; reflexivity.
Qed.

(** X6.  [push_back] on an array (or on null, which becomes one) appends: the
    size grows by one, the element is read back at the old size, and the
    elements before it are untouched. *)
Theorem push_back_then_read :
  forall (v elem : jsonElement),
    isNull v || isArray v = true ->
    Z.of_nat (List.length (arrayOf v)) < 2 ^ 64 ->
    exists v',
      push_back v elem = Ok v'
      /\ size v' = Ok (S (List.length (arrayOf v)))
      /\ subscript_index_const v' (Z.of_nat (List.length (arrayOf v))) = Ok elem
      /\ forall i x, nth_error (arrayOf v) i = Some x ->
                     subscript_index_const v' (Z.of_nat i) = Ok x.
Proof.
  intros v elem Hv Hlen.
  exists (JArray (arrayOf v ++ [elem])%list).
  assert (Hsize : forall n : nat, Z.of_nat n < 2 ^ 64 ->
                    Z.to_nat (to_size_t (Z.of_nat n)) = n).
  { intros n Hn. unfold to_size_t. rewrite Z.mod_small by lia. apply Nat2Z.id. }
  repeat split.
  - destruct v; try discriminate Hv; reflexivity.
  - cbn [size]. rewrite length_app. simpl. f_equal. lia.
  - cbn [subscript_index_const]. rewrite (Hsize _ Hlen).
    rewrite nth_error_app2 by lia. now rewrite Nat.sub_diag.
  - intros i x Hi. cbn [subscript_index_const].
    assert (Hlt : (i < List.length (arrayOf v))%nat).
    { apply nth_error_Some. congruence. }
    rewrite Hsize by lia. rewrite nth_error_app1 by exact Hlt. now rewrite Hi.
Qed.

Lemma push_back_then_read_witness :
  exists v',
    push_back (JArray [JInt 1; JInt 2]) (JString "x") = Ok v'
    /\ size v' = Ok (S (List.length (arrayOf (JArray [JInt 1; JInt 2]))))
    /\ subscript_index_const v'
         (Z.of_nat (List.length (arrayOf (JArray [JInt 1; JInt 2])))) = Ok (JString "x")
    /\ forall i x, nth_error (arrayOf (JArray [JInt 1; JInt 2])) i = Some x ->
                   subscript_index_const v' (Z.of_nat i) = Ok x.
Proof.
  apply (push_back_then_read (JArray [JInt 1; JInt 2]) (JString "x")).
  - reflexivity.
  - simpl. lia.
Defined.

(** X7.  [emplace_back] does what [push_back] does wherever [push_back]
    returns; on any other value [push_back] throws and leaves it alone, while
    [emplace_back] drops the value and leaves an array of the one element. *)
Theorem emplace_back_replaces :
  forall (v elem : jsonElement),
    (forall v', push_back v elem = Ok v' -> emplace_back v elem = v')
    /\ (isNull v || isArray v = false ->
        push_back v elem = Throw (CString "cannot be made an array")
        /\ emplace_back v elem = JArray [elem]).
Proof.
  intros v elem. split.
  - destruct v; simpl; intros v' H; try discriminate H; now inversion H.
  - destruct v; simpl; intros H; try discriminate H; split; reflexivity.
Qed.

(** *** The reference accessors *)


(** X9.  The reference accessor for [std::string] never returns on an
    integer: it throws [std::bad_variant_access] and leaves a double in the
    object, so that a second call returns the empty string.  On every other
    value it returns the string held, or empties the object. *)
Theorem ref_string_on_integer :
  forall v : jsonElement,
    (forall z, v = JInt z ->
       ref_string v = (Throw (StdException "bad_variant_access"), JDouble (double_of_int64 z))
       /\ ref_string (snd (ref_string v)) = (Ok "", JString ""))
    /\ (isInteger v = false ->
        exists s, ref_string v = (Ok s, JString s)
                  /\ (to_string v = Ok s \/ (isString v = false /\ s = ""))).
Proof.
  intros v. split.
  - intros z ->. split; reflexivity.
  - destruct v as [ | z | d | s | obj | arr | b | ]; intros H; try discriminate H;
      try (exists ""; split; [reflexivity | right; split; reflexivity]).
    exists s. split; [reflexivity | left; reflexivity].
Qed.

End ValueFacts.

(** ** The parser on arbitrary input *)
Section ParserFacts.
Import Json Spec.

(** More fuel than enough does not change the result. *)
Lemma parse_fuel_mono (fuel : nat) :
  (forall str r, jsonElement_parse fuel str = Some r ->
     forall fuel', (fuel <= fuel')%nat -> jsonElement_parse fuel' str = Some r)
  /\ (forall first obj str r, parse_object fuel first obj str = Some r ->
        forall fuel', (fuel <= fuel')%nat -> parse_object fuel' first obj str = Some r)
  /\ (forall first arr str r, parse_array fuel first arr str = Some r ->
        forall fuel', (fuel <= fuel')%nat -> parse_array fuel' first arr str = Some r).
Proof.
  induction fuel as [|f [IHv [IHo IHa]]].
  - repeat split; intros; discriminate.
  - split; [|split].
    + intros str r H [|f'] Hle; [lia|]. assert (Hf : (f <= f')%nat) by lia.
      cbn [jsonElement_parse] in *.
      destruct (peek (skipSpace str) =? "{")%char; [now apply (IHo _ _ _ _ H)|].
      destruct (peek (skipSpace str) =? "[")%char; [now apply (IHa _ _ _ _ H)|].
      exact H.
    + intros first obj str r H [|f'] Hle; [lia|]. assert (Hf : (f <= f')%nat) by lia.
      cbn [parse_object] in *.
      destruct (peek (skipSpace str) =? "}")%char; [exact H|].
      destruct (object_separator first (skipSpace str)) as [[[|] s1]| |]; try exact H.
      destruct (parse_name s1) as [[name s2]| |]; try exact H.
      destruct (negb (peek (skipSpace s2) =? ":")%char); [exact H|].
      destruct (jsonElement_parse f (skipSpace (advance (skipSpace s2))))
        as [[[x s3]| |]|] eqn:E; try discriminate H;
        rewrite (IHv _ _ E _ Hf); [|exact H|exact H].
      now apply (IHo _ _ _ _ H).
    + intros first arr str r H [|f'] Hle; [lia|]. assert (Hf : (f <= f')%nat) by lia.
      cbn [parse_array] in *.
      destruct (peek (skipSpace str) =? "]")%char; [exact H|].
      destruct (array_separator first (skipSpace str)) as [s1| |]; try exact H.
      destruct (jsonElement_parse f s1) as [[[x s3]| |]|] eqn:E; try discriminate H;
        rewrite (IHv _ _ E _ Hf); [|exact H|exact H].
      now apply (IHa _ _ _ _ H).
Qed.

(** X10.  The recursion of the parser ends on every input: a depth of twice
    the length of the text plus one is enough, any greater depth gives the
    same result, and a value that is parsed takes at least one character of
    the text. *)
Theorem jsonElement_parse_terminates :
  forall (str : string) (fuel : nat),
    (2 * String.length str + 1 <= fuel)%nat ->
    exists r,
      jsonElement_parse (2 * String.length str + 1) str = Some r
      /\ jsonElement_parse fuel str = Some r
      /\ forall x rest, r = Ok (x, rest) -> (String.length rest < String.length str)%nat.
Proof.
  intros str fuel Hfuel.
  destruct (proj1 (parse_fuel (2 * String.length str + 1)) str (Nat.le_refl _))
    as [r [Hr Hprogress]].
  exists r. split; [exact Hr|]. split; [|exact Hprogress].
  exact (proj1 (parse_fuel_mono _) _ _ Hr _ Hfuel).
Qed.

Lemma jsonElement_parse_terminates_witness :
  exists r,
    jsonElement_parse (2 * String.length "[1, 2]" + 1) "[1, 2]" = Some r
    /\ jsonElement_parse 100 "[1, 2]" = Some r
    /\ forall x rest, r = Ok (x, rest) ->
                      (String.length rest < String.length "[1, 2]")%nat.
Proof. apply (jsonElement_parse_terminates "[1, 2]" 100). simpl. lia. Defined.

(** *** White space before the value *)


Lemma skipSpace_app (ws str : string) :
  all_space ws = true -> skipSpace (ws ++ str) = skipSpace str.
Proof.
  induction ws as [|c ws IH]; simpl; [reflexivity|].
  intros H. apply andb_prop in H. destruct H as [Hc Hws]. rewrite Hc. now apply IH.
Qed.

Lemma skipSpace_idem (str : string) : skipSpace (skipSpace str) = skipSpace str.
Proof.
  induction str as [|c str IH]; simpl; [reflexivity|].
  destruct (isSpace c) eqn:E; [exact IH|]. simpl. now rewrite E.
Qed.
End ParserFacts.



Section ParserShape.
Import Json Spec.

Lemma ascendingb_iff (ks : list string) :
  ascendingb ks = true <-> StdMap.ascending string_cmp ks.
Proof.
  induction ks as [|k ks IH]; simpl.
  - split; [constructor | reflexivity].
  - rewrite andb_true_iff, IH, forallb_forall. split.
    + intros [H1 H2]. constructor; [|exact H2].
      apply Forall_forall. intros k' Hk'. specialize (H1 k' Hk').
      now destruct (string_cmp k k').
    + intros H. inversion H as [|? ? H1 H2]; subst. split; [|exact H2].
      intros k' Hk'. now rewrite (proj1 (Forall_forall _ _) H1 k' Hk').
Qed.

Lemma assign_forallb {V : Type} (P : string * V -> bool) (k : string) (v : V)
  (m : list (string * V)) :
  (forall k1 k2 x, string_cmp k1 k2 = Eq -> P (k1, x) = P (k2, x)) ->
  P (k, v) = true -> forallb P m = true ->
  forallb P (StdMap.assign string_cmp k v m) = true.
Proof.
  intros Hkey Hv. induction m as [|[k0 v0] m IH]; simpl; intros H.
  - now rewrite Hv.
  - apply andb_prop in H. destruct H as [H0 Hm].
    destruct (string_cmp k k0) eqn:E; simpl.
    + rewrite <- (Hkey _ _ v E), Hv. exact Hm.
    + now rewrite Hv, H0, Hm.
    + now rewrite H0, IH.
Qed.

Lemma assign_shape (name : string) (x : jsonElement) (obj : objectType) :
  parsed_shape x = true -> parsed_shape (JObject obj) = true ->
  parsed_shape (JObject (StdMap.assign string_cmp name x obj)) = true.
Proof.
  cbn [parsed_shape]. intros Hx H. apply andb_prop in H. destruct H as [Hm Hasc].
  apply andb_true_intro. split.
  - apply assign_forallb; [reflexivity | exact Hx | exact Hm].
  - apply ascendingb_iff. apply ascendingb_iff in Hasc.
    now apply (string_assign_wf name x obj).
Qed.

Lemma push_shape (x : jsonElement) (arr : arrayType) :
  parsed_shape x = true -> parsed_shape (JArray arr) = true ->
  parsed_shape (JArray (arr ++ [x])) = true.
Proof.
  cbn [parsed_shape]. intros Hx H. rewrite forallb_app, H. simpl. now rewrite Hx.
Qed.

Lemma stoll_range (v : string) (z : Z) : stoll v = Ok z -> int64_range z = true.
Proof.
  unfold stoll, int64_range. destruct (signed_digits v) as [[negative n]|]; [|discriminate].
  destruct ((_ <? _) || (_ <? _)) eqn:E; [discriminate|].
  intros H. inversion H; subst. apply orb_false_elim in E. destruct E as [E1 E2].
  apply Z.ltb_ge in E1. apply Z.ltb_ge in E2.
  apply andb_true_intro. split; now apply Z.leb_le.
Qed.

(** What the three loops return, by induction on the depth. *)
Lemma parse_shape (fuel : nat) :
  (forall str x rest,
      jsonElement_parse fuel str = Some (Ok (x, rest)) -> parsed_shape x = true)
  /\ (forall first obj str x rest,
         parse_object fuel first obj str = Some (Ok (x, rest)) ->
         parsed_shape (JObject obj) = true -> parsed_shape x = true)
  /\ (forall first arr str x rest,
         parse_array fuel first arr str = Some (Ok (x, rest)) ->
         parsed_shape (JArray arr) = true -> parsed_shape x = true).
Proof.
  induction fuel as [|f [IHv [IHo IHa]]].
  - repeat split; intros; discriminate.
  - split; [|split].
    + intros str x rest. cbn [jsonElement_parse].
      set (s := skipSpace str).
      destruct (peek s =? "{")%char; [intros H; now apply (IHo _ _ _ _ _ H)|].
      destruct (peek s =? "[")%char; [intros H; now apply (IHa _ _ _ _ _ H)|].
      destruct (peek s =? dquote)%char.
      { destruct (stringBody (advance s)) as [v r].
        destruct (peek r =? NUL)%char; intros H; inversion H; reflexivity. }
      destruct (isNumB (peek s)).
      { pose proof (lexNumber_never_float s) as Hf.
        destruct (lexNumber s) as [[v isFloat] r]. simpl in Hf. subst isFloat.
        destruct (stoll v) as [z| |] eqn:E; simpl; intros H; inversion H; subst.
        exact (stoll_range _ _ E). }
      destruct (prefix "true" s); [intros H; inversion H; reflexivity|].
      destruct (prefix "false" s); [intros H; inversion H; reflexivity|].
      destruct (prefix "null" s); intros H; inversion H; reflexivity.
    + intros first obj str x rest. cbn [parse_object].
      set (s := skipSpace str).
      destruct (peek s =? "}")%char; [intros H Hobj; inversion H; now subst|].
      destruct (object_separator first s) as [[[|] s1]| |]; try discriminate.
      { intros H Hobj; inversion H; now subst. }
      destruct (parse_name s1) as [[name s2]| |]; try discriminate.
      destruct (negb (peek (skipSpace s2) =? ":")%char); [discriminate|].
      destruct (jsonElement_parse f (skipSpace (advance (skipSpace s2))))
        as [[[y s3]| |]|] eqn:E; try discriminate.
      intros H Hobj. apply (IHo _ _ _ _ _ H).
      apply assign_shape; [exact (IHv _ _ _ E) | exact Hobj].
    + intros first arr str x rest. cbn [parse_array].
      set (s := skipSpace str).
      destruct (peek s =? "]")%char; [intros H Harr; inversion H; now subst|].
      destruct (array_separator first s) as [s1| |]; try discriminate.
      destruct (jsonElement_parse f s1) as [[[y s3]| |]|] eqn:E; try discriminate.
      intros H Harr. apply (IHa _ _ _ _ _ H).
      apply push_shape; [exact (IHv _ _ _ E) | exact Harr].
Qed.

(** X11.  What [jsonParser] returns is built from null, booleans, integers of
    the 64-bit range, strings, arrays and objects whose keys ascend strictly:
    no text is read as a double, whatever it holds. *)
Theorem jsonParser_never_double :
  forall (str : string) (v : jsonElement),
    jsonParser str = Ok v -> parsed_shape v = true.
Proof.
  intros str v. unfold jsonParser.
  destruct (jsonElement_parse (2 * String.length str + 1) str) as [[[x rest]| |]|] eqn:E;
    try discriminate.
  destruct (peek (skipSpace rest) =? NUL)%char; [|discriminate].
  intros H. inversion H; subst. exact (proj1 (parse_shape _) _ _ _ E).
Qed.

Lemma jsonParser_never_double_witness :
  parsed_shape (JObject [("a", JArray [JInt 1; JBool true]); ("b", JNull)]) = true.
Proof.
  apply (jsonParser_never_double "{ b : null, a : [1, true] }").
  vm_compute. reflexivity.
Defined.
End ParserShape.



Section RoundTripAs.
Import Json Spec.

Lemma isSymbolB_facts (c : ascii) :
  isSymbolB c = true ->
  isSpace c = false /\ (c =? "}")%char = false /\ (c =? dquote)%char = false
  /\ isSymbol c = true /\ (c =? ",")%char = false /\ (c =? NUL)%char = false.
Proof.
  each_char c; vm_compute; intros H; try discriminate H; repeat split.
Qed.

Lemma symbolName_name (name rest : string) :
  symbol_chars name = true -> isSymbolB (peek rest) = false ->
  symbolName (name ++ rest) = (name, rest).
Proof.
  intros Hname Hrest. induction name as [|c name IH].
  - destruct rest as [|d rest]; [reflexivity|].
    cbn [peek] in Hrest. cbn [append symbolName]. now rewrite Hrest.
  - cbn [symbol_chars] in Hname. apply andb_prop in Hname. destruct Hname as [Hc Hname].
    cbn [append symbolName]. now rewrite Hc, (IH Hname).
Qed.

Lemma parse_name_as (q : bool) (name tail : string) :
  name_ok_as q name = true ->
  parse_name (serialize_name q name ++ String ":" tail) = Ok (name, String ":" tail).
Proof.
  destruct q; cbn [name_ok_as serialize_name]; intros H.
  - cbn [append]. rewrite append_assoc. cbn [append].
    unfold parse_name. cbn [peek advance].
    change (dquote =? dquote)%char with true. cbv iota.
    rewrite (quotedName_name _ _ H). reflexivity.
  - apply andb_prop in H. destruct H as [Hsym Hne].
    destruct name as [|c name]; [discriminate Hne|].
    pose proof Hsym as Hc. cbn [symbol_chars] in Hc. apply andb_prop in Hc.
    destruct Hc as [Hc _].
    destruct (isSymbolB_facts c Hc) as (_ & _ & Hq & Hs & _).
    unfold parse_name. cbn [append peek]. rewrite Hq, Hs. cbn [negb].
    change (String c (name ++ String ":" tail)) with (String c name ++ String ":" tail).
    now rewrite (symbolName_name (String c name) (String ":" tail) Hsym eq_refl).
Qed.

Lemma serialize_name_head (q : bool) (name : string) :
  name_ok_as q name = true ->
  exists c s, serialize_name q name = String c s
              /\ isSpace c = false /\ (c =? "}")%char = false.
Proof.
  destruct q; cbn [name_ok_as serialize_name]; intros H.
  - eexists; eexists. repeat split.
  - apply andb_prop in H. destruct H as [Hsym Hne].
    destruct name as [|c name]; [discriminate Hne|].
    cbn [symbol_chars] in Hsym. apply andb_prop in Hsym. destruct Hsym as [Hc _].
    destruct (isSymbolB_facts c Hc) as (H1 & H2 & _).
    exists c, name. repeat split; assumption.
Qed.

(** One member: the separator, the name and the colon are read, and the
    value is parsed from what follows. *)
Lemma parse_member (q : bool) (name tail : string) (first : bool) (acc : objectType)
  (f : nat) :
  name_ok_as q name = true ->
  parse_object (S f) first acc
    ((if first then "" else ",") ++ serialize_name q name ++ String ":" tail)
  = match jsonElement_parse f (skipSpace tail) with
    | Some (Ok (y, str)) => parse_object f false (StdMap.assign string_cmp name y acc) str
    | other => other
    end.
Proof.
  intros Hname.
  pose proof (parse_name_as q name tail Hname) as Hparse.
  destruct (serialize_name_head q name Hname) as [c [s [E [Hsp Hbrace]]]].
  rewrite E in *. cbn [append] in *.
  destruct first.
  - cbn [append parse_object skipSpace]. rewrite Hsp. cbn [peek]. rewrite Hbrace.
    unfold object_separator. rewrite Hparse.
    cbn [skipSpace]. known (isSpace ":") false.
    cbn [peek advance]. known (negb (":" =? ":")%char) false. reflexivity.
  - cbn [append parse_object skipSpace].
    known (isSpace ",") false. cbn [peek].
    change ("," =? "}")%char with false. cbv iota.
    unfold object_separator. cbn [peek advance].
    known (negb ("," =? ",")%char) false.
    cbn [skipSpace]. rewrite Hsp. cbn [peek]. rewrite Hbrace.
    rewrite Hparse.
    cbn [skipSpace]. known (isSpace ":") false.
    cbn [peek advance]. known (negb (":" =? ":")%char) false. reflexivity.
Qed.

Lemma serialize_head_as (q : bool) (v : jsonElement) :
  wire_ok_as q v = true ->
  exists c s, serialize q v = String c s
              /\ isSpace c = false /\ (c =? "]")%char = false.
Proof.
  destruct v as [ | z | d | s | obj | arr | b | ]; intros H; try discriminate H.
  - exists "n"%char, "ull". repeat split.
  - destruct (to_string_int64_head z) as [c [s [E [Hc|Hc]]]]; exists c, s.
    + destruct (isdigit_facts c Hc) as (_ & _ & H1 & _ & _ & _ & _ & _ & _ & _ & _ & H2 & _).
      repeat split; assumption.
    + subst c. repeat split. exact E.
  - eexists; eexists. simpl. repeat split.
  - rewrite serialize_object. eexists; eexists. repeat split.
  - rewrite serialize_array. eexists; eexists. repeat split.
  - destruct b; eexists; eexists; simpl; repeat split.
Qed.

Lemma skipSpace_head (c : ascii) (s : string) :
  isSpace c = false -> skipSpace (String c s) = String c s.
Proof. intros H. simpl. now rewrite H. Qed.

Lemma serialize_elements_head_as (q : bool) (l : arrayType) (rest : string) :
  isNum (peek (serialize_elements q false l ++ rest)) = false.
Proof. destruct l; reflexivity. Qed.

Lemma serialize_members_head_as (q : bool) (l : objectType) (rest : string) :
  isNum (peek (serialize_members q false l ++ rest)) = false.
Proof. destruct l as [|[name x] l]; reflexivity. Qed.

Lemma serialize_elements_length_as (q first : bool) (x : jsonElement) (l : arrayType) :
  String.length (serialize_elements q first (x :: l))
    = ((if first then 0 else 1) + String.length (serialize q x)
       + String.length (serialize_elements q false l))%nat.
Proof.
  cbn [serialize_elements]. rewrite !length_append.
  destruct first; cbn [String.length]; lia.
Qed.

Lemma serialize_members_length_as (q first : bool) (name : string) (x : jsonElement)
  (l : objectType) :
  String.length (serialize_members q first ((name, x) :: l))
    = ((if first then 0 else 1) + (String.length (serialize_name q name) + 1)
       + String.length (serialize q x)
       + String.length (serialize_members q false l))%nat.
Proof.
  cbn [serialize_members]. rewrite !length_append.
  cbn [String.length]. rewrite ?length_append.
  destruct first; cbn [String.length]; lia.
Qed.

Lemma parse_elements_as (q : bool) (l : arrayType) :
  Forall (fun x =>
            wire_ok_as q x = true ->
            forall fuel rest,
              (2 * String.length (serialize q x) + 1 <= fuel)%nat ->
              isNum (peek rest) = false ->
              jsonElement_parse fuel (serialize q x ++ rest)
                = Some (Ok (read_back x, rest))) l ->
  forallb (wire_ok_as q) l = true ->
  forall fuel first acc rest,
    (2 * String.length (serialize_elements q first l) + 2 <= fuel)%nat ->
    parse_array fuel first acc (serialize_elements q first l ++ rest)
      = Some (Ok (JArray (acc ++ map read_back l), rest)).
Proof.
  induction 1 as [|x l Hx _ IH]; intros Hok fuel first acc rest Hfuel.
  - destruct fuel as [|f]; [simpl in Hfuel; lia|].
    simpl. now rewrite app_nil_r.
  - simpl in Hok. apply andb_prop in Hok. destruct Hok as [Hokx Hokl].
    rewrite serialize_elements_length_as in Hfuel.
    destruct (serialize_head_as q x Hokx) as [c [s [E (Hsp & Hket)]]].
    assert (Hlen : (1 <= String.length (serialize q x))%nat)
      by (rewrite E; simpl; lia).
    destruct fuel as [|f]; [lia|].
    assert (Hstep :
              parse_array (S f) first acc (serialize_elements q first (x :: l) ++ rest)
              = match jsonElement_parse f
                        (serialize q x ++ serialize_elements q false l ++ rest) with
                | Some (Ok (y, str)) => parse_array f false (acc ++ [y])%list str
                | other => other
                end).
    { cbn [serialize_elements]. rewrite !append_assoc.
      destruct first.
      - cbn [append]. rewrite E. cbn [append parse_array skipSpace]. rewrite Hsp.
        cbn [peek]. rewrite Hket. reflexivity.
      - cbn [append parse_array skipSpace].
        known (isSpace ",") false. cbn [peek].
        change ("," =? "]")%char with false. cbv iota.
        unfold array_separator. cbn [peek advance].
        known (negb ("," =? ",")%char) false.
        rewrite E. cbn [append skipSpace]. rewrite Hsp. reflexivity. }
    rewrite Hstep.
    rewrite (Hx Hokx f _); [| lia | apply serialize_elements_head_as].
    rewrite (IH Hokl f false (acc ++ [read_back x])%list rest); [| lia].
    simpl. now rewrite <- app_assoc.
Qed.

Lemma parse_members_as (q : bool) (l : objectType) :
  Forall (fun member =>
            wire_ok_as q (snd member) = true ->
            forall fuel rest,
              (2 * String.length (serialize q (snd member)) + 1 <= fuel)%nat ->
              isNum (peek rest) = false ->
              jsonElement_parse fuel (serialize q (snd member) ++ rest)
                = Some (Ok (read_back (snd member), rest))) l ->
  forallb (fun member =>
             match member with (name, x) => name_ok_as q name && wire_ok_as q x end) l
    = true ->
  forall fuel first acc rest,
    (2 * String.length (serialize_members q first l) + 2 <= fuel)%nat ->
    parse_object fuel first acc (serialize_members q first l ++ rest)
      = Some (Ok (JObject
                    (fold_left assign_member
                       (map (fun member =>
                               match member with (name, x) => (name, read_back x) end) l)
                       acc),
                  rest)).
Proof.
  induction 1 as [|[name x] l Hx _ IH]; intros Hok fuel first acc rest Hfuel.
  - destruct fuel as [|f]; [simpl in Hfuel; lia|]. reflexivity.
  - simpl in Hx.
    cbn [forallb] in Hok. apply andb_prop in Hok. destruct Hok as [Hokx Hokl].
    apply andb_prop in Hokx. destruct Hokx as [Hname Hokx].
    rewrite serialize_members_length_as in Hfuel.
    destruct (serialize_head_as q x Hokx) as [c [s [E (Hsp & _)]]].
    assert (Hlen : (1 <= String.length (serialize q x))%nat)
      by (rewrite E; simpl; lia).
    destruct fuel as [|f]; [lia|].
    assert (Htext : serialize_members q first ((name, x) :: l) ++ rest
                    = (if first then "" else ",") ++ serialize_name q name
                        ++ String ":" (serialize q x ++ serialize_members q false l ++ rest)).
    { cbn [serialize_members]. rewrite !append_assoc. reflexivity. }
    rewrite Htext, (parse_member q name _ first acc f Hname).
    rewrite E at 1. cbn [append]. rewrite (skipSpace_head c _ Hsp).
    change (String c (s ++ serialize_members q false l ++ rest))
      with (String c s ++ serialize_members q false l ++ rest).
    rewrite <- E.
    rewrite (Hx Hokx f _); [| lia | apply serialize_members_head_as].
    rewrite (IH Hokl f false _ rest); [reflexivity | lia].
Qed.

Lemma parse_serialized_as (q : bool) (v : jsonElement) :
  wire_ok_as q v = true ->
  forall fuel rest,
    (2 * String.length (serialize q v) + 1 <= fuel)%nat ->
    isNum (peek rest) = false ->
    jsonElement_parse fuel (serialize q v ++ rest) = Some (Ok (read_back v, rest)).
Proof.
  induction v as [ | z | d | s | obj IH | arr IH | b | ] using jsonElement_induction;
    intros Hok fuel rest Hfuel Hrest; try discriminate Hok.
  - destruct fuel as [|f]; [lia|]. cbn. now rewrite prefix_nil.
  - destruct fuel as [|f]; [lia|].
    cbn [serialize read_back wire_ok_as] in *.
    assert (Hstep : jsonElement_parse (S f) (to_string_int64 z ++ rest)
                    = match lexNumber (to_string_int64 z ++ rest) with
                      | (v, true, rest) => Some (d <- stod v ;; Ok (JDouble d, rest))
                      | (v, false, rest) => Some (z <- stoll v ;; Ok (JInt z, rest))
                      end).
    { destruct (to_string_int64_head z) as [c [s [E [Hc|Hc]]]]; rewrite E.
      - destruct (isdigit_facts c Hc)
          as (_ & HnumB & Hsp & _ & _ & _ & _ & _ & Hbrace & Hbracket & Hquote & _).
        cbn [append jsonElement_parse skipSpace]. rewrite Hsp. cbn [peek].
        now rewrite Hbrace, Hbracket, Hquote, HnumB.
      - subst c. reflexivity. }
    rewrite Hstep, (lexNumber_to_string z rest Hrest), (stoll_to_string z Hok).
    reflexivity.
  - destruct fuel as [|f]; [lia|].
    cbn [serialize read_back append]. rewrite append_assoc. cbn [append].
    cbn [jsonElement_parse skipSpace].
    known (isSpace dquote) false. cbn [peek advance].
    change (dquote =? "{")%char with false.
    change (dquote =? "[")%char with false.
    change (dquote =? dquote)%char with true. cbv iota.
    rewrite stringBody_serialized. reflexivity.
  - rewrite serialize_object in *. cbn [String.length] in Hfuel.
    destruct fuel as [|f]; [lia|].
    cbn [wire_ok_as] in Hok.
    cbn [append jsonElement_parse skipSpace].
    known (isSpace "{") false. cbn [peek advance].
    change ("{" =? "{")%char with true. cbv iota.
    rewrite (parse_members_as q obj IH Hok f true [] rest); [reflexivity | lia].
  - rewrite serialize_array in *. cbn [String.length] in Hfuel.
    destruct fuel as [|f]; [lia|].
    cbn [wire_ok_as] in Hok.
    cbn [append jsonElement_parse skipSpace].
    known (isSpace "[") false. cbn [peek advance].
    change ("[" =? "{")%char with false.
    change ("[" =? "[")%char with true. cbv iota.
    rewrite (parse_elements_as q arr IH Hok f true [] rest); [reflexivity | lia].
  - destruct fuel as [|f]; [lia|]. destruct b; cbn; now rewrite prefix_nil.
Qed.

(** Members that stand in key order are appended one after the other. *)
Lemma fold_assign_ordered (l acc : objectType) :
  ascendingb (map fst l) = true ->
  Forall (fun member => Forall (fun k => string_cmp (fst member) k = Lt) (map fst l)) acc ->
  fold_left assign_member l acc = (acc ++ l)%list.
Proof.
  revert acc. induction l as [|[name x] l IH]; intros acc Hasc Hacc; simpl.
  - now rewrite app_nil_r.
  - cbn [map fst ascendingb] in Hasc. apply andb_prop in Hasc. destruct Hasc as [Hlt Hasc].
    unfold assign_member at 2. cbn [fst snd]. rewrite assign_last.
    + rewrite IH; [now rewrite <- app_assoc | exact Hasc |].
      apply Forall_app. split.
      * eapply Forall_impl; [|exact Hacc]. intros member Hm. cbn [map fst] in Hm.
        now inversion Hm.
      * constructor; [|constructor]. cbn [fst].
        apply Forall_forall. intros k Hk.
        rewrite forallb_forall in Hlt. specialize (Hlt k Hk).
        now destruct (string_cmp name k).
    + eapply Forall_impl; [|exact Hacc]. intros member Hm. cbn [map fst] in Hm.
      now inversion Hm.
Qed.

Lemma read_back_ordered (v : jsonElement) :
  wire_ok v = true -> read_back v = returned v.
Proof.
  induction v as [ | z | d | s | obj IH | arr IH | b | ] using jsonElement_induction;
    intros H; try reflexivity.
  - cbn [wire_ok] in H. apply andb_prop in H. destruct H as [Hm Hasc].
    cbn [read_back returned]. f_equal.
    assert (Hmap : map (fun member => match member with (name, x) => (name, read_back x) end) obj
                   = map (fun member => match member with (name, x) => (name, returned x) end) obj).
    { clear Hasc. induction IH as [|[name x] obj Hx _ IHobj]; [reflexivity|].
      cbn [forallb] in Hm. apply andb_prop in Hm. destruct Hm as [Hx' Hm].
      apply andb_prop in Hx'. destruct Hx' as [_ Hx'].
      cbn [map]. cbn [snd] in Hx. now rewrite (Hx Hx'), (IHobj Hm). }
    rewrite Hmap, fold_assign_ordered; [reflexivity | | constructor].
    rewrite map_map.
    assert (Hfst : map (fun member : string * jsonElement =>
                          fst (let (name, x) := member in (name, returned x))) obj
                   = map fst obj).
    { apply map_ext. now intros [name x]. }
    now rewrite Hfst.
  - cbn [wire_ok] in H. cbn [read_back returned]. f_equal.
    induction IH as [|x arr Hx _ IHarr]; [reflexivity|].
    cbn [forallb] in H. apply andb_prop in H. destruct H as [Hx' H].
    cbn [map]. now rewrite (Hx Hx'), (IHarr H).
Qed.

Lemma fold_assign_find (l acc : objectType) :
  StdMap.wf string_cmp acc ->
  StdMap.wf string_cmp (fold_left assign_member l acc)
  /\ forall name,
      StdMap.find string_cmp name (fold_left assign_member l acc)
        = fold_left (fun found member =>
                       if (fst member =? name)%string then Some (snd member) else found)
            l (StdMap.find string_cmp name acc).
Proof.
  revert acc. induction l as [|[k x] l IH]; intros acc Hacc; simpl.
  - split; [exact Hacc | reflexivity].
  - unfold assign_member at 2 4. cbn [fst snd].
    destruct (IH _ (string_assign_wf k x acc Hacc)) as [Hwf Hfind].
    split; [exact Hwf|]. intros name.
    rewrite Hfind, (string_find_assign name k x acc Hacc), (String.eqb_sym k name).
    reflexivity.
Qed.

(** X12.  The text [serialize] writes is read back by the parser in either
    style of member names, quoted or bare.  Each object is rebuilt by
    assigning its members from left to right, a percent-encoded byte comes
    back as the three characters of its encoding; a value in key order whose
    strings are printable comes back as it was. *)
Theorem jsonParser_reads_serialize :
  forall (quoteNames : bool) (v : jsonElement),
    wire_ok_as quoteNames v = true ->
    jsonParser (serialize quoteNames v) = Ok (read_back v)
    /\ (wire_ok v = true -> printable_strings v = true ->
        jsonParser (serialize quoteNames v) = Ok v).
Proof.
  intros q v Hok.
  assert (H : jsonParser (serialize q v) = Ok (read_back v)).
  { unfold jsonParser.
    rewrite <- (append_nil_r (serialize q v)) at 2.
    rewrite (parse_serialized_as q v Hok _ "" (Nat.le_refl _) eq_refl).
    reflexivity. }
  split; [exact H|].
  intros Hord Hp. now rewrite H, (read_back_ordered v Hord), (returned_printable v Hp).
Qed.

Lemma jsonParser_reads_serialize_witness :
  let v := JObject [("alpha", JInt 7); ("beta", JArray [JString "x"; JNull])] in
  jsonParser (serialize false v) = Ok (read_back v)
  /\ (wire_ok v = true -> printable_strings v = true ->
      jsonParser (serialize false v) = Ok v).
Proof.
  apply (jsonParser_reads_serialize false
           (JObject [("alpha", JInt 7); ("beta", JArray [JString "x"; JNull])])).
  reflexivity.
Defined.

(** X13.  An object text may list its members in any order and repeat a
    name: the parser returns the members in key order, and of the members
    with one name the last in the text is the one kept. *)
Theorem jsonParser_repeated_names :
  forall (quoteNames : bool) (members : objectType),
    wire_ok_as quoteNames (JObject members) = true ->
    exists obj,
      jsonParser (serialize quoteNames (JObject members)) = Ok (JObject obj)
      /\ StdMap.wf string_cmp obj
      /\ forall name,
          StdMap.find string_cmp name obj
            = last_member name
                (map (fun member => match member with (n, x) => (n, read_back x) end) members).
Proof.
  intros q members Hok.
  destruct (fold_assign_find
              (map (fun member => match member with (n, x) => (n, read_back x) end) members)
              [] string_map_nil_wf) as [Hwf Hfind].
  eexists. split; [|split; [exact Hwf | exact Hfind]].
  unfold jsonParser.
  rewrite <- (append_nil_r (serialize q (JObject members))) at 2.
  rewrite (parse_serialized_as q _ Hok _ "" (Nat.le_refl _) eq_refl).
  reflexivity.
Qed.

Lemma jsonParser_repeated_names_witness :
  exists obj,
    jsonParser (serialize true (JObject [("b", JInt 1); ("a", JInt 2); ("b", JInt 3)]))
      = Ok (JObject obj)
    /\ StdMap.wf string_cmp obj
    /\ forall name,
        StdMap.find string_cmp name obj
          = last_member name
              (map (fun member => match member with (n, x) => (n, read_back x) end)
                 [("b", JInt 1); ("a", JInt 2); ("b", JInt 3)]).
Proof.
  apply (jsonParser_repeated_names true [("b", JInt 1); ("a", JInt 2); ("b", JInt 3)]).
  reflexivity.
Defined.

End RoundTripAs.



(** ** The registry of a client *)
Section RegistryFacts.
Import Json DabClient Spec.

Lemma string_find_app_slash (c : ascii) (a b : string) :
  string_find c 0 (a ++ String c b) <> None.
Proof.
  induction a as [|d a IH]; cbn [append string_find].
  - now rewrite Ascii.eqb_refl.
  - destruct (d =? c)%char; [discriminate|].
    destruct (string_find c 0 (a ++ String c b)); [discriminate | now elim IH].
Qed.

(** No key of an operation is the key of discovery: a method name starts
    with a slash, and the word has none. *)
Lemma method_key_not_discovery (deviceId name : string) :
  "dab/" ++ deviceId ++ String "/" name <> "dab/discovery".
Proof.
  intros H. cbn [append] in H. inversion H as [H'].
  apply (string_find_app_slash "/" deviceId name). now rewrite H'.
Qed.

Lemma methods_start_with_slash :
  Forall (fun m => exists name, methName m = String "/" name /\ c_string name = name) METHODS.
Proof. repeat constructor; eexists; split; reflexivity. Qed.

Lemma register_wf (deviceId : string) (T : adapter) (ms : list method) (acc : dispatchMapType) :
  StdMap.wf string_cmp acc -> StdMap.wf string_cmp (fold_left (register deviceId T) ms acc).
Proof.
  revert acc. induction ms as [|m ms IH]; intros acc H; simpl; [exact H|].
  apply IH. now apply string_insert_wf.
Qed.

Lemma register_keys (deviceId : string) (T : adapter) (ms : list method)
  (acc : dispatchMapType) (k : string) :
  In k (StdMap.keys (fold_left (register deviceId T) ms acc)) ->
  In k (StdMap.keys acc) \/ exists m, In m ms /\ k = "dab/" ++ deviceId ++ methName m.
Proof.
  revert acc. induction ms as [|m ms IH]; intros acc H; simpl in *; [now left|].
  destruct (IH _ H) as [Hk | [m' [Hm' Hk]]].
  - unfold register in Hk. apply string_insert_keys_in in Hk. destruct Hk as [Hk | Hk].
    + right. exists m. split; [now left | exact Hk].
    + now left.
  - right. exists m'. split; [now right | exact Hk].
Qed.

Lemma cmp_prefixed (deviceId a b : string) :
  string_cmp ("dab/" ++ deviceId ++ a) ("dab/" ++ deviceId ++ b) = string_cmp a b.
Proof.
  rewrite <- (string_cmp_prefix ("dab/" ++ deviceId) a b).
  now rewrite !append_assoc.
Qed.

Lemma insert_prefixed (deviceId k : string) (v : nativeDispatch * bool) (acc : dispatchMapType) :
  StdMap.insert string_cmp ("dab/" ++ deviceId ++ k) v (map (prefixed deviceId) acc)
  = map (prefixed deviceId) (StdMap.insert string_cmp k v acc).
Proof.
  induction acc as [|[k0 v0] acc IH]; [reflexivity|].
  cbn [map StdMap.insert prefixed fst snd]. rewrite cmp_prefixed.
  destruct (string_cmp k k0); [reflexivity | reflexivity |].
  cbn [map prefixed fst snd]. now rewrite IH.
Qed.

Lemma find_prefixed (deviceId k : string) (acc : dispatchMapType) :
  StdMap.find string_cmp ("dab/" ++ deviceId ++ k) (map (prefixed deviceId) acc)
  = StdMap.find string_cmp k acc.
Proof.
  induction acc as [|[k0 v0] acc IH]; [reflexivity|].
  cbn [map StdMap.find prefixed fst snd]. rewrite cmp_prefixed.
  destruct (string_cmp k k0); [reflexivity | exact IH | exact IH].
Qed.

Lemma register_prefixed (deviceId : string) (T : adapter) (ms : list method)
  (acc : dispatchMapType) :
  fold_left (register deviceId T) ms (map (prefixed deviceId) acc)
  = map (prefixed deviceId) (fold_left (register0 T) ms acc).
Proof.
  revert acc. induction ms as [|m ms IH]; intros acc; [reflexivity|].
  cbn [fold_left]. unfold register at 2, register0 at 2.
  fold (registered T m). rewrite insert_prefixed. apply IH.
Qed.

Lemma register0_find (T : adapter) (m : method) :
  In m METHODS ->
  StdMap.find string_cmp (methName m) (fold_left (register0 T) METHODS [])
  = Some (registered T m).
Proof.
  intros H. cbv [METHODS def In] in H.
  repeat (destruct H as [<- | H]; [reflexivity|]). destruct H.
Qed.

Lemma methods_find (deviceId : string) (T : adapter) (m : method) :
  In m METHODS ->
  StdMap.find string_cmp ("dab/" ++ deviceId ++ methName m)
    (fold_left (register deviceId T) METHODS [])
  = Some (registered T m).
Proof.
  intros H.
  change (@nil (string * (nativeDispatch * bool)))
    with (map (prefixed deviceId) []).
  rewrite register_prefixed, find_prefixed. now apply register0_find.
Qed.

Lemma methods_discovery_absent (deviceId : string) (T : adapter) :
  StdMap.find string_cmp "dab/discovery" (fold_left (register deviceId T) METHODS []) = None.
Proof.
  apply string_find_none_keys. intros H.
  apply register_keys in H. destruct H as [[] | [m [Hm Hk]]].
  destruct (proj1 (Forall_forall _ _) methods_start_with_slash m Hm) as [name [E _]].
  rewrite E in Hk. symmetry in Hk. now apply method_key_not_discovery in Hk.
Qed.

(** The entries of the registry, for every device id and adapter class. *)
Lemma registry_entries :
  forall (deviceId ipAddress : string) (T : adapter),
    let c := new_dabClient deviceId ipAddress T in
    StdMap.wf string_cmp (dispatchMap c)
    /\ (forall m, In m METHODS ->
          StdMap.find string_cmp ("dab/" ++ deviceId ++ methName m) (dispatchMap c)
            = Some (registered T m))
    /\ StdMap.find string_cmp "dab/discovery" (dispatchMap c)
         = Some ({| funcPtr := member T "discovery"; fixedParams := []; optionalParams := [] |},
                 false)
    /\ (forall topic, StdMap.find string_cmp topic (dispatchMap c) <> None ->
          topic = "dab/discovery"
          \/ exists m, In m METHODS /\ topic = "dab/" ++ deviceId ++ methName m).
Proof.
  intros deviceId ipAddress T.
  pose proof (register_wf deviceId T METHODS [] string_map_nil_wf) as Hwf.
  pose proof (methods_find deviceId T) as Hmeth.
  pose proof (methods_discovery_absent deviceId T) as Hdisc.
  pose proof (register_keys deviceId T METHODS []) as Hkeys.
  cbv zeta. unfold new_dabClient. cbn [dispatchMap].
  set (R := fold_left (register deviceId T) METHODS []) in *.
  set (v := ({| funcPtr := member T "discovery"; fixedParams := []; optionalParams := [] |},
             false)).
  clearbody R.
  split; [now apply string_insert_wf|]. split; [|split].
  - intros m Hm. rewrite (string_find_insert _ _ _ _ Hwf). now rewrite (Hmeth m Hm).
  - rewrite (string_find_insert _ _ _ _ Hwf). now rewrite Hdisc.
  - intros topic H.
    assert (Hin : In topic (StdMap.keys (StdMap.insert string_cmp "dab/discovery" v R))).
    { destruct (in_dec string_dec topic
                  (StdMap.keys (StdMap.insert string_cmp "dab/discovery" v R)))
        as [Hin | Hout]; [exact Hin|].
      apply string_find_none_keys in Hout. contradiction. }
    apply string_insert_keys_in in Hin. destruct Hin as [Hin | Hin]; [now left|].
    apply Hkeys in Hin. destruct Hin as [[] | Hin]. now right.
Qed.

Lemma ascending_filter_keys {V : Type} (f : string * V -> bool) (m : list (string * V)) :
  StdMap.wf string_cmp m -> StdMap.ascending string_cmp (map fst (filter f m)).
Proof.
  unfold StdMap.wf, StdMap.keys. induction m as [|[k v] m IH]; intros H; simpl.
  - constructor.
  - inversion H as [|? ? Hk Hm]; subst.
    destruct (f (k, v)); [|now apply IH].
    simpl. constructor; [|now apply IH].
    apply Forall_forall. intros k' Hk'.
    apply (proj1 (Forall_forall _ _) Hk).
    apply in_map_iff in Hk'. destruct Hk' as [[k1 v1] [E Hin]].
    apply filter_In in Hin. destruct Hin as [Hin _].
    apply in_map_iff. now exists (k1, v1).
Qed.

(** The keys whose flag is set. *)
Lemma registry_topics (deviceId ipAddress : string) (T : adapter) (topic : string) :
  In topic (getTopics (new_dabClient deviceId ipAddress T)) <->
  exists m, In m METHODS
            /\ topic = "dab/" ++ deviceId ++ methName m
            /\ snd (registered T m) = true.
Proof.
  pose proof (registry_entries deviceId ipAddress T) as H.
  cbv zeta in *. unfold getTopics.
  generalize dependent (dispatchMap (new_dabClient deviceId ipAddress T)).
  intros R (Hwf & Hmeth & Hdisc & Hkeys).
  assert (Hiff : In topic (map fst (filter (fun it => snd (snd it)) R)) <->
                 exists d, StdMap.find string_cmp topic R = Some (d, true)).
  { rewrite in_map_iff. split.
    - intros [[k [d flag]] [E Hin]]. cbn [fst] in E. subst k.
      apply filter_In in Hin. destruct Hin as [Hin Hflag]. cbn [snd] in Hflag. subst flag.
      exists d. now apply string_in_find.
    - intros [d Hd]. exists (topic, (d, true)). split; [reflexivity|].
      apply filter_In. split; [now apply string_find_in | reflexivity]. }
  rewrite Hiff. split.
  - intros [d Hd].
    assert (Hsome : StdMap.find string_cmp topic R <> None) by congruence.
    destruct (Hkeys topic Hsome) as [-> | [m [Hm ->]]]; [congruence|].
    exists m. split; [exact Hm|]. split; [reflexivity|].
    rewrite (Hmeth m Hm) in Hd.
    assert (E : registered T m = (d, true)) by congruence. now rewrite E.
  - intros [m [Hm [-> Hflag]]]. exists (fst (registered T m)).
    rewrite (Hmeth m Hm). unfold registered in *. cbn [fst snd] in *.
    now rewrite Hflag.
Qed.

Lemma registry_length (deviceId : string) (T : adapter) :
  List.length (fold_left (register deviceId T) METHODS []) = 25%nat.
Proof.
  change (@nil (string * (nativeDispatch * bool))) with (map (prefixed deviceId) []).
  rewrite register_prefixed, length_map. reflexivity.
Qed.

(** X14.  The constructor registers every line of the method list under
    [dab/<deviceId><methName>], with the parameter lists of the line and the
    member function it names, and discovery under [dab/discovery]; the
    registry holds these twenty-six keys and no other.  This is so for every
    device id and every adapter class. *)
Theorem new_dabClient_registry :
  forall (deviceId ipAddress : string) (T : adapter),
    let c := new_dabClient deviceId ipAddress T in
    StdMap.wf string_cmp (dispatchMap c)
    /\ List.length (dispatchMap c) = 26%nat
    /\ (forall m, In m METHODS ->
          StdMap.find string_cmp ("dab/" ++ deviceId ++ methName m) (dispatchMap c)
            = Some (registered T m))
    /\ StdMap.find string_cmp "dab/discovery" (dispatchMap c)
         = Some ({| funcPtr := member T "discovery"; fixedParams := []; optionalParams := [] |},
                 false)
    /\ (forall topic, StdMap.find string_cmp topic (dispatchMap c) <> None ->
          topic = "dab/discovery"
          \/ exists m, In m METHODS /\ topic = "dab/" ++ deviceId ++ methName m).
Proof.
  intros deviceId ipAddress T.
  destruct (registry_entries deviceId ipAddress T) as (Hwf & Hmeth & Hdisc & Hkeys).
  cbv zeta. split; [exact Hwf|]. split; [|now repeat split].
  unfold new_dabClient. cbn [dispatchMap].
  rewrite (insert_length_absent _ _ _ (methods_discovery_absent deviceId T)).
  now rewrite registry_length.
Qed.

(** X15.  [getTopics] returns, in ascending order and each once, the keys of
    the operations whose flag is set: those the adapter class overrides,
    and the operation list and the version, which are always set.  The key of
    discovery is not among them. *)
Theorem getTopics_overridden :
  forall (deviceId ipAddress : string) (T : adapter),
    let c := new_dabClient deviceId ipAddress T in
    StdMap.ascending string_cmp (getTopics c)
    /\ (forall topic,
          In topic (getTopics c) <->
          exists m, In m METHODS
                    /\ topic = "dab/" ++ deviceId ++ methName m
                    /\ snd (registered T m) = true)
    /\ ~ In "dab/discovery" (getTopics c).
Proof.
  intros deviceId ipAddress T. cbv zeta.
  destruct (registry_entries deviceId ipAddress T) as (Hwf & _ & _ & _).
  split; [|split].
  - unfold getTopics. now apply ascending_filter_keys.
  - intros topic. exact (registry_topics deviceId ipAddress T topic).
  - intros H.
    destruct (proj1 (registry_topics deviceId ipAddress T "dab/discovery") H)
      as [m [Hm [E _]]].
    destruct (proj1 (Forall_forall _ _) methods_start_with_slash m Hm) as [name [E' _]].
    rewrite E' in E. symmetry in E. exact (method_key_not_discovery _ _ E).
Qed.

(** *** The operation list *)

Lemma string_find_app (c : ascii) (a b : string) :
  string_find c 0 a = None -> string_find c 0 (a ++ String c b) = Some (String.length a).
Proof.
  induction a as [|d a IH]; cbn [append string_find String.length].
  - now rewrite Ascii.eqb_refl.
  - destruct (d =? c)%char; [discriminate|].
    destruct (string_find c 0 a); [discriminate|]. intros _. now rewrite IH.
Qed.

Lemma drop_app (a b : string) : drop (String.length a) (a ++ b) = b.
Proof. induction a as [|d a IH]; [reflexivity | exact IH]. Qed.

Lemma drop_advance (n : nat) (s : string) : drop n (advance s) = advance (drop n s).
Proof. revert s. induction n as [|n IH]; intros s; [reflexivity | apply IH]. Qed.

Lemma trimTopic_key (deviceId name : string) :
  string_find "/" 0 deviceId = None ->
  trimTopic ("dab/" ++ deviceId ++ String "/" name) = Ok (c_string name).
Proof.
  intros H. unfold trimTopic. cbn [append string_find].
  change ("d" =? "/")%char with false. change ("a" =? "/")%char with false.
  change ("b" =? "/")%char with false. change ("/" =? "/")%char with true.
  cbv iota. cbn [option_map]. cbn [string_find option_map].
  rewrite (string_find_app "/" deviceId name H). cbn [option_map].
  cbn [drop advance].
  now rewrite drop_advance, (drop_app deviceId (String "/" name)).
Qed.

Lemma opList_step_flagged (names : list string) (key name : string) (d : nativeDispatch) :
  trimTopic key = Ok name ->
  opList_step (Ok (operations_so_far names)) (key, (d, true))
  = Ok (operations_so_far (names ++ [name])).
Proof.
  intros H. unfold opList_step. cbn [bind snd fst]. rewrite H.
  destruct names as [|n names].
  - reflexivity.
  - cbn [operations_so_far app]. unfold operations, subscript_name.
    cbn [objectOf StdMap.find]. rewrite string_cmp_refl. cbn [bind push_back makeArray arrayOf].
    unfold subscript_assign. cbn [objectOf StdMap.assign]. rewrite string_cmp_refl.
    change [JString name] with (map JString [name]). rewrite <- map_app.
    reflexivity.
Qed.

Lemma opList_fold (deviceId : string) (entries : dispatchMapType) :
  string_find "/" 0 deviceId = None ->
  Forall (fun it =>
            snd (snd it) = true ->
            exists name, fst it = "dab/" ++ deviceId ++ String "/" name
                         /\ c_string name = name) entries ->
  forall acc,
    exists names,
      map fst (filter (fun it => snd (snd it)) entries)
        = map (fun name => "dab/" ++ deviceId ++ String "/" name) names
      /\ fold_left opList_step entries (Ok (operations_so_far acc))
         = Ok (operations_so_far (acc ++ names)).
Proof.
  intros Hid. induction 1 as [|[key [d flag]] entries Hit _ IH]; intros acc.
  - exists []. split; [reflexivity|]. now rewrite app_nil_r.
  - cbn [fst snd] in Hit. destruct flag.
    + destruct (Hit eq_refl) as [name [-> Hname]].
      destruct (IH (acc ++ [name])%list) as [names [Hkeys Hfold]].
      exists (name :: names). split.
      * cbn [filter snd map fst]. now rewrite Hkeys.
      * cbn [fold_left].
        rewrite (opList_step_flagged acc _ name d); [|now rewrite trimTopic_key, Hname].
        now rewrite Hfold, <- app_assoc.
    + destruct (IH acc) as [names [Hkeys Hfold]].
      exists names. split; [exact Hkeys|]. exact Hfold.
Qed.

(** X16.  For a device id without a slash, [opList] answers with the topics
    [getTopics] returns, in the same order, each without its
    [dab/<deviceId>/]; the operation list and the version are always among
    them. *)
Theorem opList_names_topics :
  forall (deviceId ipAddress : string) (T : adapter) (args : list cvalue),
    string_find "/" 0 deviceId = None ->
    let c := new_dabClient deviceId ipAddress T in
    exists names,
      getTopics c = map (fun name => "dab/" ++ deviceId ++ String "/" name) names
      /\ opList c args = Ok (JObject [("operations", JArray (map JString names))])
      /\ In "operations/list" names /\ In "version" names.
Proof.
  intros deviceId ipAddress T args Hid.
  pose proof (registry_entries deviceId ipAddress T) as H.
  pose proof (registry_topics deviceId ipAddress T) as Htopics.
  cbv zeta in *. unfold getTopics, opList in *.
  generalize dependent (dispatchMap (new_dabClient deviceId ipAddress T)).
  intros R (Hwf & Hmeth & Hdisc & Hkeys) Htopics.
  assert (Hentries :
            Forall (fun it =>
                      snd (snd it) = true ->
                      exists name, fst it = "dab/" ++ deviceId ++ String "/" name
                                   /\ c_string name = name) R).
  { apply Forall_forall. intros [key [d flag]] Hin Hflag. cbn [fst snd] in *. subst flag.
    pose proof (string_in_find _ _ _ Hwf Hin) as Hfind.
    assert (Hsome : StdMap.find string_cmp key R <> None) by congruence.
    destruct (Hkeys key Hsome) as [-> | [m [Hm ->]]]; [congruence|].
    destruct (proj1 (Forall_forall _ _) methods_start_with_slash m Hm) as [name [E Hname]].
    exists name. now rewrite E. }
  destruct (opList_fold deviceId R Hid Hentries []) as [names [Hk Hfold]].
  assert (Hin : forall name m,
            In m METHODS -> methName m = String "/" name -> snd (registered T m) = true ->
            In name names).
  { intros name m Hm E Hflag.
    assert (Ht : In ("dab/" ++ deviceId ++ String "/" name)
                   (map fst (filter (fun it => snd (snd it)) R))).
    { apply Htopics. exists m. now rewrite E. }
    rewrite Hk in Ht. apply in_map_iff in Ht. destruct Ht as [name' [E' Hname']].
    cbn [append] in E'. inversion E' as [E''].
    apply (f_equal (drop (String.length deviceId))) in E''.
    rewrite !drop_app in E''. inversion E''. now subst. }
  assert (Hop : In "operations/list" names).
  { apply (Hin _ (def "/operations/list" "opList" "opList" [] [])); [now left | reflexivity|].
    unfold registered. cbn [snd methName def]. now rewrite orb_true_r. }
  assert (Hver : In "version" names).
  { apply (Hin _ (def "/version" "version" "version" [] []));
      [cbv [METHODS def]; repeat (first [now left | right]) | reflexivity|].
    unfold registered. cbn [snd methName def]. now rewrite orb_true_r. }
  exists names. split; [exact Hk|]. split; [|now split].
  change (Ok JNull) with (Ok (operations_so_far [])) in Hfold |- *.
  rewrite Hfold. cbn [app]. destruct names; [destruct Hop | reflexivity].
Qed.

Lemma opList_names_topics_witness :
  exists names,
    getTopics D1 = map (fun name => "dab/" ++ "D1" ++ String "/" name) names
    /\ opList D1 [] = Ok (JObject [("operations", JArray (map JString names))])
    /\ In "operations/list" names /\ In "version" names.
Proof.
  apply (opList_names_topics "D1" "10.0.0.1" (base_adapter "10.0.0.1" "D1") []).
  reflexivity.
Defined.
End RegistryFacts.



(** ** Dispatch: from the request to the response *)
Section DispatchFacts.
Import Json DabClient Spec.

Lemma has_member (v : jsonElement) (name : string) :
  has v name = true ->
  exists x, StdMap.find string_cmp name (objectOf v) = Some x
            /\ subscript_const v name = Ok x.
Proof.
  destruct v as [ | | | | obj | | | ]; simpl; try discriminate.
  destruct (StdMap.find string_cmp name obj) as [x|]; [|discriminate].
  intros H. exists x. split; [reflexivity|]. now destruct (isNull x).
Qed.

Lemma lookup_member_for (elem payload : jsonElement) (name : string) :
  subscript_const elem "payload" = Ok payload ->
  lookup elem name = Ok (member_for elem payload name).
Proof.
  intros Hp. unfold lookup, member_for. rewrite Hp. cbn [bind].
  destruct (has payload name) eqn:H1.
  - destruct (has_member _ _ H1) as [x [-> ->]]. reflexivity.
  - destruct (has elem name) eqn:H2; [|reflexivity].
    destruct (has_member _ _ H2) as [x [-> ->]]. reflexivity.
Qed.

Lemma callOptional_bindings (f : handler) (elem payload : jsonElement)
  (optional : list (string * ctype)) :
  subscript_const elem "payload" = Ok payload ->
  forall vs,
    callOptional f elem optional vs
      = invoke f (vs ++ map (bind_optional elem payload) optional).
Proof.
  intros Hp. induction optional as [|[name t] optional IH]; intros vs; cbn [callOptional map].
  - now rewrite app_nil_r.
  - rewrite (lookup_member_for elem payload name Hp). unfold bind_optional at 1. cbn [fst snd].
    destruct (member_for elem payload name) as [x|]; rewrite IH, <- app_assoc; reflexivity.
Qed.

Lemma callFixed_bindings (f : handler) (elem payload : jsonElement)
  (fixed optional : list (string * ctype)) :
  subscript_const elem "payload" = Ok payload ->
  Forall (fun p => binds elem payload (fst p)) fixed ->
  forall vs,
    callFixed f elem fixed optional vs
      = invoke f (vs ++ map (bind_fixed elem payload) fixed
                     ++ map (bind_optional elem payload) optional).
Proof.
  intros Hp. induction 1 as [|[name t] fixed Hb _ IH]; intros vs; cbn [callFixed map app].
  - now apply callOptional_bindings.
  - rewrite (lookup_member_for elem payload name Hp). unfold bind_fixed at 1. cbn [fst snd] in *.
    destruct (member_for elem payload name) as [x|] eqn:E.
    + rewrite IH, <- app_assoc. reflexivity.
    + assert (Hstar : name = "*").
      { unfold member_for in E. destruct Hb as [Hb | [Hb | Hb]]; [| |exact Hb].
        - rewrite Hb in E. destruct (has_member _ _ Hb) as [x [E' _]]. congruence.
        - destruct (has payload name) eqn:H1.
          + destruct (has_member _ _ H1) as [x [E' _]]. congruence.
          + rewrite Hb in E. destruct (has_member _ _ Hb) as [x [E' _]]. congruence. }
      subst name. cbn [String.eqb Ascii.eqb Bool.eqb]. cbv iota.
      rewrite IH, <- app_assoc. reflexivity.
Qed.

Lemma call_binds_shared (d : nativeDispatch) (elem payload : jsonElement) :
  subscript_const elem "payload" = Ok payload ->
  Forall (fun p => binds elem payload (fst p)) (fixedParams d) ->
  call d elem = invoke (funcPtr d) (bindings d elem payload)
  /\ (forall args, pass_arguments (bindings d elem payload) = Ok args ->
        call d elem = (funcPtr d args, [args])).
Proof.
  intros Hp Hb.
  assert (H : call d elem = invoke (funcPtr d) (bindings d elem payload)).
  { unfold call. now rewrite (callFixed_bindings _ _ _ _ _ Hp Hb []). }
  split; [exact H|].
  intros args Hargs. rewrite H. unfold invoke. now rewrite Hargs.
Qed.

(** X17.  When the request has a payload and every fixed parameter is bound,
    the handler is called on one argument per parameter name, the fixed ones
    first and then the optional ones, each in the order of its list: the
    member of the payload where there is one, else the member of the
    envelope, else the envelope itself for the star and the default for an
    optional name. *)
Theorem call_binds_in_order :
  forall (d : nativeDispatch) (elem payload : jsonElement),
    subscript_const elem "payload" = Ok payload ->
    Forall (fun p => binds elem payload (fst p)) (fixedParams d) ->
    call d elem = invoke (funcPtr d) (bindings d elem payload)
    /\ List.length (bindings d elem payload)
       = (List.length (fixedParams d) + List.length (optionalParams d))%nat
    /\ (forall args, pass_arguments (bindings d elem payload) = Ok args ->
          call d elem = (funcPtr d args, [args])).
Proof.
  intros d elem payload Hp Hb.
  destruct (call_binds_shared d elem payload Hp Hb) as [H Hargs].
  split; [exact H|]. split; [|exact Hargs].
  unfold bindings. now rewrite length_app, !length_map.
Qed.

Lemma call_binds_in_order_witness :
  let d := {| funcPtr := unsupported;
              fixedParams := [("appId", TString)];
              optionalParams := [("parameters", TJson)] |} in
  let payload := JObject [("appId", JString "x")] in
  let elem := envelope "dab/D1/applications/launch" payload in
  call d elem = invoke (funcPtr d) (bindings d elem payload)
  /\ List.length (bindings d elem payload)
     = (List.length (fixedParams d) + List.length (optionalParams d))%nat
  /\ (forall args, pass_arguments (bindings d elem payload) = Ok args ->
        call d elem = (funcPtr d args, [args])).
Proof.
  apply (call_binds_in_order
           {| funcPtr := unsupported;
              fixedParams := [("appId", TString)];
              optionalParams := [("parameters", TJson)] |}
           (envelope "dab/D1/applications/launch" (JObject [("appId", JString "x")]))
           (JObject [("appId", JString "x")])).
  - reflexivity.
  - repeat constructor.
Defined.

(** *** The response *)

Lemma dispatch_call (c : dabClient) (elem : jsonElement) (topic : string)
  (d : nativeDispatch) (flag : bool) :
  subscript_const elem "topic" = Ok (JString topic) ->
  StdMap.find string_cmp topic (dispatchMap c) = Some (d, flag) ->
  dispatch c elem
  = (match fst (call d elem) with
     | Ok rsp =>
         Ok (if has rsp "status" then rsp else subscript_assign rsp "status" (JInt 200))
     | Throw (IntStringPair first second) => Ok (error_response first second)
     | Throw (DabException errorCode errorText) => Ok (error_response errorCode errorText)
     | Throw _ => Ok (error_response 400 "unable to parse request")
     | Undefined => Undefined
     end,
     snd (call d elem)).
Proof.
  intros Ht Hf. unfold dispatch, dispatch_try. rewrite Ht. cbn [bind to_string]. rewrite Hf.
  destruct (call d elem) as [[rsp|e|] calls]; reflexivity.
Qed.

(** X18.  What [dispatch] makes of the outcome of the handler, when the
    request has a payload, every fixed parameter is bound and the arguments
    convert.  The handler is called once.  A response with a status is
    returned as it is; an object without one gets the status 200 and keeps
    its other members; a response that is no object is dropped for
    [{"status":200}].  A [dabException] and a pair of a code and a text that
    the handler throws give their own code and text, as a list of four
    elements inside a list; anything else the handler throws gives code 400
    and the text [unable to parse request]. *)
Theorem dispatch_handler_outcome :
  forall (c : dabClient) (elem payload : jsonElement) (topic : string)
         (d : nativeDispatch) (flag : bool) (args : list cvalue),
    subscript_const elem "topic" = Ok (JString topic) ->
    StdMap.find string_cmp topic (dispatchMap c) = Some (d, flag) ->
    subscript_const elem "payload" = Ok payload ->
    Forall (fun p => binds elem payload (fst p)) (fixedParams d) ->
    pass_arguments (bindings d elem payload) = Ok args ->
    snd (dispatch c elem) = [args]
    /\ (forall rsp, funcPtr d args = Ok rsp ->
          (has rsp "status" = true -> fst (dispatch c elem) = Ok rsp)
          /\ (isObject rsp = false ->
              fst (dispatch c elem) = Ok (JObject [("status", JInt 200)]))
          /\ (has rsp "status" = false -> StdMap.wf string_cmp (objectOf rsp) ->
              exists obj,
                fst (dispatch c elem) = Ok (JObject obj)
                /\ StdMap.find string_cmp "status" obj = Some (JInt 200)
                /\ forall name, name <> "status" ->
                     StdMap.find string_cmp name obj
                       = StdMap.find string_cmp name (objectOf rsp)))
    /\ (forall code text,
          funcPtr d args = Throw (DabException code text)
          \/ funcPtr d args = Throw (IntStringPair code text) ->
          fst (dispatch c elem)
            = Ok (JArray [JArray [JString "status"; JInt code; JString "error"; JString text]]))
    /\ (forall e, funcPtr d args = Throw e ->
          (forall code text, e <> DabException code text /\ e <> IntStringPair code text) ->
          fst (dispatch c elem)
            = Ok (JArray [JArray [JString "status"; JInt 400; JString "error";
                                  JString "unable to parse request"]])).
Proof.
  intros c elem payload topic d flag args Ht Hf Hp Hb Hargs.
  destruct (call_binds_shared d elem payload Hp Hb) as [_ Hcall].
  rewrite (dispatch_call c elem topic d flag Ht Hf), (Hcall args Hargs). cbn [fst snd].
  split; [reflexivity|]. split; [|split].
  - intros rsp Hrsp. rewrite Hrsp. split; [|split].
    + now intros ->.
    + intros Hobj.
      assert (Hs : has rsp "status" = false) by (destruct rsp; try reflexivity; discriminate).
      rewrite Hs. destruct rsp; try reflexivity; discriminate.
    + intros Hs Hwf. rewrite Hs. unfold subscript_assign. eexists. split; [reflexivity|].
      split.
      * rewrite (string_find_assign _ _ _ _ Hwf). reflexivity.
      * intros name Hne. rewrite (string_find_assign _ _ _ _ Hwf).
        now rewrite (proj2 (String.eqb_neq name "status") Hne).
  - intros code text [-> | ->]; reflexivity.
  - intros e -> Hother. destruct e as [what | code text | code text | what].
    + reflexivity.
    + exfalso. apply (proj1 (Hother code text)). reflexivity.
    + exfalso. apply (proj2 (Hother code text)). reflexivity.
    + reflexivity.
Qed.

Lemma dispatch_handler_outcome_witness :
  let T := {| member := fun name args =>
                if (name =? "appLaunch")%string then Throw (IntStringPair 404 "gone")
                else if (name =? "appExit")%string then Throw (StdException "bad_alloc")
                else Ok (JObject [("state", JString "FOREGROUND")]);
              overrides := fun _ => true |} in
  let c := new_dabClient "D1" "10.0.0.1" T in
  let payload := JObject [("appId", JString "x")] in
  dispatch c (envelope "dab/D1/applications/launch" payload)
    = (Ok (JArray [JArray [JString "status"; JInt 404; JString "error"; JString "gone"]]),
       [[VString "x"; VJson JNull]])
  /\ dispatch c (envelope "dab/D1/applications/exit" payload)
     = (Ok (JArray [JArray [JString "status"; JInt 400; JString "error";
                            JString "unable to parse request"]]),
        [[VString "x"; VBool false]])
  /\ exists obj,
       fst (dispatch c (envelope "dab/D1/applications/get-state" payload)) = Ok (JObject obj)
       /\ StdMap.find string_cmp "status" obj = Some (JInt 200)
       /\ StdMap.find string_cmp "state" obj = Some (JString "FOREGROUND").
Proof.
  intros T c payload.
  split; [|split].
  - destruct (dispatch_handler_outcome c
                (envelope "dab/D1/applications/launch" payload) payload
                "dab/D1/applications/launch"
                {| funcPtr := member T "appLaunch";
                   fixedParams := [("appId", TString)];
                   optionalParams := [("parameters", TJson)] |}
                true
                [VString "x"; VJson JNull]
                ltac:(reflexivity) ltac:(reflexivity) ltac:(reflexivity)
                ltac:(repeat constructor) ltac:(reflexivity))
      as [Hcalls [_ [Hthrow _]]].
    apply injective_projections; cbn [fst snd]; [|exact Hcalls].
    apply (Hthrow 404 "gone"). right. reflexivity.
  - destruct (dispatch_handler_outcome c
                (envelope "dab/D1/applications/exit" payload) payload
                "dab/D1/applications/exit"
                {| funcPtr := member T "appExit";
                   fixedParams := [("appId", TString)];
                   optionalParams := [("background", TBool)] |}
                true
                [VString "x"; VBool false]
                ltac:(reflexivity) ltac:(reflexivity) ltac:(reflexivity)
                ltac:(repeat constructor) ltac:(reflexivity))
      as [Hcalls [_ [_ Hother]]].
    apply injective_projections; cbn [fst snd]; [|exact Hcalls].
    apply (Hother (StdException "bad_alloc")); [reflexivity|].
    intros code text. split; discriminate.
  - destruct (dispatch_handler_outcome c
                (envelope "dab/D1/applications/get-state" payload) payload
                "dab/D1/applications/get-state"
                {| funcPtr := member T "appGetState";
                   fixedParams := [("appId", TString)];
                   optionalParams := [] |}
                true
                [VString "x"]
                ltac:(reflexivity) ltac:(reflexivity) ltac:(reflexivity)
                ltac:(repeat constructor) ltac:(reflexivity))
      as [_ [Hok _]].
    destruct (Hok (JObject [("state", JString "FOREGROUND")]) eq_refl) as [_ [_ Hadd]].
    destruct (Hadd eq_refl ltac:(repeat constructor)) as [obj [Hobj [Hstatus Hrest]]].
    exists obj. split; [exact Hobj|]. split; [exact Hstatus|].
    rewrite (Hrest "state"); [reflexivity | discriminate].
Defined.

Lemma no_payload (elem : jsonElement) :
  has elem "payload" = false ->
  subscript_const elem "payload" = Throw (CString "element not found").
Proof.
  destruct elem as [ | | | | obj | | | ]; simpl; try reflexivity.
  destruct (StdMap.find string_cmp "payload" obj) as [x|]; [|reflexivity].
  destruct (isNull x); [reflexivity | discriminate].
Qed.

Lemma lookup_no_payload (elem : jsonElement) (name : string) :
  has elem "payload" = false ->
  lookup elem name = Throw (CString "element not found").
Proof. intros H. unfold lookup. now rewrite (no_payload elem H). Qed.

(** X19.  A request without a payload (or with a null one) reaches the
    handler only if the operation takes no parameter at all.  With any
    parameter name, fixed or optional, the lookup in the payload throws
    before a name is looked up in the envelope, and the answer is code 400
    with the text [unable to parse request]. *)
Theorem dispatch_without_payload :
  forall (c : dabClient) (elem : jsonElement) (topic : string)
         (d : nativeDispatch) (flag : bool),
    subscript_const elem "topic" = Ok (JString topic) ->
    StdMap.find string_cmp topic (dispatchMap c) = Some (d, flag) ->
    has elem "payload" = false ->
    (fixedParams d = [] -> optionalParams d = [] ->
       snd (dispatch c elem) = [[]]
       /\ forall rsp, funcPtr d [] = Ok rsp -> has rsp "status" = true ->
            fst (dispatch c elem) = Ok rsp)
    /\ ((fixedParams d <> [] \/ optionalParams d <> []) ->
        dispatch c elem
          = (Ok (JArray [JArray [JString "status"; JInt 400; JString "error";
                                 JString "unable to parse request"]]),
             [])).
Proof.
  intros c elem topic d flag Ht Hf Hp.
  rewrite (dispatch_call c elem topic d flag Ht Hf). unfold call.
  split.
  - intros -> ->. cbn [callFixed callOptional invoke pass_arguments fst snd].
    split; [reflexivity|]. now intros rsp -> ->.
  - intros H.
    assert (Hcall : callFixed (funcPtr d) elem (fixedParams d) (optionalParams d) []
                    = (Throw (CString "element not found"), [])).
    { destruct (fixedParams d) as [|[name t] fixed].
      - destruct (optionalParams d) as [|[name t] optional].
        + destruct H as [H | H]; now elim H.
        + cbn [callFixed callOptional]. now rewrite (lookup_no_payload elem name Hp).
      - cbn [callFixed]. now rewrite (lookup_no_payload elem name Hp). }
    rewrite Hcall. reflexivity.
Qed.

Lemma dispatch_without_payload_witness :
  dispatch D1 (JObject [("topic", JString "dab/D1/applications/list")])
    = (Ok (JArray [JArray [JString "status"; JInt 501; JString "error";
                           JString "unsupported"]]),
       [[]])
  /\ dispatch D1 (JObject [("appId", JString "x");
                          ("topic", JString "dab/D1/applications/get-state")])
    = (Ok (JArray [JArray [JString "status"; JInt 400; JString "error";
                           JString "unable to parse request"]]),
       []).
Proof.
  split; [reflexivity|].
  apply (dispatch_without_payload D1
           (JObject [("appId", JString "x");
                     ("topic", JString "dab/D1/applications/get-state")])
           "dab/D1/applications/get-state"
           {| funcPtr := unsupported; fixedParams := [("appId", TString)];
              optionalParams := [] |}
           false); [reflexivity | reflexivity | reflexivity |].
  left. discriminate.
Defined.

(** *** Arguments of the wrong type *)

Lemma convert_throws (t : ctype) (j : jsonElement) :
  (exists a, convert t j = Ok a) \/ (exists what, convert t j = Throw (CString what)).
Proof.
  destruct t, j; simpl; try (left; eexists; reflexivity); right; eexists; reflexivity.
Qed.

Lemma pass_arguments_throws (vs : list bound) (t : ctype) (j : jsonElement) (e : exn) :
  In (Found t j) vs -> convert t j = Throw e ->
  exists what, pass_arguments vs = Throw (CString what).
Proof.
  induction vs as [|[t0 j0|t0] vs IH]; intros Hin He; [destruct Hin| |].
  - cbn [pass_arguments].
    destruct (convert_throws t0 j0) as [[a Ha] | [what Hw]].
    + rewrite Ha. cbn [bind]. destruct Hin as [Hin | Hin]; [congruence|].
      destruct (IH Hin He) as [what ->]. now exists what.
    + rewrite Hw. now exists what.
  - cbn [pass_arguments]. destruct Hin as [Hin | Hin]; [discriminate|].
    destruct (IH Hin He) as [what ->]. now exists what.
Qed.

(** X20.  When the request has a payload and every fixed parameter of the
    operation is bound, a parameter that the request gives with a JSON type
    other than the one the handler declares stops the call: the conversion of
    the argument throws, no handler runs, and the answer is code 400 with the
    text [unable to parse request]. *)
Theorem dispatch_mistyped_parameter :
  forall (c : dabClient) (elem payload : jsonElement) (topic : string)
         (d : nativeDispatch) (flag : bool)
         (t : ctype) (x : jsonElement) (e : exn),
    subscript_const elem "topic" = Ok (JString topic) ->
    StdMap.find string_cmp topic (dispatchMap c) = Some (d, flag) ->
    subscript_const elem "payload" = Ok payload ->
    Forall (fun p => binds elem payload (fst p)) (fixedParams d) ->
    In (Found t x) (bindings d elem payload) ->
    convert t x = Throw e ->
    dispatch c elem
      = (Ok (JArray [JArray [JString "status"; JInt 400; JString "error";
                             JString "unable to parse request"]]),
         []).
Proof.
  intros c elem payload topic d flag t x e Ht Hf Hp Hb Hin He.
  destruct (call_binds_shared d elem payload Hp Hb) as [Hcall _].
  destruct (pass_arguments_throws _ t x e Hin He) as [what Hw].
  rewrite (dispatch_call c elem topic d flag Ht Hf), Hcall. unfold invoke. now rewrite Hw.
Qed.

Lemma dispatch_mistyped_parameter_witness :
  dispatch D1 (envelope "dab/D1/applications/launch" (JObject [("appId", JInt 5)]))
    = (Ok (JArray [JArray [JString "status"; JInt 400; JString "error";
                           JString "unable to parse request"]]),
       []).
Proof.
  apply (dispatch_mistyped_parameter D1
           (envelope "dab/D1/applications/launch" (JObject [("appId", JInt 5)]))
           (JObject [("appId", JInt 5)])
           "dab/D1/applications/launch"
           {| funcPtr := unsupported;
              fixedParams := [("appId", TString)];
              optionalParams := [("parameters", TJson)] |}
           false TString (JInt 5) (CString "invalid json string value"));
    try reflexivity.
  - repeat constructor.
  - left. reflexivity.
Defined.
End DispatchFacts.

(** ** The adapter that overrides nothing *)
Section BaseAdapter.
Import Json DabClient Spec.

(** What [opList] and [getTopics] read of a registry entry: the key and the
    flag. *)
Lemma insert_flags (k : string) (d d' : nativeDispatch) (flag : bool)
  (m m' : dispatchMapType) :
  map (fun it => (fst it, snd (snd it))) m = map (fun it => (fst it, snd (snd it))) m' ->
  map (fun it => (fst it, snd (snd it))) (StdMap.insert string_cmp k (d, flag) m)
  = map (fun it => (fst it, snd (snd it))) (StdMap.insert string_cmp k (d', flag) m').
Proof.
  revert m'. induction m as [|[k0 [d0 f0]] m IH]; intros [|[k1 [d1 f1]] m'] H;
    try discriminate H; [reflexivity|].
  cbn [map fst snd] in H. inversion H as [[Hk Hf Hm]]. subst k1 f1.
  cbn [StdMap.insert]. destruct (string_cmp k k0); cbn [map fst snd].
  - now rewrite Hm.
  - now rewrite Hm.
  - now rewrite (IH m' Hm).
Qed.

Lemma register_flags (deviceId : string) (T T' : adapter) (methods : list method) :
  (forall name, overrides T name = overrides T' name) ->
  forall m m' : dispatchMapType,
    map (fun it => (fst it, snd (snd it))) m = map (fun it => (fst it, snd (snd it))) m' ->
    map (fun it => (fst it, snd (snd it))) (fold_left (register deviceId T) methods m)
    = map (fun it => (fst it, snd (snd it))) (fold_left (register deviceId T') methods m').
Proof.
  intros Hover. induction methods as [|x methods IH]; intros m m' H; [exact H|].
  cbn [fold_left]. apply IH. unfold register. rewrite (Hover (detectFunc x)).
  now apply insert_flags.
Qed.

Lemma registry_flags (deviceId ipAddress : string) (T T' : adapter) :
  (forall name, overrides T name = overrides T' name) ->
  map (fun it => (fst it, snd (snd it))) (dispatchMap (new_dabClient deviceId ipAddress T))
  = map (fun it => (fst it, snd (snd it))) (dispatchMap (new_dabClient deviceId ipAddress T')).
Proof.
  intros Hover. unfold new_dabClient. cbn [dispatchMap].
  apply insert_flags. now apply register_flags.
Qed.

Lemma opList_flags (m m' : dispatchMapType) (elem : outcome jsonElement) :
  map (fun it => (fst it, snd (snd it))) m = map (fun it => (fst it, snd (snd it))) m' ->
  fold_left opList_step m elem = fold_left opList_step m' elem.
Proof.
  revert m' elem. induction m as [|[k0 [d0 f0]] m IH]; intros [|[k1 [d1 f1]] m'] elem H;
    try discriminate H; [reflexivity|].
  cbn [map fst snd] in H. inversion H as [[Hk Hf Hm]]. subst k1 f1.
  cbn [fold_left]. rewrite (IH m' _ Hm). reflexivity.
Qed.

(** The [opList] registered for the adapter that overrides nothing is the
    [opList] of the client it is registered in. *)
Lemma base_adapter_opList (ipAddress deviceId : string) (args : list cvalue) :
  member (base_adapter ipAddress deviceId) "opList" args
  = opList (new_dabClient deviceId ipAddress (base_adapter ipAddress deviceId)) args.
Proof.
  change (member (base_adapter ipAddress deviceId) "opList" args)
    with (opList (new_dabClient deviceId ipAddress
                    {| member := fun _ => unsupported; overrides := fun _ => false |}) args).
  unfold opList. apply opList_flags. apply registry_flags. reflexivity.
Qed.

(** The client of that adapter answers for the operations [dabClient] itself
    implements: the operation list names the two operations that are always
    flagged, and the telemetry methods answer with the duration or with
    nothing but the status. *)
Lemma base_adapter_answers :
  dispatch D1 (JObject [("topic", JString "dab/D1/operations/list")])
    = (Ok (JObject [("operations", JArray [JString "operations/list"; JString "version"]);
                    ("status", JInt 200)]),
       [[]])
  /\ dispatch D1 (envelope "dab/D1/device-telemetry/start" (JObject [("duration", JInt 50)]))
     = (Ok (JObject [("duration", JInt 50); ("status", JInt 200)]), [[VInt64 50]])
  /\ dispatch D1 (JObject [("topic", JString "dab/D1/device-telemetry/stop")])
     = (Ok (JObject [("status", JInt 200)]), [[]])
  /\ dispatch D1 (envelope "dab/D1/app-telemetry/start"
                    (JObject [("appId", JString "x"); ("duration", JInt 50)]))
     = (Ok (JObject [("duration", JInt 50); ("status", JInt 200)]),
        [[VString "x"; VInt64 50]])
  /\ dispatch D1 (envelope "dab/D1/app-telemetry/stop" (JObject [("appId", JString "x")]))
     = (Ok (JObject [("status", JInt 200)]), [[VString "x"]]).
Proof. repeat split. Qed.

End BaseAdapter.



(** ** The scheduler as a queue *)
Section SchedulerFacts.
Import Json DabClient Spec.

Lemma time_insert_wf (k : Z) (e : entry) (s : scheduler) :
  StdMap.wf time_cmp s -> StdMap.wf time_cmp (StdMap.insert time_cmp k e s).
Proof. apply insert_wf; strict_order. Qed.

Lemma time_erase_wf (k : Z) (s : scheduler) :
  StdMap.wf time_cmp s -> StdMap.wf time_cmp (StdMap.erase time_cmp k s).
Proof. apply erase_wf; strict_order. Qed.

Lemma erase_head (key : Z) (e : entry) (rest : scheduler) :
  StdMap.erase time_cmp key ((key, e) :: rest) = rest.
Proof. cbn [StdMap.erase]. unfold time_cmp. now rewrite Z.compare_refl. Qed.

Lemma update_interval_keys (id : string) (newInterval : Z) (s s' : scheduler) :
  update_interval id newInterval s = Some s' -> StdMap.keys s' = StdMap.keys s.
Proof.
  revert s'. induction s as [|[t e] s IH]; simpl; intros s' H; [discriminate|].
  destruct (entry_id e =? id)%string.
  - inversion H; subst. reflexivity.
  - destruct (update_interval id newInterval s) as [s0|]; simpl in H; [|discriminate].
    inversion H; subst. simpl. now rewrite (IH s0).
Qed.

Lemma deleteTelemetry_keys_in (id : string) (s : scheduler) (k : Z) :
  In k (StdMap.keys (deleteTelemetry id s)) -> In k (StdMap.keys s).
Proof.
  induction s as [|[t e] s IH]; simpl; [tauto|].
  destruct (entry_id e =? id)%string; simpl; tauto.
Qed.

Lemma deleteTelemetry_wf (id : string) (s : scheduler) :
  StdMap.wf time_cmp s -> StdMap.wf time_cmp (deleteTelemetry id s).
Proof.
  unfold StdMap.wf. induction s as [|[t e] s IH]; intros H; simpl; [exact H|].
  inversion H as [|? ? Hk Hs]; subst.
  destruct (entry_id e =? id)%string; [exact Hs|].
  simpl. constructor; [|now apply IH].
  apply Forall_forall. intros k Hin. apply deleteTelemetry_keys_in in Hin.
  now apply (proj1 (Forall_forall _ _) Hk).
Qed.

Lemma deleteTelemetry_absent (id : string) (s : scheduler) :
  ~ In id (ids s) -> deleteTelemetry id s = s.
Proof.
  induction s as [|[t e] s IH]; simpl; intros H; [reflexivity|].
  destruct (String.eqb_spec (entry_id e) id) as [E|N]; [exfalso; apply H; now left|].
  rewrite IH; [reflexivity|]. intros Hin. apply H. now right.
Qed.

Lemma deleteTelemetry_removes (id : string) (s : scheduler) :
  one_per_subject s -> ~ In id (ids (deleteTelemetry id s)).
Proof.
  unfold one_per_subject. induction s as [|[t e] s IH]; simpl; intros H; [tauto|].
  inversion H as [|? ? Hhead Htail]; subst.
  destruct (String.eqb_spec (entry_id e) id) as [E|N].
  - now rewrite <- E.
  - simpl. intros [Hin | Hin]; [contradiction | now apply IH].
Qed.

(** X21.  The two invariants of the queue, keys strictly ascending and at most
    one entry for a subject, are kept by [addTelemetry], by [deleteTelemetry]
    and by a pass of the worker; a pass adds no subject. *)
Theorem scheduler_invariants :
  forall s : scheduler,
    scheduler_ok s ->
    (forall now interval id topic cb, scheduler_ok (addTelemetry now interval id topic cb s))
    /\ (forall id, scheduler_ok (deleteTelemetry id s)
                   /\ ~ In id (ids (deleteTelemetry id s)))
    /\ (forall now now' s',
          fst (telemetryTask now now' s) = Ok s' ->
          scheduler_ok s' /\ incl (ids s') (ids s)).
Proof.
  intros s [Hwf Hone]. split; [|split].
  - intros now interval id topic cb. split.
    + unfold addTelemetry.
      destruct (update_interval id interval s) as [s'|] eqn:E.
      * unfold StdMap.wf. now rewrite (update_interval_keys _ _ _ _ E).
      * now apply time_insert_wf.
    + now apply addTelemetry_one_per_subject.
  - intros id. split; [split|].
    + now apply deleteTelemetry_wf.
    + now apply deleteTelemetry_one_per_subject.
    + now apply deleteTelemetry_removes.
  - intros now now' s'. unfold telemetryTask.
    destruct s as [|[key e] rest];
      [cbn [fst]; intros H; inversion H; subst;
       exact (conj (conj Hwf Hone) (incl_refl _))|].
    destruct (key <? now).
    + destruct (callback (entry_executor e) tt) as [rsp| |]; cbn [fst]; try discriminate.
      rewrite erase_head. intros H. inversion H; subst. clear H.
      inversion Hwf as [|? ? Hk Hrest]; subst.
      unfold one_per_subject in Hone. cbn [ids map snd] in Hone.
      inversion Hone as [|? ? Hhead Htail]; subst.
      split; [split|].
      * now apply time_insert_wf.
      * now apply insert_one_per_subject.
      * intros x Hx. apply insert_ids_in in Hx. cbn [ids map snd].
        destruct Hx as [-> | Hx]; [left; reflexivity | right; exact Hx].
    + cbn [fst]. intros H. inversion H; subst.
      exact (conj (conj Hwf Hone) (incl_refl _)).
Qed.

Lemma scheduler_invariants_witness :
  let s := [(100, ("", "dab/D1/device-telemetry/metrics",
                   {| interval := 50; callback := quiet |}))] in
  (forall now interval id topic cb, scheduler_ok (addTelemetry now interval id topic cb s))
  /\ (forall id, scheduler_ok (deleteTelemetry id s)
                 /\ ~ In id (ids (deleteTelemetry id s)))
  /\ (forall now now' s',
        fst (telemetryTask now now' s) = Ok s' ->
        scheduler_ok s' /\ incl (ids s') (ids s)).
Proof.
  apply (scheduler_invariants
           [(100, ("", "dab/D1/device-telemetry/metrics",
                   {| interval := 50; callback := quiet |}))]).
  split; repeat constructor. simpl. tauto.
Defined.

Lemma insert_then_delete (now : Z) (e : entry) (s : scheduler) :
  ~ In (entry_id e) (ids s) ->
  deleteTelemetry (entry_id e) (StdMap.insert time_cmp now e s) = s.
Proof.
  induction s as [|[t e'] s IH]; intros H.
  - cbn [StdMap.insert deleteTelemetry]. now rewrite String.eqb_refl.
  - cbn [StdMap.insert]. cbn [ids map snd] in H.
    assert (Hne : (entry_id e' =? entry_id e)%string = false).
    { apply String.eqb_neq. intros E. apply H. now left. }
    destruct (time_cmp now t).
    + cbn [deleteTelemetry]. rewrite Hne. f_equal.
      apply deleteTelemetry_absent. intros Hin. apply H. now right.
    + cbn [deleteTelemetry]. now rewrite String.eqb_refl.
    + cbn [deleteTelemetry]. rewrite Hne. f_equal.
      apply IH. intros Hin. apply H. now right.
Qed.

(** X22.  Stopping undoes starting: for a subject the queue does not hold,
    [addTelemetry] followed by [deleteTelemetry] leaves the queue as it was
    (also when the key of the new entry was taken and nothing was added), and
    [deleteTelemetry] alone changes nothing. *)
Theorem deleteTelemetry_undoes_addTelemetry :
  forall (s : scheduler) (now interval : Z) (id topic : string) (cb : producer),
    ~ In id (ids s) ->
    deleteTelemetry id (addTelemetry now interval id topic cb s) = s
    /\ deleteTelemetry id s = s.
Proof.
  intros s now interval id topic cb H. split; [|now apply deleteTelemetry_absent].
  unfold addTelemetry.
  rewrite (proj2 (update_interval_none id interval s) H).
  exact (insert_then_delete now (id, topic, {| interval := interval; callback := cb |}) s H).
Qed.

Lemma deleteTelemetry_undoes_addTelemetry_witness :
  let s := [(100, ("", "dab/D1/device-telemetry/metrics",
                   {| interval := 50; callback := quiet |}))] in
  deleteTelemetry "X" (addTelemetry 100 10 "X" "dab/D1/app-telemetry/metrics/X" quiet s) = s
  /\ deleteTelemetry "X" s = s.
Proof.
  apply (deleteTelemetry_undoes_addTelemetry
           [(100, ("", "dab/D1/device-telemetry/metrics",
                   {| interval := 50; callback := quiet |}))]
           100 10 "X" "dab/D1/app-telemetry/metrics/X" quiet).
  simpl. intros [H | []]. discriminate H.
Defined.

Lemma insert_present (k : Z) (e e' : entry) (s : scheduler) :
  StdMap.wf time_cmp s ->
  StdMap.find time_cmp k s = Some e' ->
  StdMap.insert time_cmp k e s = s.
Proof.
  unfold StdMap.wf. induction s as [|[t e0] s IH]; intros Hwf Hfind; [discriminate|].
  inversion Hwf as [|? ? Hk Hs]; subst. cbn [StdMap.find StdMap.insert] in *.
  destruct (time_cmp k t) eqn:E.
  - reflexivity.
  - exfalso. rewrite (find_below time_cmp) in Hfind; [discriminate|].
    apply (below_trans time_cmp time_cmp_trans k t); [exact E | exact Hk].
  - f_equal. now apply IH.
Qed.

(** X23.  A tick that lands on a taken key loses its entry.  When the new
    key, the clock reading plus the interval as [getNextScheduledTime]
    computes it, is the key of another entry,
    the reinsertion does nothing: the callback has run and its message is
    published, but the queue no longer holds the subject, and no later pass
    fires for it. *)
Theorem telemetryTask_taken_key :
  forall (now now' key : Z) (e e' : entry) (rest : scheduler) (rsp : jsonElement),
    scheduler_ok ((key, e) :: rest) ->
    key < now ->
    callback (entry_executor e) tt = Ok rsp ->
    StdMap.find time_cmp (getNextScheduledTime (entry_executor e) now') rest = Some e' ->
    telemetryTask now now' ((key, e) :: rest)
      = (Ok rest, [Produced (entry_id e); Published (tick_message (entry_topic e) rsp)])
    /\ ~ In (entry_id e) (ids rest)
    /\ entries_of (entry_id e) rest = [].
Proof.
  intros now now' key e e' rest rsp [Hwf Hone] Hlt Hrsp Hfind.
  inversion Hwf as [|? ? Hk Hrest]; subst.
  unfold one_per_subject in Hone. cbn [ids map snd] in Hone.
  inversion Hone as [|? ? Hhead Htail]; subst.
  split; [|split].
  - unfold telemetryTask. rewrite (proj2 (Z.ltb_lt key now) Hlt), Hrsp.
    rewrite erase_head.
    rewrite (insert_present _ e e' rest Hrest Hfind), tick_message_built. reflexivity.
  - exact Hhead.
  - unfold entries_of. clear - Hhead. induction rest as [|[t e0] rest IH]; [reflexivity|].
    cbn [filter snd]. cbn [ids map snd] in Hhead.
    destruct (String.eqb_spec (entry_id e0) (entry_id e)) as [E|N].
    + exfalso. apply Hhead. now left.
    + apply IH. intros Hin. apply Hhead. now right.
Qed.

Lemma telemetryTask_taken_key_witness :
  telemetryTask 101 102
    [(100, ("", "dab/D1/device-telemetry/metrics", {| interval := 50; callback := quiet |}));
     (50000102, ("X", "dab/D1/app-telemetry/metrics/X",
                 {| interval := 10; callback := quiet |}))]
  = (Ok [(50000102, ("X", "dab/D1/app-telemetry/metrics/X",
                {| interval := 10; callback := quiet |}))],
     [Produced ""; Published (tick_message "dab/D1/device-telemetry/metrics" JNull)]).
Proof.
  apply (telemetryTask_taken_key 101 102 100
           ("", "dab/D1/device-telemetry/metrics", {| interval := 50; callback := quiet |})
           ("X", "dab/D1/app-telemetry/metrics/X", {| interval := 10; callback := quiet |})
           [(50000102, ("X", "dab/D1/app-telemetry/metrics/X",
                   {| interval := 10; callback := quiet |}))]
           JNull).
  - split; [repeat constructor|].
    unfold one_per_subject. simpl. repeat constructor; simpl; intuition discriminate.
  - lia.
  - reflexivity.
  - reflexivity.
Defined.

(** X24.  Device telemetry runs under the empty subject id, so an
    application with the empty id is the same subject: while device telemetry
    runs, starting telemetry for that application only gives the entry of the
    device the new interval (its topic and its callback stay those of the
    device), and stopping it stops the telemetry of the device. *)
Theorem appTelemetry_empty_appId :
  forall (c : dabClient) (deviceTelemetry : producer) (appTelemetry : string -> producer)
         (now0 now1 duration0 duration1 : Z) (s : scheduler),
    one_per_subject s ->
    ~ In "" (ids s) ->
    StdMap.find time_cmp now0 s = None ->
    let s0 := snd (deviceTelemetryStartInternal c deviceTelemetry now0 duration0 s) in
    let s1 := snd (appTelemetryStartInternal c appTelemetry now1 "" duration1 s0) in
    entries_of "" s1
      = [(now0, ("", "dab/" ++ deviceId c ++ "/device-telemetry/metrics",
                 {| interval := duration1; callback := deviceTelemetry |}))]
    /\ entries_of "" (snd (appTelemetryStopInternal "" s1)) = [].
Proof.
  intros c dev app now0 now1 d0 d1 s Hone Hnot Hfree s0 s1. subst s0 s1.
  unfold deviceTelemetryStartInternal, appTelemetryStartInternal, appTelemetryStopInternal.
  cbn [snd].
  split.
  - exact (addTelemetry_twice_fresh now0 now1 d0 d1 "" _ _ dev (app "") s Hone Hnot Hfree).
  - pose proof (addTelemetry_one_per_subject now1 d1 "" 
                  ("dab/" ++ deviceId c ++ "/app-telemetry/metrics/" ++ "") (app "")
                  _ (addTelemetry_one_per_subject now0 d0 ""
                       ("dab/" ++ deviceId c ++ "/device-telemetry/metrics") dev s Hone))
      as H.
    pose proof (deleteTelemetry_removes "" _ H) as Hgone.
    revert Hgone. generalize (deleteTelemetry ""
      (addTelemetry now1 d1 "" ("dab/" ++ deviceId c ++ "/app-telemetry/metrics/" ++ "") (app "")
         (addTelemetry now0 d0 "" ("dab/" ++ deviceId c ++ "/device-telemetry/metrics") dev s))).
    intros q Hq. unfold entries_of. induction q as [|[t e0] q IH]; [reflexivity|].
    cbn [filter snd]. cbn [ids map snd] in Hq.
    destruct (String.eqb_spec (entry_id e0) "") as [E|N].
    + exfalso. apply Hq. now left.
    + apply IH. intros Hin. apply Hq. now right.
Qed.

Lemma appTelemetry_empty_appId_witness :
  let s0 := snd (deviceTelemetryStartInternal D1 quiet 100 50 []) in
  let s1 := snd (appTelemetryStartInternal D1 (fun _ => quiet) 120 "" 10 s0) in
  entries_of "" s1
    = [(100, ("", "dab/" ++ deviceId D1 ++ "/device-telemetry/metrics",
              {| interval := 10; callback := quiet |}))]
  /\ entries_of "" (snd (appTelemetryStopInternal "" s1)) = [].
Proof.
  apply (appTelemetry_empty_appId D1 quiet (fun _ => quiet) 100 120 50 10 []).
  - constructor.
  - simpl. tauto.
  - reflexivity.
Defined.
End SchedulerFacts.

(** ** The bridge: routing *)
Section BridgeRouting.
Import Json DabBridge Spec.

(** What the bridge does with a topic [dab/<deviceId>/<rest>]. *)
Lemma bridge_device_topic (instances : instancesType) (json : jsonElement)
  (deviceId rest : string) :
  subscript_const json "topic" = Ok (JString ("dab/" ++ deviceId ++ "/" ++ rest)) ->
  find_first_of "/" deviceId = None ->
  bridge_dispatch instances json
  = match StdMap.find string_cmp deviceId instances with
    | Some it => (dispatch it json, [Dispatched deviceId json])
    | None => (Throw (DabException 400 "deviceId does not exist"), [])
    end.
Proof.
  intros Ht Hslash.
  pose proof (device_topic_not_discovery _ rest Hslash) as E1.
  assert (E2 : starts_with ("dab/" ++ deviceId ++ "/" ++ rest) "dab/" = true)
    by reflexivity.
  assert (E3 : find_first_of "/" (drop 4 ("dab/" ++ deviceId ++ "/" ++ rest))
               = Some (String.length deviceId))
    by (apply (find_first_of_app "/" deviceId rest Hslash)).
  assert (E4 : substring 4 (String.length deviceId) ("dab/" ++ deviceId ++ "/" ++ rest)
               = deviceId)
    by (apply (substring_prefix deviceId (String "/" rest))).
  revert Ht E1 E2 E3 E4. generalize ("dab/" ++ deviceId ++ "/" ++ rest) as topic.
  intros topic Ht E1 E2 E3 E4.
  unfold bridge_dispatch.
  rewrite (subscript_const_has _ _ _ Ht), Ht.
  cbv beta iota delta [bind to_string].
  now rewrite E1, E2, E3, E4.
Qed.

Lemma bridge_routes_shared (instances : instancesType) (json : jsonElement)
  (deviceId rest : string) (it : dabInterface) :
  subscript_const json "topic" = Ok (JString ("dab/" ++ deviceId ++ "/" ++ rest)) ->
  find_first_of "/" deviceId = None ->
  StdMap.find string_cmp deviceId instances = Some it ->
  bridge_dispatch instances json = (dispatch it json, [Dispatched deviceId json]).
Proof.
  intros Ht Hslash Hfind.
  rewrite (bridge_device_topic instances json deviceId rest Ht Hslash).
  rewrite Hfind. reflexivity.
Qed.

(** X25.  A topic [dab/<deviceId>/<rest>] of a registered device goes to the
    instance registered under the device id, and to no other: the bridge
    returns what the [dispatch] of that instance returns (or throws), and
    publishes nothing. *)
Theorem bridge_routes_to_device :
  forall (instances : instancesType) (json : jsonElement) (deviceId rest : string)
         (it : dabInterface),
    subscript_const json "topic" = Ok (JString ("dab/" ++ deviceId ++ "/" ++ rest)) ->
    find_first_of "/" deviceId = None ->
    StdMap.find string_cmp deviceId instances = Some it ->
    bridge_dispatch instances json = (dispatch it json, [Dispatched deviceId json]).
Proof.
  intros instances json deviceId rest it Ht Hslash Hfind.
  exact (bridge_routes_shared instances json deviceId rest it Ht Hslash Hfind).
Qed.

Lemma bridge_routes_to_device_witness :
  bridge_dispatch [("D1", instance_of D1); ("D2", instance_of D2)]
    (JObject [("topic", JString "dab/D2/version")])
  = (dispatch (instance_of D2) (JObject [("topic", JString "dab/D2/version")]),
     [Dispatched "D2" (JObject [("topic", JString "dab/D2/version")])]).
Proof.
  apply (bridge_routes_to_device [("D1", instance_of D1); ("D2", instance_of D2)]
           (JObject [("topic", JString "dab/D2/version")]) "D2" "version" (instance_of D2));
    reflexivity.
Defined.

Lemma has_false_subscript (v : jsonElement) (name : string) :
  has v name = false -> forall x, subscript_const v name <> Ok x.
Proof.
  intros H x E. apply subscript_const_has in E. congruence.
Qed.

(** X26.  The requests the bridge turns down before any instance is called:
    without a topic (or with a null one) the error is [no topic found]; with
    a topic that does not start with [dab/], or that has no slash after the
    device id, and is not the discovery topic, it is [topic is malformed];
    both are [dabException]s with code 400.  A topic that is not a string is
    not turned into one: the conversion throws the text [invalid json string
    value], not a [dabException]. *)
Theorem bridge_rejects_topic :
  forall (instances : instancesType) (json : jsonElement),
    (has json "topic" = false ->
       bridge_dispatch instances json = (Throw (DabException 400 "no topic found"), []))
    /\ (forall x, subscript_const json "topic" = Ok x -> isString x = false ->
          bridge_dispatch instances json
            = (Throw (CString "invalid json string value"), []))
    /\ (forall topic, subscript_const json "topic" = Ok (JString topic) ->
          topic <> "dab/discovery" ->
          starts_with topic "dab/" = false \/ find_first_of "/" (drop 4 topic) = None ->
          bridge_dispatch instances json
            = (Throw (DabException 400 "topic is malformed"), [])).
Proof.
  intros instances json. split; [|split].
  - intros H. unfold bridge_dispatch. now rewrite H.
  - intros x Ht Hx. unfold bridge_dispatch.
    rewrite (subscript_const_has _ _ _ Ht), Ht. cbn [bind].
    destruct x; try reflexivity; discriminate.
  - intros topic Ht Hne H. unfold bridge_dispatch.
    rewrite (subscript_const_has _ _ _ Ht), Ht. cbn [bind to_string].
    rewrite (proj2 (String.eqb_neq _ _) Hne).
    destruct (starts_with topic "dab/"); [|reflexivity].
    destruct H as [H | H]; [discriminate | now rewrite H].
Qed.
End BridgeRouting.
Section BridgeClients.
Import Json DabBridge Spec.

Lemma string_find_first_of (c : ascii) (s : string) :
  DabClient.string_find c 0 s = find_first_of c s.
Proof.
  induction s as [|d s IH]; [reflexivity|]. cbn [DabClient.string_find find_first_of].
  now rewrite IH.
Qed.

(** X27.  Every topic a client advertises is routed back to it.  For a
    client registered in the bridge under its own device id (an id without a
    slash), a request on a topic of [getTopics] reaches the [dispatch] of
    that client and of no other instance, and there it finds in the registry
    the dispatcher of the line of the method list it names. *)
Theorem advertised_topic_is_routed :
  forall (instances : instancesType) (deviceId ipAddress : string) (T : DabClient.adapter)
         (json : jsonElement) (topic : string),
    let c := DabClient.new_dabClient deviceId ipAddress T in
    find_first_of "/" deviceId = None ->
    StdMap.find string_cmp deviceId instances = Some (instance_of c) ->
    In topic (DabClient.getTopics c) ->
    subscript_const json "topic" = Ok (JString topic) ->
    bridge_dispatch instances json
      = (fst (DabClient.dispatch c json), [Dispatched deviceId json])
    /\ exists m,
         In m DabClient.METHODS
         /\ topic = "dab/" ++ deviceId ++ DabClient.methName m
         /\ snd (DabClient.dispatch c json) = snd (DabClient.call (fst (registered T m)) json).
Proof.
  intros instances deviceId ipAddress T json topic c Hslash Hfind Hin Ht.
  destruct (proj1 (registry_topics deviceId ipAddress T topic) Hin) as [m [Hm [E _]]].
  destruct (proj1 (Forall_forall _ _) methods_start_with_slash m Hm) as [name [E' _]].
  destruct (registry_entries deviceId ipAddress T) as (_ & Hmeth & _ & _).
  specialize (Hmeth m Hm). fold c in Hmeth.
  clear Hin. split.
  - subst topic. rewrite E' in Ht.
    exact (bridge_routes_shared instances json deviceId name (instance_of c) Ht Hslash Hfind).
  - exists m. split; [exact Hm|]. split; [exact E|].
    rewrite <- E in Hmeth. unfold registered in *.
    exact (dispatch_registered c json topic _ _ Ht Hmeth).
Qed.
End BridgeClients.

Section BridgeClientsWitness.
Import Json DabBridge Spec.

Lemma advertised_topic_is_routed_witness :
  bridge_dispatch [("D1", instance_of D1)] (envelope "dab/D1/version" JNull)
    = (fst (DabClient.dispatch D1 (envelope "dab/D1/version" JNull)),
       [Dispatched "D1" (envelope "dab/D1/version" JNull)]).
Proof.
  apply (advertised_topic_is_routed [("D1", instance_of D1)] "D1" "10.0.0.1"
           (DabClient.base_adapter "10.0.0.1" "D1")
           (envelope "dab/D1/version" JNull) "dab/D1/version").
  - reflexivity.
  - reflexivity.
  - right. left. reflexivity.
  - reflexivity.
Defined.
End BridgeClientsWitness.

(** ** The bridge: making instances *)
Section MakeInstanceFacts.
Import Json DabBridge Spec.
Context {P : Type}.

Lemma makeInstances_skip (deviceId : string) (pre rest : list (deviceClass P)) (vs : P)
  (instances : instancesType) :
  Forall (fun cls => isCompatible cls vs = false) pre ->
  makeInstances deviceId (pre ++ rest) vs instances
  = makeInstances deviceId rest vs instances.
Proof.
  induction 1 as [|cls pre Hcls _ IH]; [reflexivity|].
  simpl. rewrite Hcls. exact IH.
Qed.

(** X28.  [makeDeviceInstance] constructs the first class of the list whose
    [isCompatible] accepts the parameter, and no other.  A device id that is
    new is registered with the instance made, which is the one returned and,
    for a device id without a slash, the one later requests for
    [dab/<deviceId>/...] are routed to.  A device id that is registered
    already keeps its instance: the new one is made and dropped, and the old
    one is returned.  The entries of the other device ids stay as they were.
    When no class accepts, the error is [no compatible devices found] with
    code 400. *)
Theorem makeDeviceInstance_first_compatible :
  forall (C : list (deviceClass P)) (deviceId : string) (vs : P) (instances : instancesType),
    StdMap.wf string_cmp instances ->
    (Forall (fun cls => isCompatible cls vs = false) C ->
       makeDeviceInstance C deviceId vs instances
         = Throw (DabException 400 "no compatible devices found"))
    /\ (forall pre cls post value,
          C = (pre ++ cls :: post)%list ->
          Forall (fun cls' => isCompatible cls' vs = false) pre ->
          isCompatible cls vs = true ->
          construct cls deviceId vs = Ok value ->
          let made := match StdMap.find string_cmp (c_string deviceId) instances with
                      | Some old => old
                      | None => value
                      end in
          exists instances',
            makeDeviceInstance C deviceId vs instances = Ok (made, instances')
            /\ StdMap.wf string_cmp instances'
            /\ StdMap.find string_cmp (c_string deviceId) instances' = Some made
            /\ (forall other, other <> c_string deviceId ->
                  StdMap.find string_cmp other instances'
                    = StdMap.find string_cmp other instances)
            /\ (forall json rest,
                  find_first_of "/" (c_string deviceId) = None ->
                  subscript_const json "topic"
                    = Ok (JString ("dab/" ++ c_string deviceId ++ "/" ++ rest)) ->
                  bridge_dispatch instances' json
                    = (dispatch made json, [Dispatched (c_string deviceId) json]))).
Proof.
  intros C deviceId vs instances Hwf. unfold makeDeviceInstance. split.
  - intros H. pose proof (makeInstances_skip deviceId C [] vs instances H) as E.
    rewrite app_nil_r in E. exact E.
  - intros pre cls post value HC Hpre Hcls Hvalue. subst C.
    set (made := match StdMap.find string_cmp (c_string deviceId) instances with
                 | Some old => old
                 | None => value
                 end).
    exists (StdMap.insert string_cmp (c_string deviceId) value instances).
    assert (Hfind : StdMap.find string_cmp (c_string deviceId)
                      (StdMap.insert string_cmp (c_string deviceId) value instances)
                    = Some made).
    { rewrite (string_find_insert _ _ _ _ Hwf), String.eqb_refl. subst made.
      now destruct (StdMap.find string_cmp (c_string deviceId) instances). }
    split; [|split; [|split; [|split]]].
    + rewrite (makeInstances_skip deviceId pre _ vs instances Hpre).
      cbn [makeInstances]. rewrite Hcls, Hvalue. cbn [bind]. now rewrite Hfind.
    + now apply string_insert_wf.
    + exact Hfind.
    + intros other Hne. rewrite (string_find_insert _ _ _ _ Hwf).
      rewrite (proj2 (String.eqb_neq _ _) Hne).
      now destruct (StdMap.find string_cmp other instances).
    + intros json rest Hslash Ht.
      exact (bridge_routes_shared _ json (c_string deviceId) rest made Ht Hslash Hfind).
Qed.

End MakeInstanceFacts.

Section MakeInstanceWitness.
Import Json DabBridge Spec.

Lemma makeDeviceInstance_first_compatible_witness :
  (exists instances',
     makeDeviceInstance
       [ {| isCompatible := fun ip : string => (ip =? "none")%string;
            construct := fun _ _ => Ok (instance_of D2) |};
         {| isCompatible := fun ip : string => (ip =? "10.0.0.1")%string;
            construct := fun _ _ => Ok (instance_of D1) |} ]
       "D1" "10.0.0.1" [("D2", instance_of D2)]
     = Ok (instance_of D1, instances')
     /\ StdMap.find string_cmp "D1" instances' = Some (instance_of D1)
     /\ StdMap.find string_cmp "D2" instances' = Some (instance_of D2)
     /\ bridge_dispatch instances' (JObject [("topic", JString "dab/D1/version")])
        = (dispatch (instance_of D1) (JObject [("topic", JString "dab/D1/version")]),
           [Dispatched "D1" (JObject [("topic", JString "dab/D1/version")])]))
  /\ (exists instances',
        makeDeviceInstance
          [ {| isCompatible := fun ip : string => (ip =? "none")%string;
               construct := fun _ _ => Ok (instance_of D2) |};
            {| isCompatible := fun ip : string => (ip =? "10.0.0.1")%string;
               construct := fun _ _ => Ok (instance_of D1) |} ]
          "D2" "10.0.0.1" [("D2", instance_of D2)]
        = Ok (instance_of D2, instances')
        /\ StdMap.find string_cmp "D2" instances' = Some (instance_of D2))
  /\ makeDeviceInstance
       [ {| isCompatible := fun ip : string => (ip =? "none")%string;
            construct := fun _ _ => Ok (instance_of D2) |};
         {| isCompatible := fun ip : string => (ip =? "10.0.0.1")%string;
            construct := fun _ _ => Ok (instance_of D1) |} ]
       "D1" "10.0.0.9" [("D2", instance_of D2)]
     = Throw (DabException 400 "no compatible devices found").
Proof.
  assert (Hwf : StdMap.wf string_cmp [("D2", instance_of D2)])
    by (unfold StdMap.wf; repeat constructor).
  split; [|split].
  - destruct (proj2 (makeDeviceInstance_first_compatible
                       [ {| isCompatible := fun ip : string => (ip =? "none")%string;
                            construct := fun _ _ => Ok (instance_of D2) |};
                         {| isCompatible := fun ip : string => (ip =? "10.0.0.1")%string;
                            construct := fun _ _ => Ok (instance_of D1) |} ]
                       "D1" "10.0.0.1" [("D2", instance_of D2)] Hwf)
                [ {| isCompatible := fun ip : string => (ip =? "none")%string;
                     construct := fun _ _ => Ok (instance_of D2) |} ]
                {| isCompatible := fun ip : string => (ip =? "10.0.0.1")%string;
                   construct := fun _ _ => Ok (instance_of D1) |}
                [] (instance_of D1)
                eq_refl ltac:(repeat constructor) eq_refl eq_refl)
      as [instances' [Hmade [_ [Hnew [Hold Hroute]]]]].
    exists instances'. split; [exact Hmade|]. split; [exact Hnew|]. split.
    + rewrite (Hold "D2"); [reflexivity | discriminate].
    + exact (Hroute (JObject [("topic", JString "dab/D1/version")]) "version"
               eq_refl eq_refl).
  - destruct (proj2 (makeDeviceInstance_first_compatible
                       [ {| isCompatible := fun ip : string => (ip =? "none")%string;
                            construct := fun _ _ => Ok (instance_of D2) |};
                         {| isCompatible := fun ip : string => (ip =? "10.0.0.1")%string;
                            construct := fun _ _ => Ok (instance_of D1) |} ]
                       "D2" "10.0.0.1" [("D2", instance_of D2)] Hwf)
                [ {| isCompatible := fun ip : string => (ip =? "none")%string;
                     construct := fun _ _ => Ok (instance_of D2) |} ]
                {| isCompatible := fun ip : string => (ip =? "10.0.0.1")%string;
                   construct := fun _ _ => Ok (instance_of D1) |}
                [] (instance_of D1)
                eq_refl ltac:(repeat constructor) eq_refl eq_refl)
      as [instances' [Hmade [_ [Hkept _]]]].
    exists instances'. split; [exact Hmade | exact Hkept].
  - apply (proj1 (makeDeviceInstance_first_compatible
                    [ {| isCompatible := fun ip : string => (ip =? "none")%string;
                         construct := fun _ _ => Ok (instance_of D2) |};
                      {| isCompatible := fun ip : string => (ip =? "10.0.0.1")%string;
                         construct := fun _ _ => Ok (instance_of D1) |} ]
                    "D1" "10.0.0.9" [("D2", instance_of D2)] Hwf)).
    repeat constructor.
Defined.
End MakeInstanceWitness.

(** ** The bytes of the wire form *)
Section WireBytes.
Import Json Spec.

Lemma seven_bit_append (a b : string) :
  seven_bit_string (a ++ b) = seven_bit_string a && seven_bit_string b.
Proof.
  induction a as [|c a IH]; [reflexivity|].
  cbn [append seven_bit_string]. now rewrite IH, andb_assoc.
Qed.

Lemma serialize_char_seven_bit (c : ascii) : seven_bit_string (serialize_char c) = true.
Proof. each_char c; vm_compute; reflexivity. Qed.

Lemma serialize_string_seven_bit (s : string) : seven_bit_string (serialize_string s) = true.
Proof.
  induction s as [|c s IH]; [reflexivity|].
  cbn [serialize_string]. now rewrite seven_bit_append, serialize_char_seven_bit, IH.
Qed.

Lemma string_of_uint_seven_bit (d : uint) :
  seven_bit_string (NilEmpty.string_of_uint d) = true.
Proof. induction d; simpl; try reflexivity; exact IHd. Qed.

Lemma to_string_int64_seven_bit (z : Z) : seven_bit_string (to_string_int64 z) = true.
Proof.
  unfold to_string_int64. destruct (Z.to_int z) as [d|d]; simpl;
    apply string_of_uint_seven_bit.
Qed.

Lemma digit_char_seven_bit (n : Z) : seven_bit (digit_char (n mod 10)) = true.
Proof.
  pose proof (Z.mod_pos_bound n 10 ltac:(lia)) as H.
  assert (E : n mod 10 = 0 \/ n mod 10 = 1 \/ n mod 10 = 2 \/ n mod 10 = 3 \/ n mod 10 = 4
              \/ n mod 10 = 5 \/ n mod 10 = 6 \/ n mod 10 = 7 \/ n mod 10 = 8 \/ n mod 10 = 9)
    by lia.
  repeat (destruct E as [E | E]; [rewrite E; reflexivity|]). rewrite E. reflexivity.
Qed.

Lemma six_digits_seven_bit (n : Z) : seven_bit_string (six_digits n) = true.
Proof.
  unfold six_digits. cbn [seven_bit_string]. now rewrite !digit_char_seven_bit.
Qed.

Lemma to_string_double_seven_bit (d : double) : seven_bit_string (to_string_double d) = true.
Proof.
  destruct d as [[s | s | | s m e] | ]; cbn [to_string_double].
  - now destruct s.
  - now destruct s.
  - reflexivity.
  - rewrite !seven_bit_append, to_string_int64_seven_bit, six_digits_seven_bit.
    now destruct s.
  - reflexivity.
Qed.

(** X29.  The wire form is seven-bit clean.  Whatever bytes the string values
    hold, the text [serialize] writes has no byte below 0x20 and none above
    0x7F, provided the member names have none: the names are the one part
    written as it is. *)
Theorem serialize_seven_bit_clean :
  forall (quoteNames : bool) (v : jsonElement),
    seven_bit_names v = true ->
    seven_bit_string (serialize quoteNames v) = true.
Proof.
  intros q v.
  induction v as [ | z | d | s | obj IH | arr IH | b | ] using jsonElement_induction;
    intros H; try reflexivity.
  - apply to_string_int64_seven_bit.
  - apply to_string_double_seven_bit.
  - cbn [serialize seven_bit_string]. rewrite seven_bit_append, serialize_string_seven_bit.
    reflexivity.
  - rewrite serialize_object. cbn [seven_bit_string seven_bit_names] in *.
    change (seven_bit "{") with true. cbn [andb].
    assert (Hall : forall first, seven_bit_string (serialize_members q first obj) = true);
      [|exact (Hall true)].
    induction IH as [|[name x] obj Hx _ IHobj]; intros first; [reflexivity|].
    cbn [forallb] in H. apply andb_prop in H. destruct H as [Hm Hrest].
    apply andb_prop in Hm. destruct Hm as [Hname Hx'].
    cbn [snd] in Hx. cbn [serialize_members]. rewrite !seven_bit_append.
    rewrite (Hx Hx'), (IHobj Hrest false).
    assert (Hn : seven_bit_string (serialize_name q name) = true).
    { destruct q; cbn [serialize_name seven_bit_string]; [|exact Hname].
      now rewrite seven_bit_append, Hname. }
    rewrite Hn. now destruct first.
  - rewrite serialize_array. cbn [seven_bit_string seven_bit_names] in *.
    change (seven_bit "[") with true. cbn [andb].
    assert (Hall : forall first, seven_bit_string (serialize_elements q first arr) = true);
      [|exact (Hall true)].
    induction IH as [|x arr Hx _ IHarr]; intros first; [reflexivity|].
    cbn [forallb] in H. apply andb_prop in H. destruct H as [Hx' Hrest].
    cbn [serialize_elements]. rewrite !seven_bit_append.
    rewrite (Hx Hx'), (IHarr Hrest false). now destruct first.
  - now destruct b.
Qed.

Lemma serialize_seven_bit_clean_witness :
  seven_bit_string
    (serialize true (JObject [("a", JString (String "001" (String "200" "z")))])) = true.
Proof.
  apply (serialize_seven_bit_clean true
           (JObject [("a", JString (String "001" (String "200" "z")))])).
  reflexivity.
Defined.
End WireBytes.

(** ** White space around the document *)
Section OuterSpace.
Import Json Spec.

Lemma skipSpace_all (s ws : string) :
  all_space ws = true -> skipSpace s = "" -> skipSpace (s ++ ws) = "".
Proof.
  intros Hws. induction s as [|c s IH]; cbn [append skipSpace].
  - intros _. rewrite <- (append_nil_r ws). rewrite (skipSpace_app ws "" Hws). reflexivity.
  - destruct (isSpace c); [exact IH | discriminate].
Qed.

Lemma skipSpace_suffix (s ws : string) (c : ascii) (t : string) :
  skipSpace s = String c t -> skipSpace (s ++ ws) = String c (t ++ ws).
Proof.
  induction s as [|d s IH]; cbn [append skipSpace]; [discriminate|].
  destruct (isSpace d); [exact IH|]. intros H. inversion H; subst. reflexivity.
Qed.

Lemma parse_skipSpace (f : nat) (t : string) :
  jsonElement_parse f (skipSpace t) = jsonElement_parse f t.
Proof. destruct f; [reflexivity|]. cbn [jsonElement_parse]. now rewrite skipSpace_idem. Qed.

Lemma space_classes (c : ascii) :
  isSpace c = true ->
  isNum c = false /\ isSymbolB c = false /\ (c =? NUL)%char = false
  /\ (c =? dquote)%char = false /\ (c =? backslash)%char = false.
Proof. each_char c; vm_compute; intros H; try discriminate H; repeat split. Qed.

Lemma lexNumber_suffix (s ws : string) :
  all_space ws = true ->
  lexNumber (s ++ ws)
  = (fst (fst (lexNumber s)), snd (fst (lexNumber s)), snd (lexNumber s) ++ ws).
Proof.
  intros Hws. induction s as [|c s IH]; cbn [append].
  - destruct ws as [|w ws]; [reflexivity|].
    cbn [all_space] in Hws. apply andb_prop in Hws. destruct Hws as [Hw _].
    destruct (space_classes w Hw) as (Hn & _). cbn [lexNumber]. now rewrite Hn.
  - cbn [lexNumber]. destruct (isNum c); [|reflexivity].
    rewrite IH. now destruct (lexNumber s) as [[v f] r].
Qed.

Lemma symbolName_suffix (s ws : string) :
  all_space ws = true ->
  symbolName (s ++ ws) = (fst (symbolName s), snd (symbolName s) ++ ws).
Proof.
  intros Hws. induction s as [|c s IH]; cbn [append].
  - destruct ws as [|w ws]; [reflexivity|].
    cbn [all_space] in Hws. apply andb_prop in Hws. destruct Hws as [Hw _].
    destruct (space_classes w Hw) as (_ & Hn & _). cbn [symbolName]. now rewrite Hn.
  - cbn [symbolName]. destruct (isSymbolB c); [|reflexivity].
    rewrite IH. now destruct (symbolName s) as [v r].
Qed.

Lemma quotedName_suffix (s ws : string) :
  (peek (snd (quotedName s)) =? NUL)%char = false ->
  quotedName (s ++ ws) = (fst (quotedName s), snd (quotedName s) ++ ws).
Proof.
  induction s as [|c s IH]; cbn [append quotedName]; [discriminate|].
  destruct ((c =? NUL)%char || (c =? dquote)%char); [reflexivity|].
  destruct (quotedName s) as [v r]. cbn [fst snd] in *. intros H. now rewrite (IH H).
Qed.

Lemma stringBody_suffix (s ws : string) :
  (peek (snd (stringBody s)) =? NUL)%char = false ->
  stringBody (s ++ ws) = (fst (stringBody s), snd (stringBody s) ++ ws).
Proof.
  assert (H : forall n s, (String.length s <= n)%nat ->
                (peek (snd (stringBody s)) =? NUL)%char = false ->
                stringBody (s ++ ws) = (fst (stringBody s), snd (stringBody s) ++ ws)).
  { induction n as [|n IH]; intros [|c t] Hn; cbn [String.length] in Hn;
      try lia; try (intros H; discriminate H).
    cbn [append stringBody].
    destruct ((c =? NUL)%char || (c =? dquote)%char); [reflexivity|].
    destruct (c =? backslash)%char.
    - destruct t as [|d u]; [intros H; discriminate H|]. cbn [append].
      destruct (d =? NUL)%char eqn:Ed.
      + cbn [snd peek]. intros H. congruence.
      + assert (Hu : (String.length u <= n)%nat) by (cbn [String.length] in Hn; lia).
        specialize (IH u Hu). destruct (stringBody u) as [v r]. cbn [fst snd] in *.
        intros H. now rewrite (IH H).
    - assert (Ht : (String.length t <= n)%nat) by lia.
      specialize (IH t Ht). destruct (stringBody t) as [v r]. cbn [fst snd] in *.
      intros H. now rewrite (IH H). }
  apply (H (String.length s)). lia.
Qed.

Lemma peek_app (s ws : string) :
  (peek s =? NUL)%char = false -> peek (s ++ ws) = peek s /\ advance (s ++ ws) = advance s ++ ws.
Proof. destruct s as [|c s]; [discriminate|]. now split. Qed.

Lemma parse_name_suffix (s ws name rest : string) :
  all_space ws = true ->
  parse_name s = Ok (name, rest) -> parse_name (s ++ ws) = Ok (name, rest ++ ws).
Proof.
  intros Hws. unfold parse_name.
  destruct s as [|c s]; [cbn; discriminate|]. cbn [append peek advance].
  destruct (c =? dquote)%char.
  - pose proof (quotedName_suffix s ws) as Hq.
    destruct (quotedName s) as [n r]. cbn [fst snd] in Hq.
    destruct (peek r =? NUL)%char eqn:Er; [discriminate|].
    rewrite (Hq eq_refl). destruct (peek_app r ws Er) as [-> ->]. rewrite Er.
    intros H. now inversion H.
  - destruct (negb (isSymbol c)); [discriminate|].
    change (String c (s ++ ws)) with (String c s ++ ws).
    rewrite (symbolName_suffix (String c s) ws Hws).
    destruct (symbolName (String c s)) as [n r]. cbn [fst snd].
    intros H. now inversion H.
Qed.

Lemma prefix_suffix (p s ws : string) :
  prefix p s = true ->
  prefix p (s ++ ws) = true
  /\ drop (String.length p) (s ++ ws) = drop (String.length p) s ++ ws.
Proof.
  revert s. induction p as [|a p IH]; intros s H.
  - split; [now destruct (s ++ ws) | reflexivity].
  - destruct s as [|b s]; [discriminate H|]. cbn [prefix append] in *.
    destruct (ascii_dec a b); [|discriminate H].
    destruct (IH s H) as [H1 H2]. split; [exact H1 | exact H2].
Qed.

Lemma prefix_letters (p s ws : string) :
  all_space ws = true -> symbol_chars p = true ->
  prefix p (s ++ ws) = prefix p s.
Proof.
  intros Hws. revert s. induction p as [|a p IH]; intros s Hp.
  - now rewrite !prefix_nil.
  - cbn [symbol_chars] in Hp. apply andb_prop in Hp. destruct Hp as [Ha Hp].
    destruct s as [|b s]; cbn [append prefix].
    + destruct ws as [|w ws]; [reflexivity|]. cbn [prefix].
      destruct (ascii_dec a w) as [E|_]; [|reflexivity]. subst w.
      cbn [all_space] in Hws. apply andb_prop in Hws. destruct Hws as [Hw _].
      destruct (space_classes a Hw) as (_ & Hn & _). congruence.
    + destruct (ascii_dec a b); [now apply IH | reflexivity].
Qed.

Lemma parse_nothing (f : nat) (x : jsonElement) (rest : string) :
  jsonElement_parse f "" <> Some (Ok (x, rest)).
Proof. destruct f; cbn; discriminate. Qed.

(** A parse that ends well ends as well, on the same value, when white space
    follows the text. *)
Lemma parse_suffix (ws : string) (fuel : nat) :
  all_space ws = true ->
  (forall str x rest,
      jsonElement_parse fuel str = Some (Ok (x, rest)) ->
      jsonElement_parse fuel (str ++ ws) = Some (Ok (x, rest ++ ws)))
  /\ (forall first obj str x rest,
         parse_object fuel first obj str = Some (Ok (x, rest)) ->
         parse_object fuel first obj (str ++ ws) = Some (Ok (x, rest ++ ws)))
  /\ (forall first arr str x rest,
         parse_array fuel first arr str = Some (Ok (x, rest)) ->
         parse_array fuel first arr (str ++ ws) = Some (Ok (x, rest ++ ws))).
Proof.
  intros Hws. induction fuel as [|f [IHv [IHo IHa]]].
  - repeat split; intros; discriminate.
  - split; [|split].
    + intros str x rest. cbn [jsonElement_parse].
      destruct (skipSpace str) as [|c s] eqn:Es; [cbn; discriminate|].
      rewrite (skipSpace_suffix str ws c s Es). cbn [peek advance].
      destruct (c =? "{")%char; [apply IHo|].
      destruct (c =? "[")%char; [apply IHa|].
      destruct (c =? dquote)%char.
      { pose proof (stringBody_suffix s ws) as Hb.
        destruct (stringBody s) as [v r]. cbn [fst snd] in Hb.
        destruct (peek r =? NUL)%char eqn:Er; [discriminate|].
        rewrite (Hb eq_refl). destruct (peek_app r ws Er) as [-> ->]. rewrite Er.
        intros H. now inversion H. }
      destruct (isNumB c).
      { change (String c (s ++ ws)) with (String c s ++ ws).
        rewrite (lexNumber_suffix (String c s) ws Hws).
        destruct (lexNumber (String c s)) as [[v isFloat] r]. cbn [fst snd].
        destruct isFloat.
        - destruct (stod v); cbn [bind]; intros H; inversion H; reflexivity.
        - destruct (stoll v); cbn [bind]; intros H; inversion H; reflexivity. }
      change (String c (s ++ ws)) with (String c s ++ ws).
      rewrite (prefix_letters "true" (String c s) ws Hws eq_refl).
      rewrite (prefix_letters "false" (String c s) ws Hws eq_refl).
      rewrite (prefix_letters "null" (String c s) ws Hws eq_refl).
      destruct (prefix "true" (String c s)) eqn:Ht.
      { destruct (prefix_suffix "true" _ ws Ht) as [_ Hd]. cbn [String.length] in Hd.
        rewrite Hd. intros H. now inversion H. }
      destruct (prefix "false" (String c s)) eqn:Hf.
      { destruct (prefix_suffix "false" _ ws Hf) as [_ Hd]. cbn [String.length] in Hd.
        rewrite Hd. intros H. now inversion H. }
      destruct (prefix "null" (String c s)) eqn:Hn; [|discriminate].
      destruct (prefix_suffix "null" _ ws Hn) as [_ Hd]. cbn [String.length] in Hd.
      rewrite Hd. intros H. now inversion H.
    + intros first obj str x rest. cbn [parse_object].
      destruct (skipSpace str) as [|c s] eqn:Es;
        [destruct first; cbn; discriminate|].
      rewrite (skipSpace_suffix str ws c s Es). cbn [peek advance].
      destruct (c =? "}")%char; [intros H; now inversion H|].
      (* the separator *)
      assert (Hsep :
                forall b t, object_separator first (String c s) = Ok (b, t) ->
                  (b = true /\ object_separator first (String c (s ++ ws)) = Ok (true, t ++ ws))
                  \/ (b = false /\ t = ""
                      /\ exists t', object_separator first (String c (s ++ ws)) = Ok (false, t'))
                  \/ (b = false
                      /\ object_separator first (String c (s ++ ws)) = Ok (false, t ++ ws))).
      { intros b t. unfold object_separator. destruct first.
        - intros H. inversion H; subst. right. right. now split.
        - cbn [peek advance]. destruct (negb (c =? ",")%char); [discriminate|].
          destruct (skipSpace s) as [|c2 s2] eqn:E2.
          + rewrite (skipSpace_all s ws Hws E2). cbn [peek].
            change (NUL =? "}")%char with false. cbv iota.
            intros H. inversion H; subst. right. left. repeat split. now exists "".
          + rewrite (skipSpace_suffix s ws c2 s2 E2). cbn [peek advance].
            destruct (c2 =? "}")%char; intros H; inversion H; subst.
            * left. now split.
            * right. right. now split. }
      destruct (object_separator first (String c s)) as [[b t]| |]; try discriminate.
      destruct (Hsep b t eq_refl) as [[-> ->] | [[-> [-> [t' ->]]] | [-> ->]]].
      * intros H. now inversion H.
      * cbn. discriminate.
      * clear Hsep.
        destruct (parse_name t) as [[name s2]| |] eqn:Hname; try discriminate.
        rewrite (parse_name_suffix t ws name s2 Hws Hname).
        destruct (skipSpace s2) as [|c3 s3] eqn:E3; [cbn; discriminate|].
        rewrite (skipSpace_suffix s2 ws c3 s3 E3). cbn [peek advance].
        destruct (negb (c3 =? ":")%char); [discriminate|].
        rewrite !parse_skipSpace.
        destruct (jsonElement_parse f s3) as [[[y s4]| |]|] eqn:Ev; try discriminate.
        rewrite (IHv _ _ _ Ev). apply IHo.
    + intros first arr str x rest. cbn [parse_array].
      destruct (skipSpace str) as [|c s] eqn:Es.
      { cbn [peek]. change (NUL =? "]")%char with false. cbv iota.
        destruct first; cbn [array_separator peek negb].
        - intros H. destruct (jsonElement_parse f "") as [[[y s2]| |]|] eqn:E;
            try discriminate H. now elim (parse_nothing f y s2).
        - change (negb (NUL =? ",")%char) with true. cbv iota. discriminate. }
      rewrite (skipSpace_suffix str ws c s Es). cbn [peek advance].
      destruct (c =? "]")%char; [intros H; now inversion H|].
      unfold array_separator. destruct first.
      * destruct (jsonElement_parse f (String c s)) as [[[y s2]| |]|] eqn:Ev; try discriminate.
        change (String c (s ++ ws)) with (String c s ++ ws).
        rewrite (IHv _ _ _ Ev). apply IHa.
      * cbn [peek advance]. destruct (negb (c =? ",")%char); [discriminate|].
        rewrite !parse_skipSpace.
        destruct (jsonElement_parse f s) as [[[y s2]| |]|] eqn:Ev; try discriminate.
        rewrite (IHv _ _ _ Ev). apply IHa.
Qed.

Lemma jsonParser_leading_space (before str : string) :
  all_space before = true -> jsonParser (before ++ str) = jsonParser str.
Proof.
  intros Hws. unfold jsonParser.
  destruct (proj1 (parse_fuel (2 * String.length str + 1)) str (Nat.le_refl _))
    as [r [Hr _]].
  assert (Hle : (2 * String.length str + 1 <= 2 * String.length (before ++ str) + 1)%nat)
    by (rewrite length_append; lia).
  pose proof (proj1 (parse_fuel_mono _) _ _ Hr _ Hle) as Hr'.
  assert (E : jsonElement_parse (2 * String.length (before ++ str) + 1) (before ++ str)
              = jsonElement_parse (2 * String.length (before ++ str) + 1) str).
  { rewrite Nat.add_1_r. cbn [jsonElement_parse]. now rewrite (skipSpace_app before str Hws). }
  now rewrite E, Hr', Hr.
Qed.

Lemma jsonParser_trailing_space (str after : string) (v : jsonElement) :
  all_space after = true -> jsonParser str = Ok v -> jsonParser (str ++ after) = Ok v.
Proof.
  intros Hws. unfold jsonParser.
  destruct (jsonElement_parse (2 * String.length str + 1) str) as [[[x rest]| |]|] eqn:E;
    try discriminate.
  destruct (peek (skipSpace rest) =? NUL)%char eqn:Hend; [|discriminate].
  intros H. inversion H; subst x.
  pose proof (proj1 (parse_suffix after _ Hws) _ _ _ E) as E'.
  assert (Hle : (2 * String.length str + 1 <= 2 * String.length (str ++ after) + 1)%nat)
    by (rewrite length_append; lia).
  rewrite (proj1 (parse_fuel_mono _) _ _ E' _ Hle).
  assert (Hend' : (peek (skipSpace (rest ++ after)) =? NUL)%char = true).
  { destruct (skipSpace rest) as [|c t] eqn:Er.
    - now rewrite (skipSpace_all rest after Hws Er).
    - now rewrite (skipSpace_suffix rest after c t Er). }
  now rewrite Hend'.
Qed.

(** X30.  White space around a document does not matter.  White space before
    the text changes nothing, whatever the parser makes of the text; and a
    text that is parsed to a value is parsed to the same value when white
    space is put before and after it. *)
Theorem jsonParser_outer_space :
  forall (before after str : string),
    all_space before = true ->
    all_space after = true ->
    jsonParser (before ++ str) = jsonParser str
    /\ forall v, jsonParser str = Ok v -> jsonParser (before ++ str ++ after) = Ok v.
Proof.
  intros before after str Hb Ha. split.
  - now apply jsonParser_leading_space.
  - intros v Hv. rewrite (jsonParser_leading_space before (str ++ after) Hb).
    now apply jsonParser_trailing_space.
Qed.

Lemma jsonParser_outer_space_witness :
  jsonParser (String " " (String LF "") ++ "[1]") = jsonParser "[1]"
  /\ forall v, jsonParser "[1]" = Ok v ->
       jsonParser (String " " (String LF "") ++ "[1]" ++ String TAB " ") = Ok v.
Proof.
  apply (jsonParser_outer_space (String " " (String LF "")) (String TAB " ") "[1]");
    reflexivity.
Defined.
End OuterSpace.

